(** * ChatterTV: the tiered upload-and-delivery engine

    A shallow embedding of the upload strategy code of the browser client
    (the upload modal), of the Express routes of the server
    (server/routes.ts) and of the S3 adapter module that the routes are
    linked with, followed by the properties of the specification that were
    checked against them. *)

From Stdlib Require Import ZArith Lia Bool Ascii String DecimalString DecimalPos.
From stdpp Require Import base option list strings gmap.

Local Open Scope string_scope.
Local Open Scope list_scope.
Local Open Scope Z_scope.

(** stdpp keeps [simpl] from unfolding string concatenation; the strings
    built here are short, and the proofs compute with them. *)
Arguments String.append !s1 s2 / : simpl nomatch.

(** ** JavaScript values and string primitives *)

Module JS.

(** A JavaScript number holding an integer, NaN or an infinity.  The sums
    and differences that the code takes are of integers below 2^53, where
    they are exact. *)
Inductive number :=
| NaN
| Num (z : Z)
| Infinity (negative : bool).

Definition sub (a b : number) : number :=
  match a, b with
  | Num x, Num y => Num (x - y)
  | Infinity n, Num _ => Infinity n
  | Num _, Infinity n => Infinity (negb n)
  | Infinity n, Infinity m => if Bool.eqb n m then NaN else Infinity n
  | _, _ => NaN
  end.

Definition add (a b : number) : number :=
  match a, b with
  | Num x, Num y => Num (x + y)
  | Infinity n, Num _ => Infinity n
  | Num _, Infinity n => Infinity n
  | Infinity n, Infinity m => if Bool.eqb n m then Infinity n else NaN
  | _, _ => NaN
  end.

(** [a > b]; false when either side is NaN. *)
Definition gt (a b : number) : bool :=
  match a, b with
  | Num x, Num y => y <? x
  | Infinity false, (Num _ | Infinity true) => true
  | Num _, Infinity true => true
  | _, _ => false
  end.

(** Number.MAX_SAFE_INTEGER *)
Definition MAX_SAFE_INTEGER : Z := 2 ^ 53 - 1.

(** The number that holds an integer: the integer itself up to 2^53, beyond
    it the nearest number of 53 binary digits, the even one of two that are
    equally near, and an infinity from 2^1024 on. *)
Definition of_integer (v : Z) : number :=
  let a := Z.abs v in
  if a <? 2 ^ 53 then Num v
  else
    let e := Z.log2 a - 52 in
    let q := Z.shiftr a e in
    let r := a - Z.shiftl q e in
    let half := 2 ^ (e - 1) in
    let q' := if (half <? r) || ((r =? half) && Z.odd q) then q + 1 else q in
    let m := Z.shiftl q' e in
    if 2 ^ 1024 <=? m then Infinity (v <? 0) else Num (Z.sgn v * m).

(** [Math.ceil(a / b)] for integers [a] and a positive integer [b]. *)
Definition ceil_div (a b : Z) : Z := (a + b - 1) / b.

(** Number to string conversion of a template literal, for an integer
    below 10^21, which is written with all its digits. *)
Definition show (n : number) : string :=
  match n with
  | NaN => "NaN"
  | Num z => NilZero.string_of_int (Z.to_int z)
  | Infinity false => "Infinity"
  | Infinity true => "-Infinity"
  end.

(** Truthiness of a string or undefined value. *)
Definition truthy (o : option string) : bool :=
  match o with
  | None => false
  | Some s => negb (String.eqb s "")
  end.

Fixpoint drop_chars (n : nat) (s : string) : string :=
  match n, s with
  | O, _ => s
  | S n', String _ s' => drop_chars n' s'
  | S _, EmptyString => EmptyString
  end.

(** [s.startsWith(pat)] *)
Fixpoint startsWith (pat s : string) : bool :=
  match pat, s with
  | EmptyString, _ => true
  | String c pat', String d s' => Ascii.eqb c d && startsWith pat' s'
  | String _ _, EmptyString => false
  end.

(** [s.replace(/pat/, "")] for a pattern without metacharacters: the
    first occurrence of [pat] is removed. *)
Fixpoint remove_first (pat s : string) : string :=
  if startsWith pat s then drop_chars (String.length pat) s
  else match s with
       | EmptyString => EmptyString
       | String c s' => String c (remove_first pat s')
       end.

(** [s.split(sep)] for a one-character separator. *)
Fixpoint split (sep : ascii) (s : string) : list string :=
  match s with
  | EmptyString => [EmptyString]
  | String c s' =>
      if Ascii.eqb c sep then EmptyString :: split sep s'
      else match split sep s' with
           | h :: t => String c h :: t
           | [] => [String c EmptyString]
           end
  end.

(** [s.includes(pat)] *)
Fixpoint includes (pat s : string) : bool :=
  startsWith pat s
  || match s with
     | String _ s' => includes pat s'
     | EmptyString => false
     end.

(** [s.endsWith(suffix)] *)
Definition endsWith (s suffix : string) : bool :=
  String.eqb (drop_chars (String.length s - String.length suffix) s) suffix.

(** [s.toLowerCase()] on the ASCII letters. *)
Fixpoint toLowerCase (s : string) : string :=
  match s with
  | EmptyString => EmptyString
  | String c s' =>
      let n := nat_of_ascii c in
      String (if (Nat.leb 65 n && Nat.leb n 90)%bool then ascii_of_nat (n + 32) else c)
             (toLowerCase s')
  end.

(** [s.replace(/c/g, '')]: every occurrence of the character is removed. *)
Fixpoint remove_all (c : ascii) (s : string) : string :=
  match s with
  | EmptyString => EmptyString
  | String d s' => if Ascii.eqb d c then remove_all c s' else String d (remove_all c s')
  end.

(** White space skipped by parseInt.  Header strings are decoded one
    byte per character, so the no-break space is the only one above 127. *)
Definition is_white_space (c : ascii) : bool :=
  let n := nat_of_ascii c in
  (Nat.eqb n 9 || Nat.eqb n 10 || Nat.eqb n 11 || Nat.eqb n 12
   || Nat.eqb n 13 || Nat.eqb n 32 || Nat.eqb n 160)%bool.

Fixpoint skip_white_space (s : string) : string :=
  match s with
  | String c s' => if is_white_space c then skip_white_space s' else s
  | EmptyString => EmptyString
  end.

Definition digit_value (c : ascii) : option Z :=
  let n := nat_of_ascii c in
  if (Nat.leb 48 n && Nat.leb n 57)%bool then Some (Z.of_nat n - 48) else None.

(** Value of the longest prefix of decimal digits; [acc] is [None] until
    a digit has been read. *)
Fixpoint leading_digits (s : string) (acc : option Z) : option Z :=
  match s with
  | String c s' =>
      match digit_value c with
      | Some d => leading_digits s' (Some (10 * default 0 acc + d))
      | None => acc
      end
  | EmptyString => acc
  end.

(** [parseInt(s, 10)], as the streaming helper calls it on the two offsets
    of a Range header.  The value is the integer that the digits write; the
    code holds it rounded from 2^53 on, where createReadStream refuses it
    either way, so that the offsets of a stream are the same here and
    there. *)
Definition parseInt (s : string) : number :=
  let s1 := skip_white_space s in
  let '(sign, s2) :=
    match s1 with
    | String "-" r => (-1, r)
    | String "+" r => (1, r)
    | _ => (1, s1)
    end in
  match leading_digits s2 None with
  | None => NaN
  | Some v => Num (sign * v)
  end.

Definition hex_value (c : ascii) : option Z :=
  let n := nat_of_ascii c in
  if (Nat.leb 48 n && Nat.leb n 57)%bool then Some (Z.of_nat n - 48)
  else if (Nat.leb 65 n && Nat.leb n 70)%bool then Some (Z.of_nat n - 55)
  else if (Nat.leb 97 n && Nat.leb n 102)%bool then Some (Z.of_nat n - 87)
  else None.

Fixpoint leading_hex (s : string) (acc : option Z) : option Z :=
  match s with
  | String c s' =>
      match hex_value c with
      | Some d => leading_hex s' (Some (16 * default 0 acc + d))
      | None => acc
      end
  | EmptyString => acc
  end.

(** [parseInt(s)], without a radix: a numeral that begins with 0x or 0X
    is read in base 16, every other one in base 10, and the result is the
    number that holds the integer read. *)
Definition parseIntAuto (s : string) : number :=
  let s1 := skip_white_space s in
  let '(sign, s2) :=
    match s1 with
    | String "-" r => (-1, r)
    | String "+" r => (1, r)
    | _ => (1, s1)
    end in
  let digits :=
    match s2 with
    | String "0" (String x r) =>
        if (Ascii.eqb x "x" || Ascii.eqb x "X")%bool then leading_hex r None
        else leading_digits s2 None
    | _ => leading_digits s2 None
    end in
  match digits with
  | None => NaN
  | Some v => of_integer (sign * v)
  end.

End JS.

(** ** Shared data *)

Definition bytes := list Byte.byte.

Definition MiB : Z := 1024 * 1024.

(** The outcome of a call that may throw. *)
Inductive result (A : Type) : Type :=
| Ok (a : A)
| Throw (msg : string).
Arguments Ok {A} a.
Arguments Throw {A} msg.

(** A completed part of a multipart upload. *)
Record Part := { PartNumber : Z; ETag : string }.

(** process.env; an unset variable is the empty string, which the code
    treats like an unset one everywhere it reads them. *)
Record ProcessEnv := {
  AWS_ACCESS_KEY_ID : string;
  AWS_SECRET_ACCESS_KEY : string;
  AWS_REGION : string;
  AWS_S3_BUCKET : string;
  MAX_FILE_SIZE_var : string;
  REPLIT_DEPLOYMENT : string
}.

(** The local directories, keyed by file name. *)
Record LocalStore := {
  uploads : gmap string bytes;       (* uploadDir *)
  thumbnails : gmap string bytes;    (* thumbnailDir *)
  tempVideos : gmap string bytes     (* temp-videos *)
}.

(** A row of the videos table, with the columns the routes decide. *)
Record Video := { videoId : Z; filePath : string; thumbnailPath : string }.

(** ** HTTP responses of the server *)

Inductive body :=
| JError (error message : string) (fallbackAvailable : bool)
| JMessage (message : string)
| JUploadUrl (uploadUrl key : string)
| JInit (uploadId key : string)
| JPartUrl (partUrl : string)
| JComplete (fileUrl key : string)
| JVideo (v : Video)
| JDirectConfig (usePresignedPost : bool) (url : option string)
    (fieldsKey : option string) (key : string).

Inductive payload :=
| Json (b : body)
| Text (s : string)
| Stream (data : bytes)                    (* a read stream piped into the response *)
| SendFile (path : string) (data : bytes)  (* res.sendFile *)
| Svg                                      (* the inline SVG placeholder *)
| Empty.

Inductive http_response :=
| Respond (status : Z) (headers : list (string * string)) (p : payload)
| Redirect (url : string).

Definition status_of (r : http_response) : Z :=
  match r with
  | Respond s _ _ => s
  | Redirect _ => 302
  end.

(** ** The AWS SDK, as the S3 adapter uses it *)

Inductive aws_command :=
| PutObjectCommand (key : string)
| GetObjectCommand (key : string)
| HeadObjectCommand (key : string)
| CreateMultipartUploadCommand (key : string)
| UploadPartCommand (key uploadId : string) (partNumber : JS.number)
| CompleteMultipartUploadCommand (key uploadId : string) (parts : list Part)
| PutBucketCorsCommand.

(** What reaches AWS: a signed URL or POST policy that was issued with its
    time to live in seconds, or a command that was carried out. *)
Inductive aws_event :=
| Signed (c : aws_command) (expiresIn : Z)
| SignedPost (key : string) (expiresIn : Z)
| Sent (c : aws_command).

Record AWS := {
  (* getSignedUrl(s3Client, command, { expiresIn }) *)
  getSignedUrl : aws_command -> Z -> result string;
  (* createPresignedPost: the url and fields.key of the policy *)
  createPresignedPost : string -> Z -> result (string * string);
  (* s3Client.send(command): the UploadId or the Body of the output *)
  send : aws_command -> result (option string * option bytes)
}.

(** A call into the adapter: what it made AWS do, and what it returned. *)
Definition call (A : Type) : Type := list aws_event * result A.

(** ** fs.createReadStream

    The stream constructor of Node validates its options when it is called:
    [start] and [end] must be integers from 0 to Number.MAX_SAFE_INTEGER,
    and [start] must not exceed [end]; otherwise it throws a RangeError
    (ERR_OUT_OF_RANGE) synchronously.  Reading stops at the end of the file,
    so offsets beyond the file give fewer bytes, not an error.

    A file has fewer than 2^53 bytes, so that an offset inside it is never
    refused for its size: [offsetLimit] is Number.MAX_SAFE_INTEGER for every
    content of at most 2^53 bytes, and says the same of a longer one. *)
Definition offsetLimit (content : bytes) : Z :=
  Z.max JS.MAX_SAFE_INTEGER (Z.of_nat (length content) - 1).

Definition createReadStream (content : bytes) (start end_ : JS.number)
  : option bytes :=
  match start, end_ with
  | JS.Num s, JS.Num e =>
      if (0 <=? s) && (0 <=? e) && (s <=? e) && (e <=? offsetLimit content)
      then Some (take (Z.to_nat (e - s + 1)) (drop (Z.to_nat s) content))
      else None
  | _, _ => None
  end.

(** ** server/deployment-config.ts *)

Module DeploymentConfig.
Definition maxFileSize : Z := 500 * 1024 * 1024.
Definition enforceFileSizeLimit : bool := true.
Definition disableMultipartUploads : bool := false.
Definition preferS3PresignedUrls : bool := false.
Definition isProduction (env : ProcessEnv) : bool :=
  negb (String.eqb (REPLIT_DEPLOYMENT env) "").
End DeploymentConfig.

(** ** The S3 adapter module, as routes.ts imports it *)

Module S3.
Record t := {
USE_S3 : bool;
s3Client : bool;                   (* whether the client object is not null *)
generatePresignedUploadUrl : string -> string -> option Z -> call (string * string);
initiateMultipartUpload : string -> string -> call (string * string);
getMultipartPresignedUrl : string -> string -> JS.number -> option Z -> call string;
completeMultipartUpload : string -> string -> list Part -> call string;
(* the file read at localFilePath, the key, the content type *)
uploadFileToS3 : option bytes -> string -> string -> call string;
(* the bytes written to localPath *)
downloadFileFromS3 : string -> call bytes;
getPresignedUrl : string -> option Z -> call string;
fileExistsInS3 : string -> call bool;
configureS3CorsForDirectUploads : call bool;
(* fileName, fileType, fileSize *)
getDirectBrowserUploadConfig : string -> string -> JS.number -> call body
}.
End S3.

Definition normalizeS3Key (path : string) : string :=
  match path with
  | String "/" rest => rest
  | _ => path
  end.

(** The repository also carries a stub of the adapter in which S3 is
    switched off.  It has no initiateMultipartUpload,
    getMultipartPresignedUrl, completeMultipartUpload,
    configureS3CorsForDirectUploads and getDirectBrowserUploadConfig, which
    routes.ts imports by name, so the routes cannot be linked with it; of
    the stub only the configuration check is kept here. *)
Module S3Stub.

Definition checkS3Configuration (env : ProcessEnv) : bool := false.

Definition USE_S3 (env : ProcessEnv) : bool := checkS3Configuration env.

End S3Stub.

(** The adapter that routes.ts is linked with: it talks to AWS when the
    four variables are set. *)
Module S3Enabled.

Definition checkS3Configuration (env : ProcessEnv) : bool :=
  negb (String.eqb (AWS_ACCESS_KEY_ID env) "")
  && negb (String.eqb (AWS_SECRET_ACCESS_KEY env) "")
  && negb (String.eqb (AWS_REGION env) "")
  && negb (String.eqb (AWS_S3_BUCKET env) "").

Section WithAWS.
Context (env : ProcessEnv) (aws : AWS) (randomUUID : nat -> string).

(** [!USE_S3 || !s3Client]: the client exists exactly when USE_S3 holds. *)
Definition configured : bool := checkS3Configuration env.

Definition not_configured {A} : call A :=
  ([], Throw "S3 integration is not properly configured").

Definition getS3Url (s3Key : string) : string :=
  if checkS3Configuration env
  then "https://" +:+ AWS_S3_BUCKET env +:+ ".s3." +:+ AWS_REGION env
       +:+ ".amazonaws.com/" +:+ normalizeS3Key s3Key
  else "".

Definition sign (c : aws_command) (expiresIn : Z) : call string :=
  match getSignedUrl aws c expiresIn with
  | Ok url => ([Signed c expiresIn], Ok url)
  | Throw m => ([], Throw m)
  end.

Definition uploadFileToS3 (file : option bytes) (s3Key contentType : string)
  : call string :=
  if negb configured then not_configured else
  match file with
  | None => ([], Throw "ENOENT")          (* fs.readFileSync *)
  | Some _ =>
      let normalizedKey := normalizeS3Key s3Key in
      match send aws (PutObjectCommand normalizedKey) with
      | Ok _ => ([Sent (PutObjectCommand normalizedKey)], Ok (getS3Url normalizedKey))
      | Throw m => ([], Throw m)
      end
  end.

Definition generatePresignedUploadUrl (key contentType : string)
    (expiresIn : option Z) : call (string * string) :=
  let expiresIn := default 3600 expiresIn in
  if negb configured then not_configured else
  let finalKey := if String.eqb key "" then "uploads/" +:+ randomUUID 0%nat else key in
  let normalizedKey := normalizeS3Key finalKey in
  match sign (PutObjectCommand normalizedKey) expiresIn with
  | (ev, Ok signedUrl) => (ev, Ok (signedUrl, normalizedKey))
  | (ev, Throw m) => (ev, Throw m)
  end.

(** [fileName.split('.').pop() || ''] *)
Definition fileExtension (fileName : string) : string :=
  default "" (last (JS.split "." fileName)).

Definition generatePresignedPost (fileName fileType : string)
    (expiresIn : Z) : call (string * string) :=
  if negb configured then not_configured else
  let key := "uploads/" +:+ randomUUID 1%nat +:+ "." +:+ fileExtension fileName in
  let normalizedKey := normalizeS3Key key in
  match createPresignedPost aws normalizedKey expiresIn with
  | Ok (url, fieldsKey) => ([SignedPost normalizedKey expiresIn], Ok (url, fieldsKey))
  | Throw m => ([], Throw m)
  end.

Definition initiateMultipartUpload (key contentType : string)
  : call (string * string) :=
  if negb configured then not_configured else
  let normalizedKey := normalizeS3Key key in
  match send aws (CreateMultipartUploadCommand normalizedKey) with
  | Ok (UploadId, _) =>
      ([Sent (CreateMultipartUploadCommand normalizedKey)],
       Ok (default "" UploadId, normalizedKey))
  | Throw m => ([], Throw m)
  end.

Definition getMultipartPresignedUrl (key uploadId : string)
    (partNumber : JS.number) (expiresIn : option Z) : call string :=
  let expiresIn := default 3600 expiresIn in
  if negb configured then not_configured else
  sign (UploadPartCommand (normalizeS3Key key) uploadId partNumber) expiresIn.

Definition completeMultipartUpload (key uploadId : string) (parts : list Part)
  : call string :=
  if negb configured then not_configured else
  let c := CompleteMultipartUploadCommand (normalizeS3Key key) uploadId parts in
  match send aws c with
  | Ok _ => ([Sent c], Ok (getS3Url (normalizeS3Key key)))
  | Throw m => ([], Throw m)
  end.

Definition getPresignedUrl (key : string) (expiresIn : option Z) : call string :=
  let expiresIn := default 86400 expiresIn in
  if negb configured then not_configured else
  sign (GetObjectCommand (normalizeS3Key key)) expiresIn.

Definition downloadFileFromS3 (s3Key : string) : call bytes :=
  if negb configured then not_configured else
  let c := GetObjectCommand (normalizeS3Key s3Key) in
  match send aws c with
  | Ok (_, Some data) => ([Sent c], Ok data)
  | Ok (_, None) => ([Sent c], Throw "Response body is not a readable stream")
  | Throw m => ([], Throw m)
  end.

Definition fileExistsInS3 (s3Key : string) : call bool :=
  if negb configured then ([], Ok false) else
  let c := HeadObjectCommand (normalizeS3Key s3Key) in
  match send aws c with
  | Ok _ => ([Sent c], Ok true)
  | Throw _ => ([], Ok false)
  end.

Definition configureS3CorsForDirectUploads : call bool :=
  if negb configured then ([], Ok false) else
  match send aws PutBucketCorsCommand with
  | Ok _ => ([Sent PutBucketCorsCommand], Ok true)
  | Throw _ => ([], Ok false)
  end.

(** The part URLs of the multipart branch; Promise.all rejects when one
    of them does. *)
Fixpoint partUrls (key uploadId : string) (expiresIn : Z) (partNumbers : list Z)
  : call unit :=
  match partNumbers with
  | [] => ([], Ok tt)
  | n :: rest =>
      match getMultipartPresignedUrl key uploadId (JS.Num n) (Some expiresIn) with
      | (ev, Ok _) =>
          let '(ev', r) := partUrls key uploadId expiresIn rest in (ev ++ ev', r)
      | (ev, Throw m) => (ev, Throw m)
      end
  end.

Definition getDirectBrowserUploadConfig (fileName fileType : string)
    (fileSize : JS.number) : call body :=
  if negb configured then not_configured else
  let usePresignedPost := JS.gt fileSize (JS.Num (150 * 1024 * 1024)) in
  let useMultipart :=
    negb usePresignedPost && JS.gt fileSize (JS.Num (50 * 1024 * 1024)) in
  let key := "uploads/" +:+ randomUUID 0%nat +:+ "." +:+ fileExtension fileName in
  let normalizedKey := normalizeS3Key key in
  let expiresIn :=
    if JS.gt fileSize (JS.Num (200 * 1024 * 1024)) then 24 * 3600 else 3600 in
  if usePresignedPost then
    match generatePresignedPost fileName fileType expiresIn with
    | (ev, Ok (url, fieldsKey)) =>
        (ev, Ok (JDirectConfig true (Some url) (Some fieldsKey) normalizedKey))
    | (ev, Throw m) => (ev, Throw m)
    end
  else if useMultipart then
    match initiateMultipartUpload normalizedKey fileType with
    | (ev, Ok (uploadId, _)) =>
        let size := match fileSize with JS.Num z => z | _ => 0 end in
        let maxPartSize :=
          if 100 * 1024 * 1024 <? size then 10 * 1024 * 1024 else 5 * 1024 * 1024 in
        let partCount := JS.ceil_div size maxPartSize in
        match partUrls normalizedKey uploadId expiresIn
                (seqZ 1 partCount) with
        | (ev', Ok _) => (ev ++ ev', Ok (JDirectConfig false None None normalizedKey))
        | (ev', Throw m) => (ev ++ ev', Throw m)
        end
    | (ev, Throw m) => (ev, Throw m)
    end
  else
    match generatePresignedUploadUrl normalizedKey fileType (Some expiresIn) with
    | (ev, Ok _) => (ev, Ok (JDirectConfig false None None normalizedKey))
    | (ev, Throw m) => (ev, Throw m)
    end.

Definition module : S3.t := {|
  S3.USE_S3 := checkS3Configuration env;
  S3.s3Client := checkS3Configuration env;
  S3.generatePresignedUploadUrl := generatePresignedUploadUrl;
  S3.initiateMultipartUpload := initiateMultipartUpload;
  S3.getMultipartPresignedUrl := getMultipartPresignedUrl;
  S3.completeMultipartUpload := completeMultipartUpload;
  S3.uploadFileToS3 := uploadFileToS3;
  S3.downloadFileFromS3 := downloadFileFromS3;
  S3.getPresignedUrl := getPresignedUrl;
  S3.fileExistsInS3 := fileExistsInS3;
  S3.configureS3CorsForDirectUploads := configureS3CorsForDirectUploads;
  S3.getDirectBrowserUploadConfig := getDirectBrowserUploadConfig
|}.

End WithAWS.

End S3Enabled.

(** ** What the server takes from its surroundings *)

Record Runtime := {
  (* crypto.randomUUID(): the identifiers a handler draws, in order *)
  randomUUID : nat -> string;
  (* generateThumbnail: the frame ffmpeg writes for a video file, if it can *)
  ffmpeg : option bytes -> option bytes;
  (* whether storage.createVideo succeeds *)
  databaseUp : bool;
  (* the text of a / b in a template literal, for a quotient that is not an
     integer below 10^21 *)
  quotientText : Z -> Z -> string;
  (* the image the thumbnail route decodes for default-thumbnail.jpg *)
  defaultThumbnailImage : bytes
}.

Record Server := { store : LocalStore; videos : list Video }.

(** What multer leaves for the handler of POST /api/videos. *)
Inductive multer_outcome :=
| MulterError (code message : string)     (* err.code and err.message, '' when undefined *)
| NoFile
| Stored (filename mimetype : string) (data : bytes).

Module Routes.

Definition uploadDir : string := "uploads/".
Definition thumbnailDir : string := "thumbnails/".

(** [path.basename] of a key with forward slashes. *)
Definition basename (p : string) : string :=
  default "" (last (filter (fun seg => seg <> "") (JS.split "/" p))).

Definition MAX_FILE_SIZE (env : ProcessEnv) : JS.number :=
  JS.parseIntAuto (if String.eqb (MAX_FILE_SIZE_var env) "" then "524288000"
                   else MAX_FILE_SIZE_var env).

(** The text of [MAX_FILE_SIZE / 1024 / 1024] in a template literal. *)
Definition maxSizeMB (env : ProcessEnv) (rt : Runtime) : string :=
  match MAX_FILE_SIZE env with
  | JS.Num z =>
      if (z mod (1024 * 1024) =? 0) && (Z.abs (z / (1024 * 1024)) <? 10 ^ 21)
      then JS.show (JS.Num (z / (1024 * 1024)))
      else quotientText rt z (1024 * 1024)
  | other => JS.show other
  end.

(** [insertVideoSchema.parse]: the title has to be a string and the
    duration an integer that the integer column holds, from -2^31 to
    2^31 - 1; the other fields the routes build always are as the schema
    wants them. *)
Definition insertVideoSchema_ok (title : option string) (duration : JS.number) : bool :=
  match title, duration with
  | Some _, JS.Num n => (-2147483648 <=? n) && (n <=? 2147483647)
  | _, _ => false
  end.

Definition json_error (status : Z) (error message : string) (fallback : bool)
  : http_response :=
  Respond status [] (Json (JError error message fallback)).

(** What [streamLocalVideoFile] does before it returns or throws. *)
Inductive stream_result :=
| Streamed (r : http_response)
| Threw.                          (* the exception of createReadStream *)

(** The offsets handed to createReadStream for a Range header. *)
Definition range_offsets (fileSize : Z) (range : string)
  : JS.number * JS.number :=
  let parts := JS.split "-" (JS.remove_first "bytes=" range) in
  let start := JS.parseInt (default "" (parts !! 0%nat)) in
  let end_ :=
    if JS.truthy (parts !! 1%nat)
    then JS.parseInt (default "" (parts !! 1%nat))
    else JS.Num (fileSize - 1) in
  (start, end_).

Definition streamLocalVideoFile (content : bytes) (range : option string)
  : stream_result :=
  let fileSize := Z.of_nat (length content) in
  if JS.truthy range then
    let '(start, end_) := range_offsets fileSize (default "" range) in
    let chunkSize := JS.add (JS.sub end_ start) (JS.Num 1) in
    match createReadStream content start end_ with
    | None => Threw
    | Some file =>
        Streamed (Respond 206
          [("Content-Range",
             "bytes " +:+ JS.show start +:+ "-" +:+ JS.show end_ +:+ "/"
              +:+ JS.show (JS.Num fileSize));
           ("Accept-Ranges", "bytes");
           ("Content-Length", JS.show chunkSize);
           ("Content-Type", "video/mp4")]
          (Stream file))
    end
  else
    Streamed (Respond 200
      [("Content-Length", JS.show (JS.Num fileSize));
       ("Content-Type", "video/mp4")]
      (Stream content)).


Section Handlers.
Context (env : ProcessEnv) (s3 : S3.t) (rt : Runtime).

(** [storage.createVideo] *)
Definition createVideo (srv : Server) (filePath thumbnailPath : string)
  : result (Server * Video) :=
  if databaseUp rt then
    let v := {| videoId := Z.of_nat (length (videos srv)) + 1;
                filePath := filePath; thumbnailPath := thumbnailPath |} in
    Ok ({| store := store srv; videos := videos srv ++ [v] |}, v)
  else Throw "createVideo".

(** GET /api/upload-url *)
Definition upload_url (fileType fileName : string) : list aws_event * http_response :=
  if negb (S3.USE_S3 s3) then
    ([], json_error 400 "S3 not configured"
           "S3 integration is disabled. Please use the standard upload endpoint." true)
  else if String.eqb fileType "" || String.eqb fileName "" then
    ([], json_error 400 "Missing parameters"
           "fileType and fileName query parameters are required" false)
  else
    let fileKey := "uploads/" +:+ randomUUID rt 0%nat +:+ "-" +:+ fileName in
    match S3.generatePresignedUploadUrl s3 fileKey fileType None with
    | (ev, Ok (uploadUrl, key)) => (ev, Respond 200 [] (Json (JUploadUrl uploadUrl key)))
    | (ev, Throw _) =>
        (ev, json_error 500 "Failed to generate upload URL"
               "There was an error generating the upload URL. Please try again." false)
    end.

(** POST /api/multipart-upload/init; [fileSize] is the number of that name
    in the body, an integer below 2^53. *)
Definition multipart_init (fileName fileType : string) (fileSize : option Z)
  : list aws_event * http_response :=
  if DeploymentConfig.isProduction env && DeploymentConfig.disableMultipartUploads then
    ([], json_error 400 "Multipart uploads disabled in deployment"
           "For security and reliability reasons, multipart uploads are disabled in the deployed version. Please use the standard upload endpoint or upload smaller files." true)
  else if negb (S3.USE_S3 s3) then
    ([], json_error 400 "S3 not configured"
           "S3 integration is disabled. Please use the standard upload endpoint." false)
  else if String.eqb fileName "" || String.eqb fileType "" then
    ([], json_error 400 "Missing parameters" "fileName and fileType are required" false)
  else if match fileSize with
          | Some n => negb (n =? 0) && JS.gt (JS.Num n) (MAX_FILE_SIZE env)
          | None => false
          end then
    ([], json_error 413 "File too large"
           ("Maximum file size is " +:+ maxSizeMB env rt +:+ "MB") false)
  else
    let fileKey := "uploads/" +:+ randomUUID rt 0%nat +:+ "-" +:+ fileName in
    match S3.initiateMultipartUpload s3 fileKey fileType with
    | (ev, Ok (uploadId, key)) => (ev, Respond 200 [] (Json (JInit uploadId key)))
    | (ev, Throw _) =>
        (ev, json_error 500 "Failed to initiate upload"
               "There was an error initiating the multipart upload. Please try again." false)
    end.

(** The expiry the part-url route asks for: three hours. *)
Definition partUrlExpiryTime : Z := 60 * 60 * 3.

(** GET /api/multipart-upload/part-url *)
Definition multipart_part_url (key uploadId partNumber : string)
  : list aws_event * http_response :=
  if negb (S3.USE_S3 s3) then
    ([], json_error 400 "S3 not configured"
           "S3 integration is disabled. Please use the standard upload endpoint." false)
  else if String.eqb key "" || String.eqb uploadId "" || String.eqb partNumber "" then
    ([], json_error 400 "Missing parameters"
           "key, uploadId, and partNumber query parameters are required" false)
  else
    let partNum := JS.parseIntAuto partNumber in
    let expiryTime := partUrlExpiryTime in
    match S3.getMultipartPresignedUrl s3 key uploadId partNum (Some expiryTime) with
    | (ev, Ok partUrl) => (ev, Respond 200 [] (Json (JPartUrl partUrl)))
    | (ev, Throw _) =>
        (ev, json_error 500 "Failed to generate part URL"
               "There was an error generating the part upload URL. Please try again." false)
    end.

(** POST /api/multipart-upload/complete; [parts] is [None] when the body
    has no parts array. *)
Definition multipart_complete (key uploadId : string) (parts : option (list Part))
  : list aws_event * http_response :=
  if negb (S3.USE_S3 s3) then
    ([], json_error 400 "S3 not configured"
           "S3 integration is disabled. Please use the standard upload endpoint." false)
  else
    match parts with
    | Some ps =>
        if String.eqb key "" || String.eqb uploadId "" then
          ([], json_error 400 "Missing parameters"
                 "key, uploadId, and parts array are required" false)
        else
          match S3.completeMultipartUpload s3 key uploadId ps with
          | (ev, Ok fileUrl) => (ev, Respond 200 [] (Json (JComplete fileUrl key)))
          | (ev, Throw _) =>
              (ev, json_error 500 "Failed to complete upload"
                     "There was an error completing the multipart upload. Please try again." false)
          end
    | None =>
        ([], json_error 400 "Missing parameters"
               "key, uploadId, and parts array are required" false)
    end.

(** POST /api/direct-upload/config *)
Definition direct_upload_config (fileName fileType : string) (fileSize : option Z)
  : list aws_event * http_response :=
  if negb (S3.USE_S3 s3) then
    ([], json_error 400 "S3 not configured"
           "S3 integration is disabled. Use the standard file upload endpoint." true)
  else
    let '(ev0, _) := S3.configureS3CorsForDirectUploads s3 in
    match fileSize with
    | Some n =>
        if String.eqb fileName "" || String.eqb fileType "" || (n =? 0) then
          (ev0, json_error 400 "Missing parameters"
                  "Missing required parameters. Please provide fileName, fileType, and fileSize." false)
        else
          match S3.getDirectBrowserUploadConfig s3 fileName fileType (JS.Num n) with
          | (ev, Ok uploadConfig) => (ev0 ++ ev, Respond 200 [] (Json uploadConfig))
          | (ev, Throw m) =>
              (ev0 ++ ev, json_error 500 "Failed to generate upload configuration" m false)
          end
    | None =>
        (ev0, json_error 400 "Missing parameters"
                "Missing required parameters. Please provide fileName, fileType, and fileSize." false)
    end.

(** POST /api/direct-upload/complete *)
Definition direct_upload_complete (key uploadId : string) (parts : option (list Part))
  : list aws_event * http_response :=
  if negb (S3.USE_S3 s3) then
    ([], json_error 400 "S3 not configured" "S3 integration is disabled." false)
  else
    match parts with
    | Some ps =>
        if String.eqb key "" || String.eqb uploadId "" then
          ([], json_error 400 "Missing parameters"
                 "Missing required parameters. Please provide key, uploadId, and parts array." false)
        else
          match S3.completeMultipartUpload s3 key uploadId ps with
          | (ev, Ok fileUrl) => (ev, Respond 200 [] (Json (JComplete fileUrl key)))
          | (ev, Throw m) => (ev, json_error 500 "Failed to complete upload" m false)
          end
    | None =>
        ([], json_error 400 "Missing parameters"
               "Missing required parameters. Please provide key, uploadId, and parts array." false)
    end.

Definition write_temp (srv : Server) (name : string) (data : bytes) : Server :=
  {| store := {| uploads := uploads (store srv);
                 thumbnails := thumbnails (store srv);
                 tempVideos := <[name := data]> (tempVideos (store srv)) |};
     videos := videos srv |}.

Definition unlink_temp (srv : Server) (name : string) : Server :=
  {| store := {| uploads := uploads (store srv);
                 thumbnails := thumbnails (store srv);
                 tempVideos := delete name (tempVideos (store srv)) |};
     videos := videos srv |}.

Definition write_upload (srv : Server) (name : string) (data : bytes) : Server :=
  {| store := {| uploads := <[name := data]> (uploads (store srv));
                 thumbnails := thumbnails (store srv);
                 tempVideos := tempVideos (store srv) |};
     videos := videos srv |}.

Definition unlink_upload (srv : Server) (name : string) : Server :=
  {| store := {| uploads := delete name (uploads (store srv));
                 thumbnails := thumbnails (store srv);
                 tempVideos := tempVideos (store srv) |};
     videos := videos srv |}.

Definition write_thumbnail (srv : Server) (name : string) (data : bytes) : Server :=
  {| store := {| uploads := uploads (store srv);
                 thumbnails := <[name := data]> (thumbnails (store srv));
                 tempVideos := tempVideos (store srv) |};
     videos := videos srv |}.

(** [generateThumbnail(videoPath, thumbnailPath)]: ffmpeg reads the video
    and, when it succeeds, has written the frame. *)
Definition generateThumbnail (srv : Server) (video : option bytes)
    (thumbnailName : string) : Server * bool :=
  match ffmpeg rt video with
  | Some frame => (write_thumbnail srv thumbnailName frame, true)
  | None => (srv, false)
  end.

(** POST /api/direct-upload/register *)
Definition direct_upload_register (srv : Server) (key title : string)
  : Server * list aws_event * http_response :=
  if negb (S3.USE_S3 s3) then
    (srv, [], json_error 400 "S3 not configured" "S3 integration is disabled." false)
  else if String.eqb key "" || String.eqb title "" then
    (srv, [], json_error 400 "Missing parameters"
                "Missing required parameters. Please provide key and title at minimum." false)
  else
    let localVideo := basename key in
    match S3.downloadFileFromS3 s3 key with
    | (ev1, Throw m) => (srv, ev1, json_error 500 "Failed to register upload" m false)
    | (ev1, Ok data) =>
        let srv1 := write_temp srv localVideo data in
        let thumbnailName := "thumbnail-" +:+ randomUUID rt 0%nat +:+ ".jpg" in
        let '(srv2, thumbnailSuccess) := generateThumbnail srv1 (Some data) thumbnailName in
        let '(ev2, uploaded) :=
          if thumbnailSuccess
          then S3.uploadFileToS3 s3 (thumbnails (store srv2) !! thumbnailName)
                 ("thumbnails/" +:+ thumbnailName) "image/jpeg"
          else ([], Ok "") in
        match uploaded with
        | Throw m => (srv2, ev1 ++ ev2, json_error 500 "Failed to register upload" m false)
        | Ok thumbnailUrl =>
            let srv3 := unlink_temp srv2 localVideo in
            match createVideo srv3 key thumbnailUrl with
            | Ok (srv4, video) => (srv4, ev1 ++ ev2, Respond 200 [] (Json (JVideo video)))
            | Throw m =>
                (srv3, ev1 ++ ev2, json_error 500 "Failed to register upload" m false)
            end
        end
    end.

(** POST /api/videos/s3 *)
Definition videos_s3 (srv : Server) (key : string) (title duration : option string)
  : Server * list aws_event * http_response :=
  let failed :=
    json_error 500 "Failed to process upload"
      "There was an error processing the uploaded video. Please try again." false in
  if negb (S3.USE_S3 s3) then
    (srv, [], json_error 400 "S3 not configured"
                "S3 integration is disabled. Please use the standard upload endpoint." true)
  else if String.eqb key "" then
    (srv, [], json_error 400 "Missing key" "S3 object key is required" false)
  else
    let tempFile := "temp-" +:+ randomUUID rt 0%nat +:+ ".mp4" in
    let thumbnailFilename := "thumbnail-" +:+ randomUUID rt 1%nat +:+ ".jpg" in
    match S3.downloadFileFromS3 s3 key with
    | (ev1, Throw _) => (unlink_upload srv tempFile, ev1, failed)
    | (ev1, Ok data) =>
        let srv1 := write_upload srv tempFile data in
        let '(srv2, thumbnailSuccess) :=
          generateThumbnail srv1 (Some data) thumbnailFilename in
        let '(ev2, uploaded) :=
          if thumbnailSuccess
          then S3.uploadFileToS3 s3 (thumbnails (store srv2) !! thumbnailFilename)
                 ("thumbnails/" +:+ thumbnailFilename) "image/jpeg"
          else ([], Ok "") in
        match uploaded with
        | Throw _ => (unlink_upload srv2 tempFile, ev1 ++ ev2, failed)
        | Ok thumbnailPath =>
            let srv3 := unlink_upload srv2 tempFile in
            let title' :=
              if JS.truthy title then title else Some (basename key) in
            let duration' :=
              if JS.truthy duration then JS.parseIntAuto (default "" duration)
              else JS.Num 0 in
            if insertVideoSchema_ok title' duration' then
              match createVideo srv3 key
                      (if String.eqb thumbnailPath "" then thumbnailFilename
                       else thumbnailPath) with
              | Ok (srv4, video) =>
                  (srv4, ev1 ++ ev2, Respond 201 [] (Json (JVideo video)))
              | Throw _ => (srv3, ev1 ++ ev2, failed)
              end
            else
              (srv3, ev1 ++ ev2, Respond 400 [] (Json (JMessage "Validation error")))
        end
    end.

(** [processVideoUpload], after multer has stored the file (or not).
    [file] is req.file: the stored name and the content type. *)
Definition processVideoUpload (srv : Server) (file : option (string * string))
    (title duration : option string)
  : Server * list aws_event * http_response :=
  match file with
  | None =>
      (srv, [], Respond 400 [] (Json (JError "Missing file attachment"
                                        "No video file uploaded" false)))
  | Some (filename, mimetype) =>
      let thumbnailFilename := "thumbnail-" +:+ randomUUID rt 0%nat +:+ ".jpg" in
      let '(srv1, thumbnailSuccess) :=
        generateThumbnail srv (uploads (store srv) !! filename) thumbnailFilename in
      (* Default to local paths *)
      let videoPath := filename in
      let thumbnailPath := thumbnailFilename in
      let '(ev, videoPath, thumbnailPath) :=
        if S3.USE_S3 s3 then
          let videoKey := "uploads/" +:+ filename in
          match S3.uploadFileToS3 s3 (uploads (store srv1) !! filename)
                  videoKey mimetype with
          | (ev1, Throw _) => (ev1, videoPath, thumbnailPath)
          | (ev1, Ok _) =>
              if thumbnailSuccess then
                let thumbnailKey := "thumbnails/" +:+ thumbnailFilename in
                match S3.uploadFileToS3 s3
                        (thumbnails (store srv1) !! thumbnailFilename)
                        thumbnailKey "image/jpeg" with
                | (ev2, Throw _) => (ev1 ++ ev2, videoKey, thumbnailPath)
                | (ev2, Ok _) => (ev1 ++ ev2, videoKey, thumbnailKey)
                end
              else (ev1, videoKey, thumbnailPath)
          end
        else ([], videoPath, thumbnailPath) in
      let duration' :=
        JS.parseIntAuto (if JS.truthy duration then default "" duration else "0") in
      if insertVideoSchema_ok title duration' then
        match createVideo srv1 videoPath thumbnailPath with
        | Ok (srv2, video) => (srv2, ev, Respond 201 [] (Json (JVideo video)))
        | Throw _ =>
            (srv1, ev, Respond 500 [] (Json (JMessage "Failed to upload video")))
        end
      else (srv1, ev, Respond 400 [] (Json (JMessage "Validation error")))
  end.

(** [uploadErrorHandler]; of the JSON of an answer the fields error and
    message are kept. *)
Definition uploadErrorHandler (code message : string) : http_response :=
  if String.eqb code "LIMIT_FILE_SIZE" then
    Respond 413 []
      (Json (JError ("Maximum file size is " +:+ maxSizeMB env rt +:+ "MB")
               "File is too large" false))
  else if String.eqb code "LIMIT_UNEXPECTED_FILE" then
    Respond 400 []
      (Json (JError "The form contains an invalid field"
               "Unexpected field in upload request" false))
  else
    Respond 500 []
      (Json (JError (if String.eqb message "" then "Unknown upload error" else message)
               "File upload failed" false)).

(** POST /api/videos: multer's disk storage writes the file into the
    upload directory, then the upload is processed. *)
Definition post_videos (srv : Server) (m : multer_outcome)
    (title duration : option string)
  : Server * list aws_event * http_response :=
  match m with
  | MulterError code message => (srv, [], uploadErrorHandler code message)
  | NoFile => processVideoUpload srv None title duration
  | Stored filename mimetype data =>
      processVideoUpload (write_upload srv filename data)
        (Some (filename, mimetype)) title duration
  end.

(** The expiry the video route asks for. *)
Definition videoUrlExpiry : Z := 3600.

(** GET /videos/:filename *)
Definition get_video (srv : Server) (filename : string) (range : option string)
  : list aws_event * http_response :=
  match uploads (store srv) !! filename with
  | Some content =>
      match streamLocalVideoFile content range with
      | Streamed r => ([], r)
      | Threw => ([], Respond 500 [] (Text "Error processing video request"))
      end
  | None =>
      let notFound := Respond 404 [] (Text "Video not found") in
      if S3.USE_S3 s3 then
        let s3Key := "uploads/" +:+ filename in
        match S3.fileExistsInS3 s3 s3Key with
        | (ev1, Ok true) =>
            match S3.getPresignedUrl s3 s3Key (Some videoUrlExpiry) with
            | (ev2, Ok presignedUrl) => (ev1 ++ ev2, Redirect presignedUrl)
            | (ev2, Throw _) => (ev1 ++ ev2, notFound)
            end
        | (ev1, _) => (ev1, notFound)
        end
      else ([], notFound)
  end.

Definition defaultThumbnail : string := "default-thumbnail.jpg".

(** The expiry the thumbnail route asks for: seven days. *)
Definition thumbnailUrlExpiry : Z := 7 * 24 * 3600.

(** GET /thumbnails/api/:filename *)
Definition get_thumbnail (srv : Server) (filename : string)
  : Server * list aws_event * http_response :=
  let sendFile name data := Respond 200 [] (SendFile (thumbnailDir +:+ name) data) in
  let dir := thumbnails (store srv) in
  if String.eqb filename defaultThumbnail then
    match dir !! defaultThumbnail with
    | Some data => (srv, [], sendFile defaultThumbnail data)
    | None =>
        (* the image is created on the fly and then served *)
        let buffer := defaultThumbnailImage rt in
        (write_thumbnail srv defaultThumbnail buffer, [],
         sendFile defaultThumbnail buffer)
    end
  else
    match dir !! filename with
    | Some data => (srv, [], sendFile filename data)
    | None =>
        let fallback :=
          match dir !! defaultThumbnail with
          | Some data => sendFile defaultThumbnail data
          | None => Respond 200 [("Content-Type", "image/svg+xml")] Svg
          end in
        if S3.USE_S3 s3 && S3.s3Client s3 then
          let s3Key :=
            if JS.startsWith "thumbnails/" filename then filename
            else "thumbnails/" +:+ filename in
          match S3.fileExistsInS3 s3 s3Key with
          | (ev1, Ok true) =>
              match S3.getPresignedUrl s3 s3Key (Some thumbnailUrlExpiry) with
              | (ev2, Ok presignedUrl) => (srv, ev1 ++ ev2, Redirect presignedUrl)
              | (ev2, Throw _) => (srv, ev1 ++ ev2, fallback)
              end
          | (ev1, _) => (srv, ev1, fallback)
          end
        else (srv, [], fallback)
    end.

End Handlers.

End Routes.

(** ** The upload modal of the browser client *)

Record File := { name : string; type : string; size : Z }.

(** The requests the modal sends, with the fields the routes read. *)
Inductive request :=
| GetUploadUrl (fileType fileName : string)        (* GET /api/upload-url *)
| PutToS3 (url : string) (length : Z)              (* PUT of the whole file *)
| PostVideosS3 (key title : string)                (* POST /api/videos/s3 *)
| PostMultipartInit (fileName fileType : string) (fileSize : Z)
| GetPartUrl (key uploadId : string) (partNumber : Z)
| PutPartToS3 (url : string) (start end_ : Z)      (* PUT of file.slice(start, end) *)
| PostMultipartComplete (key uploadId : string) (parts : list Part)
| PostDirectConfig (fileName fileType : string) (fileSize : Z)
| PostFormToS3 (url : string) (length : Z)         (* POST of the presigned form *)
| PostDirectRegister (key title : string)
| PostVideos (file : File) (title : string).       (* XHR POST /api/videos *)

Record response := { status : Z; ETagHeader : option string; json : option body }.

Inductive reply :=
| NetworkFailure                  (* fetch rejects, or the request is aborted *)
| Response (r : response).

Definition ok (r : response) : bool := (200 <=? status r) && (status r <? 300).

Inductive error :=
| MissingTitleOrFile
| FileTooLarge (maxSizeMB : Z)
| S3NotAvailable
| ServerMessage (message : option string)
| FetchFailed
| NotJson
| TypeError
| UploadToS3Failed (status : Z)
| InitFailed
| TooManyParts (numParts : Z)
| PartUrlFailed (partNumber : Z)
| PartUploadFailed (partNumber status : Z)
| NoETag (partNumber : Z)
| PartsFailed (failedParts numParts : Z)
| UploadIncomplete (missing numParts : Z)
| CompleteFailed
| MissingPresignedPost
| S3PostFailed (status : Z)
| RelayFailed (message : option string)
| RelayNetworkError
| RelayInvalidResponse
| OutOfFuel.

Inductive outcome (A : Type) : Type :=
| Done (a : A)
| Thrown (e : error).
Arguments Done {A} a.
Arguments Thrown {A} e.

Inductive event :=
| Fetch (r : request)
| Aws (e : aws_event)             (* what the request made the server ask of AWS *)
| Toast (title : string) (destructive : bool)
| SetErrorMessage (e : error)
| ConsoleErrorMissingParts (missingParts : list Z)
| Sleep (ms : Z).

Definition message_of (b : option body) : option string :=
  match b with
  | Some (JError _ m _) => Some m
  | Some (JMessage m) => Some m
  | _ => None
  end.

Definition fallbackAvailable_of (b : option body) : bool :=
  match b with
  | Some (JError _ _ f) => f
  | _ => false
  end.

Module ClientConfig.
Definition maxFileSize : Z := 500 * 1024 * 1024.
Definition devMaxFileSize : Z := 500 * 1024 * 1024.
End ClientConfig.

Module UploadModal.

Definition isVideo (file : File) : bool :=
  let fileName := JS.toLowerCase (name file) in
  JS.startsWith "video/" (type file)
  || JS.endsWith fileName ".mp4" || JS.endsWith fileName ".mov"
  || JS.endsWith fileName ".webm" || JS.endsWith fileName ".ogg"
  || JS.endsWith fileName ".avi" || JS.endsWith fileName ".mkv"
  || JS.endsWith fileName ".flv".

(** [handleFileChange]: the file that becomes selectedFile, if any. *)
Definition handleFileChange (isProduction : bool) (file : File) : option File :=
  if negb (isVideo file) then None
  else
    let maxFileSize :=
      if isProduction then ClientConfig.maxFileSize else ClientConfig.devMaxFileSize in
    if maxFileSize <? size file then None else Some file.

(** The onDrop handler of the drop zone. *)
Definition onDrop (file : File) : option File :=
  if negb (isVideo file) then None
  else if ClientConfig.maxFileSize <? size file then None else Some file.

Definition MEDIUM_FILE_THRESHOLD : Z := 50 * 1024 * 1024.
Definition LARGE_FILE_THRESHOLD : Z := 150 * 1024 * 1024.
Definition VERY_LARGE_FILE_THRESHOLD : Z := 400 * 1024 * 1024.
Definition MULTIPART_THRESHOLD : Z := 100 * 1024 * 1024.
Definition MAX_RETRIES : Z := 3.

(** Step 2 of the multipart branch: the part size. *)
Definition partSizeFor (fileSize : Z) : Z :=
  let basePartSize := 5 * 1024 * 1024 in
  if 500 * 1024 * 1024 <? fileSize then 25 * 1024 * 1024
  else if 100 * 1024 * 1024 <? fileSize then 10 * 1024 * 1024
  else basePartSize.

Definition numPartsFor (fileSize : Z) : Z :=
  JS.ceil_div fileSize (partSizeFor fileSize).

Definition batchSizeFor (fileSize : Z) : nat :=
  let partSize := partSizeFor fileSize in
  if 25 * 1024 * 1024 <=? partSize then 2%nat
  else if (partSize <=? 5 * 1024 * 1024) && (fileSize <? 200 * 1024 * 1024) then 4%nat
  else 3%nat.

(** The part numbers in 1..numParts that are not among the uploaded ones. *)
Definition missingParts (parts : list Part) (numParts : Z) : list Z :=
  filter (fun i => negb (existsb (Z.eqb i) (map PartNumber parts)))
         (seqZ 1 numParts).

Section Client.
(** The rest of the world: the server and the object store.  A request
    moves it to a new state and is answered; the answer comes with what
    the server asked of AWS on the way. *)
Context {W : Type} (step : W -> request -> W * list aws_event * reply).

Record State := {
  world : W;
  trace : list event;
  parts : list Part;               (* of the upload in progress *)
  failedParts : Z
}.

Definition M (A : Type) : Type := State -> State * outcome A.

Definition ret {A} (a : A) : M A := fun st => (st, Done a).
Definition throw {A} (e : error) : M A := fun st => (st, Thrown e).
Definition bind {A B} (m : M A) (k : A -> M B) : M B :=
  fun st =>
    match m st with
    | (st1, Done a) => k a st1
    | (st1, Thrown e) => (st1, Thrown e)
    end.
Definition try_catch {A} (m : M A) (handler : error -> M A) : M A :=
  fun st =>
    match m st with
    | (st1, Done a) => (st1, Done a)
    | (st1, Thrown e) => handler e st1
    end.

Definition emit (e : event) : M unit :=
  fun st => ({| world := world st; trace := trace st ++ [e];
                parts := parts st; failedParts := failedParts st |}, Done tt).

Definition fetch (r : request) : M reply :=
  fun st =>
    let '(w', log, rep) := step (world st) r in
    ({| world := w'; trace := trace st ++ Fetch r :: map Aws log;
        parts := parts st; failedParts := failedParts st |}, Done rep).

(** [await fetch(...)], which rejects on a network failure. *)
Definition fetch_response (r : request) : M response :=
  bind (fetch r) (fun rep =>
    match rep with
    | NetworkFailure => throw FetchFailed
    | Response res => ret res
    end).

(** [await response.json()], which rejects when the body is not JSON. *)
Definition json_of (res : response) : M body :=
  match json res with
  | Some b => ret b
  | None => throw NotJson
  end.

Notation "x <- m ;; k" := (bind m (fun x => k))
  (at level 100, m at next level, right associativity).

Definition set_upload (ps : list Part) (failed : Z) : M unit :=
  fun st => ({| world := world st; trace := trace st;
                parts := ps; failedParts := failed |}, Done tt).

Definition push_part (p : Part) : M unit :=
  fun st => ({| world := world st; trace := trace st;
                parts := parts st ++ [p]; failedParts := failedParts st |}, Done tt).

Definition count_failed_part : M unit :=
  fun st => ({| world := world st; trace := trace st;
                parts := parts st; failedParts := failedParts st + 1 |}, Done tt).

Definition get_parts : M (list Part) := fun st => (st, Done (parts st)).
Definition get_failedParts : M Z := fun st => (st, Done (failedParts st)).

(** What the upload resolves to. *)
Inductive upload_result :=
| S3Result (videoId : option Z) (s3Key : string)
| RelayResult (b : body).

(** Registration of an object that is in S3, the last step of both
    branches of uploadDirectlyToS3. *)
Definition registerS3Video (key title : string) : M upload_result :=
  registerResponse <- fetch_response (PostVideosS3 key title) ;;
  if negb (ok registerResponse) then
    errorData <- json_of registerResponse ;;
    throw (ServerMessage (message_of (Some errorData)))
  else
    video <- json_of registerResponse ;;
    ret (S3Result (match video with JVideo v => Some (videoId v) | _ => None end) key).

(** The branch of uploadDirectlyToS3 for files up to 100 MiB. *)
Definition uploadSinglePut (file : File) (title : string) : M upload_result :=
  presignedRes <- fetch_response (GetUploadUrl (type file) (name file)) ;;
  if negb (ok presignedRes) then
    errorData <- json_of presignedRes ;;
    if fallbackAvailable_of (Some errorData) then throw S3NotAvailable
    else throw (ServerMessage (message_of (Some errorData)))
  else
    b <- json_of presignedRes ;;
    let '(uploadUrl, key) :=
      match b with
      | JUploadUrl u k => (u, k)
      | _ => ("undefined", "undefined")
      end in
    uploadResponse <- fetch_response (PutToS3 uploadUrl (size file)) ;;
    if negb (ok uploadResponse) then throw (UploadToS3Failed (status uploadResponse))
    else registerS3Video key title.

Section Multipart.
Context (file : File) (key uploadId : string).

Let partSize := partSizeFor (size file).
Let numParts := numPartsFor (size file).

(** The body of the try block of uploadSinglePart. *)
Definition uploadPartAttempt (partNumber : Z) : M unit :=
  let start := (partNumber - 1) * partSize in
  let end_ := Z.min (start + partSize) (size file) in
  partUrlRes <- fetch_response (GetPartUrl key uploadId partNumber) ;;
  if negb (ok partUrlRes) then throw (PartUrlFailed partNumber)
  else
    b <- json_of partUrlRes ;;
    let partUrl := match b with JPartUrl u => u | _ => "undefined" end in
    response <- fetch_response (PutPartToS3 partUrl start end_) ;;
    if negb (ok response) then throw (PartUploadFailed partNumber (status response))
    else if JS.truthy (ETagHeader response) then
      push_part {| PartNumber := partNumber;
                   ETag := JS.remove_all (ascii_of_nat 34)
                             (default "" (ETagHeader response)) |}
    else throw (NoETag partNumber).

(** The retry loop of uploadSinglePart, with [retriesLeft] standing for
    MAX_RETRIES - retryCount. *)
Fixpoint uploadSinglePartFrom (retriesLeft : nat) (partNumber : Z) : M unit :=
  try_catch (uploadPartAttempt partNumber)
    (fun error =>
       match retriesLeft with
       | S retriesLeft' =>
           let retryCount := MAX_RETRIES - Z.of_nat retriesLeft' in
           _ <- emit (Sleep (2 ^ (retryCount - 1) * 1000)) ;;
           uploadSinglePartFrom retriesLeft' partNumber
       | O =>
           _ <- count_failed_part ;;
           throw error
       end).

Definition uploadSinglePart (partNumber : Z) : M unit :=
  uploadSinglePartFrom (Z.to_nat MAX_RETRIES) partNumber.

(** One batch: the parts currentPart + i for i below BATCH_SIZE that exist
    are all started, in the order of their numbers, and Promise.all rejects
    with the first failure once they have run. *)
Fixpoint uploadBatch (slots : nat) (partNumber : Z) : M unit :=
  match slots with
  | O => ret tt
  | S slots' =>
      if partNumber <=? numParts then
        fun st =>
          let '(st1, r) := uploadSinglePart partNumber st in
          let '(st2, r') := uploadBatch slots' (partNumber + 1) st1 in
          (st2, match r with
                | Thrown e => Thrown e
                | Done _ => r'
                end)
      else ret tt
  end.

(** The while loop over the batches. *)
Fixpoint uploadBatches (fuel : nat) (currentPart : Z) : M unit :=
  if currentPart <=? numParts then
    match fuel with
    | O => throw OutOfFuel
    | S fuel' =>
        _ <- uploadBatch (batchSizeFor (size file)) currentPart ;;
        uploadBatches fuel' (currentPart + Z.of_nat (batchSizeFor (size file)))
    end
  else ret tt.

(** The check that all parts were uploaded, before the upload is completed. *)
Definition verifyParts : M unit :=
  ps <- get_parts ;;
  if negb (Z.of_nat (length ps) =? numParts) then
    _ <- emit (ConsoleErrorMissingParts (missingParts ps numParts)) ;;
    throw (UploadIncomplete (numParts - Z.of_nat (length ps)) numParts)
  else ret tt.

(** Step 4: the request that completes the upload. *)
Definition completeUpload : M unit :=
  ps <- get_parts ;;
  try_catch
    (completeResponse <- fetch_response (PostMultipartComplete key uploadId ps) ;;
     if negb (ok completeResponse) then throw CompleteFailed
     else
       _ <- json_of completeResponse ;;
       ret tt)
    (fun error =>
       _ <- emit (Toast "Upload Error" true) ;;
       throw error).

(** Steps 4 and 5: the check, the completion and the registration. *)
Definition finishUpload (title : string) : M upload_result :=
  _ <- verifyParts ;;
  _ <- completeUpload ;;
  registerS3Video key title.

(** Steps 2 to 5 of the multipart branch, once the upload is initialised. *)
Definition uploadParts (title : string) : M upload_result :=
  if 10000 <? numParts then throw (TooManyParts numParts)
  else
    _ <- set_upload [] 0 ;;
    _ <- uploadBatches (Z.to_nat numParts) 1 ;;
    failed <- get_failedParts ;;
    if 0 <? failed then throw (PartsFailed failed numParts)
    else finishUpload title.

End Multipart.

(** The branch of uploadDirectlyToS3 for files above 100 MiB. *)
Definition uploadMultipart (file : File) (title : string) : M upload_result :=
  initResponse <- fetch_response (PostMultipartInit (name file) (type file) (size file)) ;;
  if negb (ok initResponse) then
    errorData <- json_of initResponse ;;
    match message_of (Some errorData) with
    | Some message =>
        if negb (String.eqb message "")
           && JS.includes "S3 integration is disabled" message
        then throw S3NotAvailable
        else throw InitFailed
    | None => throw InitFailed
    end
  else
    b <- json_of initResponse ;;
    let '(uploadId, key) :=
      match b with
      | JInit u k => (u, k)
      | _ => ("undefined", "undefined")
      end in
    uploadParts file key uploadId title.

Definition uploadDirectlyToS3 (file : File) (title : string) : M upload_result :=
  let isMultipartUpload := MULTIPART_THRESHOLD <? size file in
  if negb isMultipartUpload then uploadSinglePut file title
  else uploadMultipart file title.

Definition trueBrowserDirectUpload (file : File) (title : string) : M upload_result :=
  configRes <- fetch_response (PostDirectConfig (name file) (type file) (size file)) ;;
  if negb (ok configRes) then
    errorData <- json_of configRes ;;
    throw (ServerMessage (message_of (Some errorData)))
  else
    config <- json_of configRes ;;
    match config with
    | JDirectConfig usePresignedPost (Some url) (Some fieldsKey) _ =>
        if usePresignedPost && negb (String.eqb url "") then
          s3Response <- fetch_response (PostFormToS3 url (size file)) ;;
          if negb (ok s3Response) then throw (S3PostFailed (status s3Response))
          else
            registerResponse <- fetch_response (PostDirectRegister fieldsKey title) ;;
            if negb (ok registerResponse) then
              errorData <- json_of registerResponse ;;
              throw (ServerMessage (message_of (Some errorData)))
            else
              video <- json_of registerResponse ;;
              ret (S3Result
                     (match video with JVideo v => Some (videoId v) | _ => None end)
                     fieldsKey)
        else throw MissingPresignedPost
    | JDirectConfig _ _ _ _ => throw MissingPresignedPost
    | _ => throw TypeError
    end.

(** The standard upload through the server, by XMLHttpRequest. *)
Definition standardUpload (file : File) (title : string) : M upload_result :=
  rep <- fetch (PostVideos file title) ;;
  match rep with
  | NetworkFailure => throw RelayNetworkError
  | Response res =>
      if ok res then
        match json res with
        | Some b => ret (RelayResult b)
        | None => throw RelayInvalidResponse
        end
      else
        _ <- emit (Toast "Upload Error" true) ;;
        throw (RelayFailed (message_of (json res)))
  end.

(** [uploadMutation.mutationFn] *)
Definition mutationFn (selectedFile : option File) (title : string) : M upload_result :=
  match selectedFile with
  | None => throw MissingTitleOrFile
  | Some file =>
      if String.eqb title "" then throw MissingTitleOrFile
      else
        try_catch
          (if ClientConfig.maxFileSize <? size file then
             throw (FileTooLarge (ClientConfig.maxFileSize / (1024 * 1024)))
           else
             direct <-
               (if LARGE_FILE_THRESHOLD <? size file then
                  try_catch
                    (result <- trueBrowserDirectUpload file title ;; ret (Some result))
                    (fun _ => ret None)
                else ret None) ;;
             match direct with
             | Some result => ret result
             | None =>
                 assisted <-
                   (if MEDIUM_FILE_THRESHOLD <? size file then
                      try_catch
                        (s3Result <- uploadDirectlyToS3 file title ;; ret (Some s3Result))
                        (fun s3Error =>
                           _ <- emit (SetErrorMessage s3Error) ;;
                           _ <- emit (Toast "S3 Upload Failed" true) ;;
                           ret None)
                    else ret None) ;;
                 match assisted with
                 | Some s3Result => ret s3Result
                 | None => standardUpload file title
                 end
             end)
          (fun error =>
             _ <- emit (SetErrorMessage error) ;;
             throw error)
  end.

(** [uploadMutation.mutate()], with the onSuccess and onError callbacks. *)
Definition mutate (selectedFile : option File) (title : string) : M upload_result :=
  try_catch
    (result <- mutationFn selectedFile title ;;
     _ <- emit (Toast "Upload successful" false) ;;
     ret result)
    (fun error =>
       _ <- emit (Toast "Upload failed" true) ;;
       throw error).

End Client.

End UploadModal.

(** ** The client in front of a server *)

Module System.

(** A deployment of the server, with the object store as the browser
    reaches it through signed URLs and with what multer makes of a posted
    file. *)
Record Deployment := {
  env : ProcessEnv;
  s3 : S3.t;
  rt : Runtime;
  objectStore : request -> reply;
  multer : File -> multer_outcome
}.

Definition to_reply (r : http_response) : reply :=
  match r with
  | Respond st _ (Json b) =>
      Response {| status := st; ETagHeader := None; json := Some b |}
  | Respond st _ _ =>
      Response {| status := st; ETagHeader := None; json := None |}
  | Redirect _ =>
      Response {| status := 302; ETagHeader := None; json := None |}
  end.

(** The answer of the deployment to a request of the modal. *)
Definition serve (d : Deployment) (srv : Server) (r : request)
  : Server * list aws_event * reply :=
  let stateless (h : list aws_event * http_response) :=
    (srv, fst h, to_reply (snd h)) in
  let stateful (h : Server * list aws_event * http_response) :=
    (fst (fst h), snd (fst h), to_reply (snd h)) in
  match r with
  | GetUploadUrl fileType fileName =>
      stateless (Routes.upload_url (s3 d) (rt d) fileType fileName)
  | PostVideosS3 key title =>
      stateful (Routes.videos_s3 (s3 d) (rt d) srv key (Some title) None)
  | PostMultipartInit fileName fileType fileSize =>
      stateless (Routes.multipart_init (env d) (s3 d) (rt d) fileName fileType
                   (Some fileSize))
  | GetPartUrl key uploadId partNumber =>
      stateless (Routes.multipart_part_url (s3 d) key uploadId
                   (JS.show (JS.Num partNumber)))
  | PostMultipartComplete key uploadId parts =>
      stateless (Routes.multipart_complete (s3 d) key uploadId (Some parts))
  | PostDirectConfig fileName fileType fileSize =>
      stateless (Routes.direct_upload_config (s3 d) fileName fileType (Some fileSize))
  | PostDirectRegister key title =>
      stateful (Routes.direct_upload_register (s3 d) (rt d) srv key title)
  | PostVideos file title =>
      stateful (Routes.post_videos (env d) (s3 d) (rt d) srv (multer d file)
                  (Some title) None)
  | PutToS3 _ _ | PutPartToS3 _ _ _ | PostFormToS3 _ _ =>
      (srv, [], objectStore d r)
  end.

Definition emptyServer : Server :=
  {| store := {| uploads := ∅; thumbnails := ∅; tempVideos := ∅ |}; videos := [] |}.

(** The modal, started on a fresh server. *)
Definition initial (srv : Server) : UploadModal.State :=
  {| UploadModal.world := srv; UploadModal.trace := [];
     UploadModal.parts := []; UploadModal.failedParts := 0 |}.

Definition upload (d : Deployment) (file : File) (title : string)
  : UploadModal.State * outcome UploadModal.upload_result :=
  UploadModal.mutate (serve d) (Some file) title (initial emptyServer).

(** *** A deployment in which the remote store is available *)

Definition awsEnv : ProcessEnv := {|
  AWS_ACCESS_KEY_ID := "AKIA"; AWS_SECRET_ACCESS_KEY := "secret";
  AWS_REGION := "us-east-2"; AWS_S3_BUCKET := "bucket";
  MAX_FILE_SIZE_var := ""; REPLIT_DEPLOYMENT := ""
|}.

Definition healthyAWS : AWS := {|
  getSignedUrl := fun _ _ => Ok "https://bucket.s3.amazonaws.com/signed";
  createPresignedPost := fun key _ => Ok ("https://bucket.s3.amazonaws.com/", key);
  send := fun _ => Ok (Some "upload-id", Some [])
|}.

Definition healthyRuntime : Runtime := {|
  randomUUID := fun _ => "uuid";
  ffmpeg := fun _ => Some [];
  databaseUp := true;
  quotientText := fun _ _ => "";
  defaultThumbnailImage := []
|}.

(** A deployment whose adapter talks to AWS. *)
Definition remote (e : ProcessEnv) (aws : AWS) (r : Runtime)
    (objects : request -> reply) (m : File -> multer_outcome) : Deployment := {|
  env := e;
  s3 := S3Enabled.module e aws (randomUUID r);
  rt := r;
  objectStore := objects;
  multer := m
|}.

Definition healthy : Deployment :=
  remote awsEnv healthyAWS healthyRuntime
    (fun _ => Response {| status := 200; ETagHeader := Some "etag"; json := None |})
    (fun file => Stored "uuid.mp4" (type file) []).

(** The client requests of a trace, and what AWS was asked for. *)
Definition requests (tr : list event) : list request :=
  omap (fun e => match e with Fetch r => Some r | _ => None end) tr.

Definition awsEvents (tr : list event) : list aws_event :=
  omap (fun e => match e with Aws a => Some a | _ => None end) tr.

(** The signed upload URLs (and POST policies) among AWS events. *)
Definition isSignedUpload (a : aws_event) : bool :=
  match a with
  | Signed (PutObjectCommand _) _ => true
  | Signed (UploadPartCommand _ _ _) _ => true
  | SignedPost _ _ => true
  | _ => false
  end.

Definition signedUploads (tr : list event) : list aws_event :=
  filter (fun a => isSignedUpload a) (awsEvents tr).

End System.

Definition file_of_size (n : Z) : File :=
  {| name := "clip.mp4"; type := "video/mp4"; size := n |}.

(** ** Arrays and strings of JavaScript, as the storage and the other
    routes use them *)

Module JSArray.

(** The index of the first element that [p] holds of: the object that
    [arr.find(p)] returns is the element at this index, not a copy. *)
Fixpoint findIndex {A : Type} (p : A -> bool) (l : list A) : option nat :=
  match l with
  | [] => None
  | x :: l' => if p x then Some 0%nat else S <$> findIndex p l'
  end.

(** [arr.sort(cmp)]: the sort of an array is stable, so with a comparator
    that comes from a key it is the one order that insertion gives. *)
Fixpoint insert {A : Type} (cmp : A -> A -> Z) (x : A) (l : list A) : list A :=
  match l with
  | [] => [x]
  | y :: l' => if cmp x y <=? 0 then x :: l else y :: insert cmp x l'
  end.

Definition sort {A : Type} (cmp : A -> A -> Z) (l : list A) : list A :=
  foldr (insert cmp) [] l.

(** [arr.slice(0, end)]: a negative end counts from the end of the array,
    and NaN is read as 0. *)
Definition slice0 {A : Type} (end_ : JS.number) (l : list A) : list A :=
  match end_ with
  | JS.NaN => []
  | JS.Num e =>
      if e <? 0 then take (Z.to_nat (Z.of_nat (length l) + e)) l
      else take (Z.to_nat e) l
  | JS.Infinity negative => if negative then [] else l
  end.

End JSArray.

Module JSString.

Definition is_digit (c : ascii) : bool :=
  let n := nat_of_ascii c in (Nat.leb 48 n && Nat.leb n 57)%bool.

Definition is_lower (c : ascii) : bool :=
  let n := nat_of_ascii c in (Nat.leb 97 n && Nat.leb n 122)%bool.

Definition is_upper (c : ascii) : bool :=
  let n := nat_of_ascii c in (Nat.leb 65 n && Nat.leb n 90)%bool.

(** The class [\w] of a regular expression. *)
Definition is_word (c : ascii) : bool :=
  is_digit c || is_lower c || is_upper c || Ascii.eqb c "_".

Definition upper (c : ascii) : ascii :=
  if is_lower c then ascii_of_nat (nat_of_ascii c - 32) else c.

(** [s.toUpperCase()] on the ASCII letters. *)
Fixpoint toUpperCase (s : string) : string :=
  match s with
  | EmptyString => EmptyString
  | String c s' => String (upper c) (toUpperCase s')
  end.

(** [s.replace(/[^a-z0-9]/gi, '_')] *)
Fixpoint replace_non_alnum (s : string) : string :=
  match s with
  | EmptyString => EmptyString
  | String c s' =>
      String (if is_digit c || is_lower c || is_upper c then c else "_"%char)
             (replace_non_alnum s')
  end.

(** [s.replace(/[-_]/g, ' ')] *)
Fixpoint dashes_to_spaces (s : string) : string :=
  match s with
  | EmptyString => EmptyString
  | String c s' =>
      String (if Ascii.eqb c "-" || Ascii.eqb c "_" then " "%char else c)
             (dashes_to_spaces s')
  end.

(** [s.replace(/\b\w/g, c => c.toUpperCase())]: a word character is put in
    upper case when the character before it is not a word character;
    [inWord] tells whether the character before was one. *)
Fixpoint capitalize_words (inWord : bool) (s : string) : string :=
  match s with
  | EmptyString => EmptyString
  | String c s' =>
      String (if is_word c && negb inWord then upper c else c)
             (capitalize_words (is_word c) s')
  end.

Fixpoint trim_end (s : string) : string :=
  match s with
  | EmptyString => EmptyString
  | String c s' =>
      match trim_end s' with
      | EmptyString => if JS.is_white_space c then EmptyString else String c EmptyString
      | rest => String c rest
      end
  end.

(** [s.trim()] *)
Definition trim (s : string) : string := trim_end (JS.skip_white_space s).

End JSString.

(** ** shared/schema.ts: the rows of the tables and what is inserted *)

Module Schema.

Module User.
Record t := {
  id : JS.number;
  username : string;
  password : string;
  displayName : option string;
  profilePic : option string;
  followers : option Z
}.
End User.

Module InsertUser.
Record t := {
  username : string;
  password : string;
  displayName : option string;
  profilePic : option string
}.
End InsertUser.

(** A nullable column is [None] when it is null; [createdAt] is the time
    in milliseconds. *)
Module Video.
Record t := {
  id : Z;
  title : string;
  description : option string;
  duration : option Z;
  views : option Z;
  filePath : string;
  thumbnailPath : string;
  category : option string;
  tags : option (list string);
  isFeatured : option bool;
  isContest : option bool;
  isAI : option bool;
  userId : Z;
  createdAt : option Z
}.
End Video.

Module InsertVideo.
Record t := {
  title : string;
  description : option string;
  duration : option Z;
  filePath : string;
  thumbnailPath : string;
  category : option string;
  tags : option (list string);
  isFeatured : option bool;
  isContest : option bool;
  isAI : option bool;
  userId : Z
}.
End InsertVideo.

Module Comment.
Record t := {
  id : JS.number;
  content : string;
  videoId : Z;
  userId : Z;
  createdAt : option Z
}.
End Comment.

Module InsertComment.
Record t := { content : string; videoId : Z; userId : Z }.
End InsertComment.

End Schema.

(** ** server/storage.ts: the storage in memory *)

Module MemStorage.

(** The fields of the object.  [nextVideoId] is [None] when it is null or
    undefined, as after loading a file that does not have it.  The two
    other counters have no such guard: incrementing an undefined counter
    gives NaN, as an identifier and as the new counter, so a counter that is
    undefined is NaN here. *)
Record Data := {
  videos : list Schema.Video.t;
  users : list Schema.User.t;
  comments : list Schema.Comment.t;
  nextVideoId : option Z;
  nextUserId : JS.number;
  nextCommentId : JS.number
}.

(** The object, the content of data-store.json when the file was last
    written, and whether fs.writeFileSync succeeds. *)
Record t := {
  data : Data;
  disk : option Data;
  writable : bool
}.

(** [saveToDisk]: an error of the write is caught and logged. *)
Definition saveToDisk (d : Data) (st : t) : t :=
  {| data := d;
     disk := if writable st then Some d else disk st;
     writable := writable st |}.

Definition set_data (d : Data) (st : t) : t :=
  {| data := d; disk := disk st; writable := writable st |}.

(** [video.id === id] for the number that a route has parsed. *)
Definition has_id (id : JS.number) (v : Schema.Video.t) : bool :=
  match id with
  | JS.Num n => Schema.Video.id v =? n
  | _ => false
  end.

Definition getVideo (id : JS.number) (st : t) : option Schema.Video.t :=
  List.find (has_id id) (videos (data st)).

(** The place of the object that [getVideo] returns. *)
Definition getVideoRef (id : JS.number) (st : t) : option nat :=
  JSArray.findIndex (has_id id) (videos (data st)).

(** [(b.createdAt?.getTime() ?? 0) - (a.createdAt?.getTime() ?? 0)] *)
Definition newestFirst (a b : Schema.Video.t) : Z :=
  default 0 (Schema.Video.createdAt b) - default 0 (Schema.Video.createdAt a).

Definition flag (o : option bool) : bool := default false o.

Definition getVideos (st : t) : list Schema.Video.t :=
  JSArray.sort newestFirst (videos (data st)).

Definition getRecentVideos (limit : JS.number) (st : t) : list Schema.Video.t :=
  JSArray.slice0 limit (JSArray.sort newestFirst (videos (data st))).

Definition getFeaturedVideos (limit : JS.number) (st : t) : list Schema.Video.t :=
  JSArray.slice0 limit
    (JSArray.sort newestFirst
       (List.filter (fun video => flag (Schema.Video.isFeatured video))
          (videos (data st)))).

Definition getContestVideos (limit : JS.number) (st : t) : list Schema.Video.t :=
  JSArray.slice0 limit
    (JSArray.sort newestFirst
       (List.filter (fun video => flag (Schema.Video.isContest video))
          (videos (data st)))).

Definition getAIVideos (limit : JS.number) (st : t) : list Schema.Video.t :=
  JSArray.slice0 limit
    (JSArray.sort newestFirst
       (List.filter (fun video => flag (Schema.Video.isAI video))
          (videos (data st)))).

(** [x || null] for a string and for a number. *)
Definition string_or_null (o : option string) : option string :=
  match o with
  | Some "" => None
  | _ => o
  end.

Definition number_or_null (o : option Z) : option Z :=
  match o with
  | Some 0 => None
  | _ => o
  end.

Definition createVideo (insertVideo : Schema.InsertVideo.t) (now : Z) (st : t)
  : t * Schema.Video.t :=
  let d := data st in
  (* a counter that is null or undefined starts again from 1 *)
  let id := default 1 (nextVideoId d) in
  let newVideo := {|
    Schema.Video.id := id;
    Schema.Video.title := Schema.InsertVideo.title insertVideo;
    Schema.Video.description :=
      string_or_null (Schema.InsertVideo.description insertVideo);
    Schema.Video.duration := number_or_null (Schema.InsertVideo.duration insertVideo);
    Schema.Video.views := Some 0;
    Schema.Video.filePath := Schema.InsertVideo.filePath insertVideo;
    Schema.Video.thumbnailPath := Schema.InsertVideo.thumbnailPath insertVideo;
    Schema.Video.category := string_or_null (Schema.InsertVideo.category insertVideo);
    Schema.Video.tags := Schema.InsertVideo.tags insertVideo;
    Schema.Video.isFeatured := Some (flag (Schema.InsertVideo.isFeatured insertVideo));
    Schema.Video.isContest := Some (flag (Schema.InsertVideo.isContest insertVideo));
    Schema.Video.isAI := Some (flag (Schema.InsertVideo.isAI insertVideo));
    Schema.Video.userId := Schema.InsertVideo.userId insertVideo;
    Schema.Video.createdAt := Some now
  |} in
  (saveToDisk {| videos := videos d ++ [newVideo];
                 users := users d;
                 comments := comments d;
                 nextVideoId := Some (id + 1);
                 nextUserId := nextUserId d;
                 nextCommentId := nextCommentId d |} st,
   newVideo).

(** [comment.videoId === videoId] *)
Definition about (videoId : JS.number) (comment : Schema.Comment.t) : bool :=
  match videoId with
  | JS.Num n => Schema.Comment.videoId comment =? n
  | _ => false
  end.

Definition deleteVideo (id : JS.number) (st : t) : t * bool :=
  let d := data st in
  let initialLength := length (videos d) in
  let d' := {|
    videos := List.filter (fun video => negb (has_id id video)) (videos d);
    users := users d;
    (* also the comments of this video *)
    comments := List.filter (fun comment => negb (about id comment)) (comments d);
    nextVideoId := nextVideoId d;
    nextUserId := nextUserId d;
    nextCommentId := nextCommentId d |} in
  let success := negb (Nat.eqb (length (videos d')) initialLength) in
  (if success then saveToDisk d' st else set_data d' st, success).

(** [video.views = (video.views || 0) + 1] on the object in the array. *)
Definition viewed (video : Schema.Video.t) : Schema.Video.t := {|
  Schema.Video.id := Schema.Video.id video;
  Schema.Video.title := Schema.Video.title video;
  Schema.Video.description := Schema.Video.description video;
  Schema.Video.duration := Schema.Video.duration video;
  Schema.Video.views := Some (default 0 (Schema.Video.views video) + 1);
  Schema.Video.filePath := Schema.Video.filePath video;
  Schema.Video.thumbnailPath := Schema.Video.thumbnailPath video;
  Schema.Video.category := Schema.Video.category video;
  Schema.Video.tags := Schema.Video.tags video;
  Schema.Video.isFeatured := Schema.Video.isFeatured video;
  Schema.Video.isContest := Schema.Video.isContest video;
  Schema.Video.isAI := Schema.Video.isAI video;
  Schema.Video.userId := Schema.Video.userId video;
  Schema.Video.createdAt := Schema.Video.createdAt video
|}.

Definition incrementViews (id : JS.number) (st : t) : t * bool :=
  let d := data st in
  match getVideoRef id st with
  | None => (st, false)
  | Some i =>
      (saveToDisk {| videos := alter viewed i (videos d);
                     users := users d;
                     comments := comments d;
                     nextVideoId := nextVideoId d;
                     nextUserId := nextUserId d;
                     nextCommentId := nextCommentId d |} st,
       true)
  end.

Definition newestCommentFirst (a b : Schema.Comment.t) : Z :=
  default 0 (Schema.Comment.createdAt b) - default 0 (Schema.Comment.createdAt a).

Definition getComments (videoId : JS.number) (st : t) : list Schema.Comment.t :=
  JSArray.sort newestCommentFirst (List.filter (about videoId) (comments (data st))).

Definition createComment (insertComment : Schema.InsertComment.t) (now : Z) (st : t)
  : t * Schema.Comment.t :=
  let d := data st in
  let id := nextCommentId d in
  let newComment := {|
    Schema.Comment.id := id;
    Schema.Comment.content := Schema.InsertComment.content insertComment;
    Schema.Comment.videoId := Schema.InsertComment.videoId insertComment;
    Schema.Comment.userId := Schema.InsertComment.userId insertComment;
    Schema.Comment.createdAt := Some now
  |} in
  (saveToDisk {| videos := videos d;
                 users := users d;
                 comments := comments d ++ [newComment];
                 nextVideoId := nextVideoId d;
                 nextUserId := nextUserId d;
                 nextCommentId := JS.add id (JS.Num 1) |} st,
   newComment).

(** [a !== b] on numbers: NaN differs from every number and from itself. *)
Definition differs (a b : JS.number) : bool :=
  match a, b with
  | JS.Num x, JS.Num y => negb (x =? y)
  | JS.Infinity x, JS.Infinity y => negb (Bool.eqb x y)
  | _, _ => true
  end.

Definition deleteComment (id : JS.number) (st : t) : t * bool :=
  let d := data st in
  let initialLength := length (comments d) in
  let d' := {|
    videos := videos d;
    users := users d;
    comments :=
      List.filter (fun comment => differs (Schema.Comment.id comment) id) (comments d);
    nextVideoId := nextVideoId d;
    nextUserId := nextUserId d;
    nextCommentId := nextCommentId d |} in
  let success := negb (Nat.eqb (length (comments d')) initialLength) in
  (if success then saveToDisk d' st else set_data d' st, success).

Definition getUserByUsername (username : string) (st : t) : option Schema.User.t :=
  List.find
    (fun user =>
       String.eqb (JS.toLowerCase (Schema.User.username user)) (JS.toLowerCase username))
    (users (data st)).

Definition createUser (insertUser : Schema.InsertUser.t) (st : t) : t * Schema.User.t :=
  let d := data st in
  let id := nextUserId d in
  let newUser := {|
    Schema.User.id := id;
    Schema.User.username := Schema.InsertUser.username insertUser;
    Schema.User.password := Schema.InsertUser.password insertUser;
    Schema.User.displayName := string_or_null (Schema.InsertUser.displayName insertUser);
    Schema.User.profilePic := string_or_null (Schema.InsertUser.profilePic insertUser);
    Schema.User.followers := Some 0
  |} in
  (saveToDisk {| videos := videos d;
                 users := users d ++ [newUser];
                 comments := comments d;
                 nextVideoId := nextVideoId d;
                 nextUserId := JS.add id (JS.Num 1);
                 nextCommentId := nextCommentId d |} st,
   newUser).

Definition demoUser : Schema.InsertUser.t := {|
  Schema.InsertUser.username := "demo";
  Schema.InsertUser.password := "password";
  Schema.InsertUser.displayName := Some "Demo User";
  Schema.InsertUser.profilePic :=
    Some "https://images.unsplash.com/photo-1472099645785-5658abf4ff4e?ixlib=rb-1.2.1&ixid=eyJhcHBfaWQiOjEyMDd9&auto=format&fit=facearea&facepad=2&w=256&h=256&q=80"
|}.

(** The fields of a new object: no rows, and the counters at 1. *)
Definition fresh (canWrite : bool) : t := {|
  data := {| videos := []; users := []; comments := [];
             nextVideoId := Some 1; nextUserId := JS.Num 1; nextCommentId := JS.Num 1 |};
  disk := None;
  writable := canWrite
|}.

(** [createDefaultUser], which runs at startup. *)
Definition createDefaultUser (st : t) : t :=
  match getUserByUsername "demo" st with
  | None => fst (createUser demoUser st)
  | Some _ => st
  end.

End MemStorage.

(** ** server/routes.ts: the routes in front of the storage *)

Module Api.

Record Site := { files : LocalStore; storage : MemStorage.t }.

Inductive json :=
| JsonMessage (message : string)
| JsonVideo (video : Schema.Video.t)
| JsonVideos (videos : list Schema.Video.t)
| JsonComment (comment : Schema.Comment.t)
| JsonComments (comments : list Schema.Comment.t)
| JsonValidationError.              (* the message that fromZodError gives *)

Inductive answer :=
| Status (code : Z) (b : json)                    (* res.status(code).json(b) *)
| End (code : Z)                                  (* res.status(code).end() *)
(* Content-Type video/mp4, Content-Disposition attachment with this file
   name, and the stream of the file piped into the response *)
| Attachment (filename : string) (data : bytes)
| RedirectTo (url : string)
| SentFile (contentType path : string) (data : bytes).     (* res.sendFile *)

Definition with_storage (site : Site) (st : MemStorage.t) : Site :=
  {| files := files site; storage := st |}.

(** The limit of a list route: [req.query.limit ? parseInt(...) : 5]. *)
Definition limitOf (limit : option string) : JS.number :=
  if JS.truthy limit then JS.parseIntAuto (default "" limit) else JS.Num 5.

(** GET /api/videos and its four variants *)
Definition listVideos (site : Site) : answer :=
  Status 200 (JsonVideos (MemStorage.getVideos (storage site))).

Definition listRecent (site : Site) (limit : option string) : answer :=
  Status 200 (JsonVideos (MemStorage.getRecentVideos (limitOf limit) (storage site))).

Definition listFeatured (site : Site) (limit : option string) : answer :=
  Status 200 (JsonVideos (MemStorage.getFeaturedVideos (limitOf limit) (storage site))).

Definition listContest (site : Site) (limit : option string) : answer :=
  Status 200 (JsonVideos (MemStorage.getContestVideos (limitOf limit) (storage site))).

Definition listAI (site : Site) (limit : option string) : answer :=
  Status 200 (JsonVideos (MemStorage.getAIVideos (limitOf limit) (storage site))).

(** GET /api/videos/:id.  [video] is the object of the array that getVideo
    found; incrementViews changes that object, and res.json then writes it
    as it is. *)
Definition videoById (site : Site) (idParam : string) : Site * answer :=
  let id := JS.parseIntAuto idParam in
  match MemStorage.getVideo id (storage site),
        MemStorage.getVideoRef id (storage site) with
  | Some video, Some ref =>
      let st' := fst (MemStorage.incrementViews id (storage site)) in
      (with_storage site st',
       Status 200
         (JsonVideo (default video (MemStorage.videos (MemStorage.data st') !! ref))))
  | _, _ => (site, Status 404 (JsonMessage "Video not found"))
  end.

Definition unlink (name : string) (dir : gmap string bytes) : gmap string bytes :=
  match dir !! name with
  | Some _ => delete name dir
  | None => dir
  end.

(** DELETE /api/videos/:id.  With the answer come the keys that
    deleteFileFromS3 was called with; a throw of it ends the try block. *)
Definition deleteVideoRoute (USE_S3 : bool) (deleteFileFromS3 : string -> result bool)
    (site : Site) (idParam : string) : Site * list string * answer :=
  let id := JS.parseIntAuto idParam in
  match MemStorage.getVideo id (storage site) with
  | None => (site, [], Status 404 (JsonMessage "Video not found"))
  | Some video =>
      let filePath := Schema.Video.filePath video in
      let thumbnailPath := Schema.Video.thumbnailPath video in
      let asked :=
        if USE_S3 && negb (String.eqb filePath "") && negb (JS.includes "://" filePath)
        then
          match deleteFileFromS3 filePath with
          | Ok _ => if negb (String.eqb thumbnailPath "") then [filePath; thumbnailPath]
                    else [filePath]
          | Throw _ => [filePath]
          end
        else [] in
      (* the local files, by their base names *)
      let files' := {|
        uploads := unlink (Routes.basename filePath) (uploads (files site));
        thumbnails := unlink (Routes.basename thumbnailPath) (thumbnails (files site));
        tempVideos := tempVideos (files site) |} in
      let '(st', success) := MemStorage.deleteVideo id (storage site) in
      ({| files := files'; storage := st' |}, asked,
       if success then End 204
       else Status 500 (JsonMessage "Failed to delete video from database"))
  end.

(** The file name of a download, from the title of the video. *)
Definition safeFilename (title : string) : string :=
  if negb (String.eqb title "")
  then JS.toLowerCase (JSString.replace_non_alnum title) +:+ ".mp4"
  else "video.mp4".

(** The name under which the download route looks for the file. *)
Definition originalFilename (filePath : string) : string :=
  if JS.startsWith "https://" filePath then
    default "" (head (JS.split "?" (default "" (last (JS.split "/" filePath)))))
  else if JS.startsWith "uploads/" filePath then JS.remove_first "uploads/" filePath
  else filePath.

(** GET /api/videos/:id/download.  The temporary copy of a remote file is
    removed some seconds after the response; the state is the one when the
    response is sent. *)
Definition download (s3 : S3.t) (getS3KeyFromUrl : string -> string)
    (site : Site) (idParam : string) : Site * list aws_event * answer :=
  let id := JS.parseIntAuto idParam in
  match MemStorage.getVideo id (storage site) with
  | None => (site, [], Status 404 (JsonMessage "Video not found"))
  | Some video =>
      if negb (MemStorage.flag (Schema.Video.isAI video)) then
        (site, [], Status 403 (JsonMessage "Only AI-generated videos can be downloaded"))
      else
        let filePath := Schema.Video.filePath video in
        let isS3Video :=
          JS.startsWith "https://" filePath && JS.includes "amazonaws.com" filePath in
        let name := originalFilename filePath in
        match uploads (files site) !! name with
        | Some data =>
            (site, [], Attachment (safeFilename (Schema.Video.title video)) data)
        | None =>
            if negb isS3Video then
              (site, [], Status 404 (JsonMessage "Video file not found"))
            else
              let s3Key :=
                if JS.startsWith "uploads/" filePath then filePath
                else if JS.startsWith "https://" filePath then getS3KeyFromUrl filePath
                else "uploads/" +:+ name in
              match S3.downloadFileFromS3 s3 s3Key with
              | (ev, Ok data) =>
                  ({| files := {| uploads := uploads (files site);
                                  thumbnails := thumbnails (files site);
                                  tempVideos := <[name := data]> (tempVideos (files site)) |};
                      storage := storage site |},
                   ev, Attachment (safeFilename (Schema.Video.title video)) data)
              | (ev, Throw _) =>
                  match S3.getPresignedUrl s3 s3Key (Some 3600) with
                  | (ev', Ok presignedUrl) => (site, ev ++ ev', RedirectTo presignedUrl)
                  | (ev', Throw _) =>
                      (site, ev ++ ev',
                       Status 500 (JsonMessage "Failed to download video from storage"))
                  end
              end
        end
  end.

(** GET /api/videos/:id/comments *)
Definition listComments (site : Site) (idParam : string) : answer :=
  Status 200 (JsonComments (MemStorage.getComments (JS.parseIntAuto idParam) (storage site))).

(** POST /api/videos/:id/comments; [content] is req.body.content when it
    is a string, which is what insertCommentSchema asks of it. *)
Definition postComment (site : Site) (idParam : string) (content : option string)
    (now : Z) : Site * answer :=
  let videoId := JS.parseIntAuto idParam in
  match MemStorage.getVideo videoId (storage site), videoId with
  | Some _, JS.Num n =>
      match content with
      | Some text =>
          let '(st', comment) :=
            MemStorage.createComment
              {| Schema.InsertComment.content := text;
                 Schema.InsertComment.videoId := n;
                 Schema.InsertComment.userId := 1 |} now (storage site) in
          (with_storage site st', Status 201 (JsonComment comment))
      | None => (site, Status 400 JsonValidationError)
      end
  | _, _ => (site, Status 404 (JsonMessage "Video not found"))
  end.

(** GET /api/file/proxy; decodeURIComponent throws on a malformed key. *)
Definition fileProxy (decodeURIComponent : string -> option string)
    (site : Site) (key type : option string) : answer :=
  if negb (JS.truthy key) then Status 400 (JsonMessage "Missing key parameter")
  else
    match decodeURIComponent (default "" key) with
    | None => Status 500 (JsonMessage "Failed to proxy file")
    | Some decodedKey =>
        let isThumbnail :=
          match type with Some t => String.eqb t "thumbnail" | None => false end in
        let dir := if isThumbnail then Routes.thumbnailDir else Routes.uploadDir in
        let name := Routes.basename decodedKey in
        match (if isThumbnail then thumbnails (files site) else uploads (files site))
              !! name with
        | Some data =>
            let contentType :=
              if isThumbnail || JS.endsWith decodedKey ".jpg"
                 || JS.endsWith decodedKey ".jpeg" then "image/jpeg"
              else if JS.endsWith decodedKey ".png" then "image/png"
              else if JS.endsWith decodedKey ".mp4" then "video/mp4"
              else "application/octet-stream" in
            SentFile contentType (dir +:+ name) data
        | None => Status 404 (JsonMessage "File not found")
        end
    end.

End Api.

(** ** server/storage-utils.ts: recovery of videos from the upload directory *)

Module StorageUtils.

Definition formatTitle (input : string) : string :=
  let isUUID := JS.includes "-" input && (30 <? Z.of_nat (String.length input)) in
  if isUUID then "Recovered Video"
  else JSString.trim
         (JSString.capitalize_words false (JSString.dashes_to_spaces input)).

(** [/\.(mp4|webm|mov|avi|mkv)$/i.test(file)] *)
Definition isVideoFile (file : string) : bool :=
  let f := JS.toLowerCase file in
  JS.endsWith f ".mp4" || JS.endsWith f ".webm" || JS.endsWith f ".mov"
  || JS.endsWith f ".avi" || JS.endsWith f ".mkv".

(** The paths under which the videos of the storage are known: with the
    prefix of the upload directory, and by the bare file name. *)
Definition existingPaths (existingVideos : list Schema.Video.t) : list string :=
  map (fun v =>
         let filePath := Schema.Video.filePath v in
         if JS.startsWith "uploads/" filePath then filePath
         else "uploads/" +:+ filePath)
      existingVideos
  ++ omap (fun v =>
             let filename := last (JS.split "/" (Schema.Video.filePath v)) in
             if JS.truthy filename then filename else None)
          existingVideos.

Definition has (paths : list string) (path : string) : bool :=
  existsb (String.eqb path) paths.

(** The record made for a file of the upload directory. *)
Definition recovered (thumbnails : gmap string bytes) (videoFile : string)
  : Schema.InsertVideo.t :=
  let baseName := default "" (head (JS.split "." videoFile)) in
  let thumbnailPath :=
    match thumbnails !! ("thumbnail-" +:+ baseName +:+ ".jpg") with
    | Some _ => "thumbnails/thumbnail-" +:+ baseName +:+ ".jpg"
    | None => "thumbnails/default-thumbnail.jpg"
    end in
  let videoExtension :=
    let ext := JS.toLowerCase (default "" (last (JS.split "." videoFile))) in
    if String.eqb ext "" then "mp4" else ext in
  let isAI :=
    JS.includes "ai" (JS.toLowerCase videoFile)
    || JS.includes "ai" (JS.toLowerCase baseName) in
  {| Schema.InsertVideo.title := formatTitle baseName;
     Schema.InsertVideo.description := Some "Local video recovered during sync";
     Schema.InsertVideo.duration := Some 0;
     Schema.InsertVideo.filePath := "uploads/" +:+ videoFile;
     Schema.InsertVideo.thumbnailPath := thumbnailPath;
     Schema.InsertVideo.category := Some "Videos";
     Schema.InsertVideo.tags := Some [JSString.toUpperCase videoExtension; "Recovered"];
     Schema.InsertVideo.isFeatured := Some false;
     Schema.InsertVideo.isContest := Some false;
     Schema.InsertVideo.isAI := Some isAI;
     Schema.InsertVideo.userId := 1 |}.

(** The loop over the video files; [existing] is computed once, before
    the loop, and [clock] gives the time at which the record of a file is
    created. *)
Fixpoint syncFiles (existing : list string) (fs : LocalStore) (clock : string -> Z)
    (videoFiles : list string) (st : MemStorage.t) : MemStorage.t :=
  match videoFiles with
  | [] => st
  | videoFile :: rest =>
      if has existing videoFile || has existing ("uploads/" +:+ videoFile)
      then syncFiles existing fs clock rest st
      else
        match uploads fs !! videoFile with
        | Some content =>
            if Z.of_nat (length content) <? 1024
            then syncFiles existing fs clock rest st
            else
              syncFiles existing fs clock rest
                (fst (MemStorage.createVideo (recovered (thumbnails fs) videoFile)
                        (clock videoFile) st))
        | None =>
            (* fs.statSync throws, and the catch around the function ends it *)
            st
        end
  end.

(** [syncFromLocalFiles]; [files] is what fs.readdirSync gives for the
    upload directory. *)
Definition syncFromLocalFiles (fs : LocalStore) (clock : string -> Z)
    (files : list string) (st : MemStorage.t) : MemStorage.t :=
  let videoFiles := List.filter isVideoFile files in
  match videoFiles with
  | [] => st
  | _ =>
      let existingVideos := MemStorage.getVideos st in
      syncFiles (existingPaths existingVideos) fs clock videoFiles st
  end.

(** The paths under which [syncFromS3Storage] knows the videos of the
    storage: the path itself, the path without or with the prefix of the
    upload directory, and the bare file name. *)
Definition existingKeys (existingVideos : list Schema.Video.t) : list string :=
  flat_map
    (fun v =>
       let filePath := Schema.Video.filePath v in
       let filename := last (JS.split "/" filePath) in
       [filePath]
       ++ (if JS.startsWith "uploads/" filePath then [JS.drop_chars 8 filePath]
           else ["uploads/" +:+ filePath])
       ++ (if JS.truthy filename then [default "" filename] else []))
    existingVideos.

(** The record made for an object of the bucket. *)
Definition recoveredFromS3 (thumbnailExists : bool) (videoKey : string)
  : Schema.InsertVideo.t :=
  let baseName :=
    default "" (head (JS.split "." (default "" (last (JS.split "/" videoKey))))) in
  let thumbnailKey :=
    if thumbnailExists then "thumbnails/thumbnail-" +:+ baseName +:+ ".jpg"
    else "thumbnails/default-thumbnail.jpg" in
  let videoExtension :=
    let ext := JS.toLowerCase (default "" (last (JS.split "." videoKey))) in
    if String.eqb ext "" then "mp4" else ext in
  let isAI :=
    JS.includes "ai" (JS.toLowerCase videoKey)
    || JS.includes "ai" (JS.toLowerCase baseName) in
  let isContest :=
    JS.includes "contest" (JS.toLowerCase videoKey)
    || JS.includes "contest" (JS.toLowerCase baseName) in
  {| Schema.InsertVideo.title := formatTitle baseName;
     Schema.InsertVideo.description :=
       Some ("S3 Video (" +:+ JSString.toUpperCase videoExtension +:+ ")");
     Schema.InsertVideo.duration := Some 0;
     Schema.InsertVideo.filePath := videoKey;
     Schema.InsertVideo.thumbnailPath := thumbnailKey;
     Schema.InsertVideo.category := Some "Videos";
     Schema.InsertVideo.tags := Some [JSString.toUpperCase videoExtension; "S3"];
     Schema.InsertVideo.isFeatured := Some false;
     Schema.InsertVideo.isContest := Some isContest;
     Schema.InsertVideo.isAI := Some isAI;
     Schema.InsertVideo.userId := 1 |}.

(** Whether a key of the bucket is taken for a video of the storage. *)
Definition isExisting (existing : list string) (videoKey : string) : bool :=
  let filename := last (JS.split "/" videoKey) in
  has existing videoKey
  || (JS.truthy filename && has existing (default "" filename)).

(** The loop over the keys of the bucket; [existing] is computed once,
    before the loop.  A call of the adapter that throws ends the
    function, by the catch around it. *)
Fixpoint syncKeys (existing : list string) (s3 : S3.t) (clock : string -> Z)
    (videoKeys : list string) (st : MemStorage.t) : MemStorage.t * list aws_event :=
  match videoKeys with
  | [] => (st, [])
  | videoKey :: rest =>
      if isExisting existing videoKey then syncKeys existing s3 clock rest st
      else
        let baseName :=
          default "" (head (JS.split "." (default "" (last (JS.split "/" videoKey))))) in
        match S3.fileExistsInS3 s3 ("thumbnails/thumbnail-" +:+ baseName +:+ ".jpg") with
        | (ev, Ok thumbnailExists) =>
            let '(st', ev') :=
              syncKeys existing s3 clock rest
                (fst (MemStorage.createVideo (recoveredFromS3 thumbnailExists videoKey)
                        (clock videoKey) st)) in
            (st', ev ++ ev')
        | (ev, Throw _) => (st, ev)
        end
  end.

(** [syncFromS3Storage]; [allKeys] is what listS3Objects('') returns. *)
Definition syncFromS3Storage (s3 : S3.t) (clock : string -> Z)
    (allKeys : list string) (st : MemStorage.t) : MemStorage.t * list aws_event :=
  if negb (S3.USE_S3 s3) then (st, [])
  else
    let videoKeys := List.filter isVideoFile allKeys in
    match videoKeys with
    | [] => (st, [])
    | _ =>
        let existingVideos := MemStorage.getVideos st in
        syncKeys (existingKeys existingVideos) s3 clock videoKeys st
    end.

(** [syncWithS3]: the upload directory first, then the bucket, unless the
    file do-not-sync.flag exists. *)
Definition syncWithS3 (doNotSync : bool) (fs : LocalStore) (s3 : S3.t)
    (clock : string -> Z) (files allKeys : list string) (st : MemStorage.t)
  : MemStorage.t * list aws_event :=
  if doNotSync then (st, [])
  else syncFromS3Storage s3 clock allKeys (syncFromLocalFiles fs clock files st).

End StorageUtils.

(** ** The S3 adapter: listing the objects of the bucket *)

Module S3Listing.

(** The output of a ListObjectsV2Command, with the fields that are read. *)
Record ListObjectsV2Output := {
  Contents : option (list (option string));      (* the Key of each object *)
  IsTruncated : option bool;
  NextContinuationToken : option string
}.

Definition keysOf (response : ListObjectsV2Output) : list string :=
  match Contents response with
  | Some objects =>
      omap (fun key => if JS.truthy key then key else None) objects
  | None => []
  end.

(** The loop of [listS3Objects]: [input] is the ContinuationToken in the
    input of the command, which the loop only ever sets, and [send] is
    s3Client.send for the prefix and that token.  Without fuel the result
    is [None]; a request that throws makes the function return no key. *)
Fixpoint listLoop (send : string -> option string -> result ListObjectsV2Output)
    (prefix : string) (fuel : nat)
    (keys : list string) (input continuationToken : option string)
  : option (list string) :=
  match fuel with
  | O => None
  | S fuel' =>
      let input' := if JS.truthy continuationToken then continuationToken else input in
      match send prefix input' with
      | Throw _ => Some []
      | Ok response =>
          let keys' := keys ++ keysOf response in
          if default false (IsTruncated response)
          then listLoop send prefix fuel' keys' input' (NextContinuationToken response)
          else Some keys'
      end
  end.

Definition listS3Objects (configured : bool)
    (send : string -> option string -> result ListObjectsV2Output)
    (prefix : string) (fuel : nat) : option (list string) :=
  if negb configured then Some []
  else listLoop send (normalizeS3Key prefix) fuel [] None None.

(** The pages of a listing: the keys of each page, and the token that
    leads to the next one. *)
Fixpoint serves (send : string -> option string -> result ListObjectsV2Output)
    (prefix : string) (token : option string) (pages : list (list string)) : Prop :=
  match pages with
  | [] => False
  | [page] =>
      exists response,
        send prefix token = Ok response
        /\ keysOf response = page
        /\ default false (IsTruncated response) = false
  | page :: rest =>
      exists response next,
        send prefix token = Ok response
        /\ keysOf response = page
        /\ default false (IsTruncated response) = true
        /\ NextContinuationToken response = Some next
        /\ next <> ""
        /\ serves send prefix (Some next) rest
  end.

(** Pages of a listing that are followed by a request that throws. *)
Fixpoint breaks (send : string -> option string -> result ListObjectsV2Output)
    (prefix : string) (token : option string) (pages : list (list string)) : Prop :=
  match pages with
  | [] => exists msg, send prefix token = Throw msg
  | page :: rest =>
      exists response next,
        send prefix token = Ok response
        /\ keysOf response = page
        /\ default false (IsTruncated response) = true
        /\ NextContinuationToken response = Some next
        /\ next <> ""
        /\ breaks send prefix (Some next) rest
  end.

End S3Listing.

(** ** The server entry point: the guard on the length of a request *)

Module ServerIndex.

Definition MAX_FILE_SIZE (env : ProcessEnv) : JS.number :=
  JS.parseIntAuto (if String.eqb (MAX_FILE_SIZE_var env) "" then "524288000"
                     else MAX_FILE_SIZE_var env).

(** The middleware before the routes: [Some] is the status it answers
    with, [None] is next(). *)
Definition lengthGuard (env : ProcessEnv) (contentLengthHeader : option string)
  : option Z :=
  if JS.truthy contentLengthHeader then
    let contentLength := JS.parseIntAuto (default "" contentLengthHeader) in
    if JS.gt contentLength (MAX_FILE_SIZE env) then Some 413 else None
  else None.

End ServerIndex.

(** ** server/routes.ts: the configuration of multer *)

Module MulterConfig.

(** The text after the last dot of a text that has one. *)
Fixpoint after_last_dot (s : string) : option string :=
  match s with
  | EmptyString => None
  | String c s' =>
      match after_last_dot s' with
      | Some e => Some e
      | None => if Ascii.eqb c "." then Some s' else None
      end
  end.

(** [path.extname]: the extension of the last segment of the path, from
    its last dot; a dot at the first place of the segment begins no
    extension, and the segment [..] has none. *)
Definition extname (path : string) : string :=
  let base := Routes.basename path in
  match base with
  | EmptyString => ""
  | String _ rest =>
      match after_last_dot rest with
      | Some e => if String.eqb base ".." then "" else "." +:+ e
      | None => ""
      end
  end.

(** The name under which the disk storage saves an upload. *)
Definition filename (uuid originalname : string) : string :=
  uuid +:+ extname originalname.

(** [/mp4|mov|avi|webm|mkv|flv|wmv|ogg|3gp/.test(s)] *)
Definition filetypes (s : string) : bool :=
  existsb (fun t => JS.includes t s)
    ["mp4"; "mov"; "avi"; "webm"; "mkv"; "flv"; "wmv"; "ogg"; "3gp"].

(** [fileFilter]: whether the file is let through. *)
Definition fileFilter (originalname mimetype : string) : bool :=
  let isVideoMimetype := JS.startsWith "video/" mimetype in
  let hasVideoExtension := filetypes (JS.toLowerCase (extname originalname)) in
  isVideoMimetype || hasVideoExtension.

End MulterConfig.

(** ** The order of the routes

    Express tries the routes and the middleware of the application in the
    order in which registerRoutes adds them, and the first route whose
    pattern matches the path answers.  A pattern is matched segment by
    segment, without regard to the case of the letters and with an
    optional slash at the end; a parameter stands for one segment that is
    not empty. *)

Module Router.

Inductive method := GET | HEAD | POST | DELETE.

Inductive segment :=
| Lit (s : string)
| Par (name : string).

Inductive handler :=
| UploadUrl | MultipartInit | MultipartPartUrl | MultipartComplete
| DirectUploadConfig | DirectUploadComplete | DirectUploadRegister | VideosS3
| TestFileSize | TestFileSizeDisk | VideoFile | ThumbnailFile | VideoDownload
| Health | Videos | RecentVideos | FeaturedVideos | ContestVideos | AIVideos
| VideoById | PostVideo | DeleteVideo | VideoComments | PostVideoComment
| FileProxy | VideoStream.

Inductive entry :=
| Route (m : method) (pattern : list segment) (h : handler)       (* app.get, app.post, app.delete *)
| Static (mount : list string) (dir : string).                    (* app.use(mount, express.static(dir)) *)

(** The application as registerRoutes builds it. *)
Definition table : list entry := [
  Route GET [Lit "api"; Lit "upload-url"] UploadUrl;
  Route POST [Lit "api"; Lit "multipart-upload"; Lit "init"] MultipartInit;
  Route GET [Lit "api"; Lit "multipart-upload"; Lit "part-url"] MultipartPartUrl;
  Route POST [Lit "api"; Lit "multipart-upload"; Lit "complete"] MultipartComplete;
  Route POST [Lit "api"; Lit "direct-upload"; Lit "config"] DirectUploadConfig;
  Route POST [Lit "api"; Lit "direct-upload"; Lit "complete"] DirectUploadComplete;
  Route POST [Lit "api"; Lit "direct-upload"; Lit "register"] DirectUploadRegister;
  Route POST [Lit "api"; Lit "videos"; Lit "s3"] VideosS3;
  Route POST [Lit "api"; Lit "test"; Lit "file-size"] TestFileSize;
  Route POST [Lit "api"; Lit "test"; Lit "file-size-disk"] TestFileSizeDisk;
  Route GET [Lit "videos"; Par "filename"] VideoFile;
  Static ["thumbnails"] "thumbnails";
  Static [] "public";
  Route GET [Lit "thumbnails"; Lit "api"; Par "filename"] ThumbnailFile;
  Route GET [Lit "api"; Lit "videos"; Par "id"; Lit "download"] VideoDownload;
  Route GET [Lit "api"; Lit "health"] Health;
  Route GET [Lit "api"; Lit "videos"] Videos;
  Route GET [Lit "api"; Lit "videos"; Lit "recent"] RecentVideos;
  Route GET [Lit "api"; Lit "videos"; Lit "featured"] FeaturedVideos;
  Route GET [Lit "api"; Lit "videos"; Lit "contest"] ContestVideos;
  Route GET [Lit "api"; Lit "videos"; Lit "ai"] AIVideos;
  Route GET [Lit "api"; Lit "videos"; Par "id"] VideoById;
  Route POST [Lit "api"; Lit "videos"] PostVideo;
  Route DELETE [Lit "api"; Lit "videos"; Par "id"] DeleteVideo;
  Route GET [Lit "api"; Lit "videos"; Par "id"; Lit "comments"] VideoComments;
  Route POST [Lit "api"; Lit "videos"; Par "id"; Lit "comments"] PostVideoComment;
  Route GET [Lit "api"; Lit "file"; Lit "proxy"] FileProxy;
  Static ["videos"] "uploads";
  Route GET [Lit "api"; Lit "videos"; Lit "stream"] VideoStream
].

(** The segments of a path after its first slash. *)
Definition segments (path : string) : option (list string) :=
  match JS.split "/" path with
  | "" :: segs => Some segs
  | _ => None
  end.

(** The optional slash at the end of a path. *)
Fixpoint strip_slash (segs : list string) : list string :=
  match segs with
  | [] => []
  | [""] => []
  | seg :: rest => seg :: strip_slash rest
  end.

Definition same_text (a b : string) : bool :=
  String.eqb (JS.toLowerCase a) (JS.toLowerCase b).

(** The parameters of a path that matches a pattern. *)
Fixpoint match_pattern (pattern : list segment) (segs : list string)
  : option (list (string * string)) :=
  match pattern, segs with
  | [], [] => Some []
  | Lit s :: pattern', seg :: segs' =>
      if same_text seg s then match_pattern pattern' segs' else None
  | Par name :: pattern', seg :: segs' =>
      if String.eqb seg "" then None
      else option_map (cons (name, seg)) (match_pattern pattern' segs')
  | _, _ => None
  end.

(** The rest of a path below the mount point of a middleware. *)
Fixpoint below (mount segs : list string) : option (list string) :=
  match mount, segs with
  | [], _ => Some segs
  | m :: mount', seg :: segs' => if same_text seg m then below mount' segs' else None
  | _ :: _, [] => None
  end.

(** A route of app.get answers HEAD requests as well. *)
Definition handles (m request : method) : bool :=
  match m, request with
  | GET, (GET | HEAD) | POST, POST | DELETE, DELETE => true
  | _, _ => false
  end.

Inductive target :=
| Handled (h : handler) (params : list (string * string))
| Served (dir : string) (rest : list string)    (* a file of a static directory *)
| Unhandled.                                    (* left to the middleware added later *)

(** [serves dir rest] tells whether express.static finds a file to send;
    it looks for one on GET and HEAD requests only and passes the request
    on otherwise. *)
Fixpoint dispatchIn (serves : string -> list string -> bool) (entries : list entry)
    (m : method) (segs : list string) : target :=
  match entries with
  | [] => Unhandled
  | Route m' pattern h :: rest =>
      match (if handles m' m then match_pattern pattern (strip_slash segs) else None) with
      | Some params => Handled h params
      | None => dispatchIn serves rest m segs
      end
  | Static mount dir :: rest =>
      match below mount segs with
      | Some below_mount =>
          if handles GET m && serves dir below_mount then Served dir below_mount
          else dispatchIn serves rest m segs
      | None => dispatchIn serves rest m segs
      end
  end.

Definition dispatch (serves : string -> list string -> bool) (m : method)
    (path : string) : target :=
  match segments path with
  | Some segs => dispatchIn serves table m segs
  | None => Unhandled
  end.

End Router.

(** ** Auxiliary definitions of the proofs *)

(** The value of a decimal numeral read from the left, from [acc]. *)
Fixpoint horner (d : Decimal.uint) (acc : Z) : Z :=
  match d with
  | Decimal.Nil => acc
  | Decimal.D0 d' => horner d' (10 * acc + 0)
  | Decimal.D1 d' => horner d' (10 * acc + 1)
  | Decimal.D2 d' => horner d' (10 * acc + 2)
  | Decimal.D3 d' => horner d' (10 * acc + 3)
  | Decimal.D4 d' => horner d' (10 * acc + 4)
  | Decimal.D5 d' => horner d' (10 * acc + 5)
  | Decimal.D6 d' => horner d' (10 * acc + 6)
  | Decimal.D7 d' => horner d' (10 * acc + 7)
  | Decimal.D8 d' => horner d' (10 * acc + 8)
  | Decimal.D9 d' => horner d' (10 * acc + 9)
  end.

(** The offsets that fs.createReadStream accepts: integers with
    [0 <= start <= end <= limit]. *)
Definition acceptable_offsets (limit : Z) (start end_ : JS.number) : bool :=
  match start, end_ with
  | JS.Num s, JS.Num e => (0 <=? s) && (s <=? e) && (e <=? limit)
  | _, _ => false
  end.

(** The answer of a route that S3 gates while S3 is off. *)
Definition s3_not_configured (r : http_response) : Prop :=
  exists message fallback,
    r = Respond 400 [] (Json (JError "S3 not configured" message fallback)).

(** The time to live of a signed URL or POST policy. *)
Definition ttl_of (e : aws_event) : option Z :=
  match e with
  | Signed _ t => Some t
  | SignedPost _ t => Some t
  | Sent _ => None
  end.

(** *** Relations between the states before and after a run *)

Section Lifting.
Context {W : Type}.

(** A computation of the modal lifts [R] when every run of it takes a
    state to one that [R] relates to it. *)
Definition lifts (R : relation (@UploadModal.State W)) {A : Type}
    (m : UploadModal.M A) : Prop :=
  forall st, R st (fst (m st)).

(** An event of the modal itself, not an exchange with the world. *)
Definition local_event (e : event) : Prop :=
  match e with
  | Fetch _ | Aws _ => False
  | _ => True
  end.

(** What the modal shows when the upload has failed for good: the toast
    of the onError callback of the mutation. *)
Definition terminalReport : event := Toast "Upload failed" true.

(** An event of the modal while the upload goes on. *)
Definition progress_event (e : event) : Prop :=
  local_event e /\ e <> terminalReport.

(** The parts that an event completes an upload with: the event is the
    request of the client to complete, or the command that the server
    sends to S3 to finalise the upload. *)
Definition completion_of (e : event) : option (list Part) :=
  match e with
  | Fetch (PostMultipartComplete _ _ ps) => Some ps
  | Aws (Sent (CompleteMultipartUploadCommand _ _ ps)) => Some ps
  | _ => None
  end.

Definition completions (tr : list event) : list (list Part) :=
  omap completion_of tr.

Definition not_completion (r : request) : Prop :=
  match r with
  | PostMultipartComplete _ _ _ => False
  | _ => True
  end.

(** What a request may make the server finalise: nothing, unless it is
    the request to complete, and then with the parts of the request. *)
Definition finalises_as_asked (r : request) (a : aws_event) : Prop :=
  match a with
  | Sent (CompleteMultipartUploadCommand _ _ ps) =>
      match r with
      | PostMultipartComplete _ _ ps' => ps = ps'
      | _ => False
      end
  | _ => True
  end.

Definition finalises_on_request (step : W -> request -> W * list aws_event * reply)
  : Prop :=
  forall w r, Forall (finalises_as_asked r) (snd (fst (step w r))).

(** The integrity token of a part was read from a non-empty ETag header. *)
Definition recorded_token (p : Part) : Prop :=
  exists header,
    JS.truthy (Some header) = true
    /\ ETag p = JS.remove_all (ascii_of_nat 34) header.

(** The parts recorded when the parts up to [last] have been uploaded, in
    the order of the model. *)
Definition parts_upto (last : Z) (ps : list Part) : Prop :=
  map PartNumber ps = seqZ 1 last /\ Forall recorded_token ps.

(** All part numbers of an upload of [file], each once, with its token. *)
Definition all_parts (file : File) (ps : list Part) : Prop :=
  map PartNumber ps ≡ₚ seqZ 1 (UploadModal.numPartsFor (size file))
  /\ Forall recorded_token ps.

(** A request that, when it asks to complete, carries all parts of [file]. *)
Definition whole_request (file : File) (r : request) : Prop :=
  match r with
  | PostMultipartComplete _ _ ps => all_parts file ps
  | _ => True
  end.

(** The trace grew by completions that carried all parts of [file]. *)
Definition completes_whole (file : File) (st st' : @UploadModal.State W) : Prop :=
  exists l,
    completions (UploadModal.trace st') = completions (UploadModal.trace st) ++ l
    /\ Forall (all_parts file) l.

(** What a computation added to the recorded parts when it is done; the
    model never runs out of fuel when it is not. *)
Definition records (numbers : list Z) (st : @UploadModal.State W)
    (run : @UploadModal.State W * outcome unit) : Prop :=
  match run with
  | (st', Done _) =>
      exists qs, UploadModal.parts st' = UploadModal.parts st ++ qs
                 /\ map PartNumber qs = numbers
                 /\ Forall recorded_token qs
  | (_, Thrown e) => e <> OutOfFuel
  end.

(** An attempt records its part, or leaves the recorded parts as they are. *)
Definition attempts (partNumber : Z) (st : @UploadModal.State W)
    (run : @UploadModal.State W * outcome unit) : Prop :=
  match run with
  | (st', Done _) => records [partNumber] st run
  | (st', Thrown e) => UploadModal.parts st' = UploadModal.parts st /\ e <> OutOfFuel
  end.

(** The trace grew, and not by the report of a failed upload. *)
Definition quiet (st st' : @UploadModal.State W) : Prop :=
  exists new,
    UploadModal.trace st' = UploadModal.trace st ++ new /\ terminalReport ∉ new.

(** The upload of a file of the browser-direct tier, as the chain of
    fallbacks of the specification: a tier is tried when the tier before
    it has failed, whatever the failure, and the server-relayed upload
    comes last. *)
Definition fallbackChain (step : W -> request -> W * list aws_event * reply)
    (file : File) (title : string) : UploadModal.M UploadModal.upload_result :=
  UploadModal.try_catch (UploadModal.trueBrowserDirectUpload step file title)
    (fun _ =>
       UploadModal.try_catch (UploadModal.uploadDirectlyToS3 step file title)
         (fun s3Error =>
            UploadModal.bind (UploadModal.emit (SetErrorMessage s3Error)) (fun _ =>
            UploadModal.bind (UploadModal.emit (Toast "S3 Upload Failed" true)) (fun _ =>
            UploadModal.standardUpload step file title)))).

(** The upload of a file of the server-assisted tier: the server-assisted
    upload, and the server-relayed one when it has failed. *)
Definition assistedChain (step : W -> request -> W * list aws_event * reply)
    (file : File) (title : string) : UploadModal.M UploadModal.upload_result :=
  UploadModal.try_catch (UploadModal.uploadDirectlyToS3 step file title)
    (fun s3Error =>
       UploadModal.bind (UploadModal.emit (SetErrorMessage s3Error)) (fun _ =>
       UploadModal.bind (UploadModal.emit (Toast "S3 Upload Failed" true)) (fun _ =>
       UploadModal.standardUpload step file title))).

(** What mutationFn does with an error before it rethrows it. *)
Definition noted {A : Type} (m : UploadModal.M A) : UploadModal.M A :=
  UploadModal.try_catch m
    (fun error =>
       UploadModal.bind (UploadModal.emit (W:=W) (SetErrorMessage error)) (fun _ =>
       UploadModal.throw error)).

End Lifting.

(** The errors of the server-relayed upload. *)
Definition relay_error (e : error) : Prop :=
  match e with
  | RelayFailed _ | RelayNetworkError | RelayInvalidResponse => True
  | _ => False
  end.

(** A file that the modal accepted, by the file input or by a drop. *)
Definition selectable (file : File) : Prop :=
  UploadModal.onDrop file = Some file
  \/ exists isProduction, UploadModal.handleFileChange isProduction file = Some file.

(** *** Orders, texts and routes *)

(** Every video has an identifier below the counter. *)
Definition idsBelowCounter (d : MemStorage.Data) : Prop :=
  exists n, MemStorage.nextVideoId d = Some n
            /\ Forall (fun video => Schema.Video.id video < n) (MemStorage.videos d).

(** A list in the order of decreasing keys. *)
Inductive Descending {A : Type} (key : A -> Z) : list A -> Prop :=
| Descending_nil : Descending key []
| Descending_cons (x : A) (l : list A) :
    Forall (fun y => key y <= key x) l -> Descending key l -> Descending key (x :: l).

(** The time of creation that the lists are ordered by. *)
Definition created (video : Schema.Video.t) : Z :=
  default 0 (Schema.Video.createdAt video).

(** A character that may stand in the file name of a Content-Disposition
    header without ending it: a small letter, a digit, an underscore or a
    dot. *)
Definition plain_char (c : ascii) : bool :=
  JSString.is_lower c || JSString.is_digit c || Ascii.eqb c "_" || Ascii.eqb c ".".

Fixpoint plain (s : string) : bool :=
  match s with
  | EmptyString => true
  | String c s' => plain_char c && plain s'
  end.

(** The waits of a trace, in milliseconds, and the part numbers of the
    URLs that it asks for. *)
Definition sleeps (tr : list event) : list Z :=
  omap (fun e => match e with Sleep ms => Some ms | _ => None end) tr.

Definition partUrlRequests (tr : list event) : list Z :=
  omap (fun e => match e with
                 | Fetch (GetPartUrl _ _ partNumber) => Some partNumber
                 | _ => None
                 end) tr.

Definition isPartUrl (r : request) : bool :=
  match r with
  | GetPartUrl _ _ _ => true
  | _ => false
  end.

(** The waits before the retries of a part that has [retriesLeft] of them. *)
Fixpoint backoff (retriesLeft : nat) : list Z :=
  match retriesLeft with
  | O => []
  | S retriesLeft' =>
      2 ^ (UploadModal.MAX_RETRIES - Z.of_nat retriesLeft' - 1) * 1000
      :: backoff retriesLeft'
  end.

(** Whether the synchronisation takes a file of the upload directory
    for one that the storage has. *)
Definition known (paths : list string) (videoFile : string) : bool :=
  StorageUtils.has paths videoFile
  || StorageUtils.has paths ("uploads/" +:+ videoFile).

Definition knownTo (st : MemStorage.t) (videoFile : string) : bool :=
  known (StorageUtils.existingPaths (MemStorage.getVideos st)) videoFile.

(** A request that reaches a route. *)
Definition requestFor (h : Router.handler) : Router.method * string :=
  match h with
  | Router.UploadUrl => (Router.GET, "/api/upload-url")
  | Router.MultipartInit => (Router.POST, "/api/multipart-upload/init")
  | Router.MultipartPartUrl => (Router.GET, "/api/multipart-upload/part-url")
  | Router.MultipartComplete => (Router.POST, "/api/multipart-upload/complete")
  | Router.DirectUploadConfig => (Router.POST, "/api/direct-upload/config")
  | Router.DirectUploadComplete => (Router.POST, "/api/direct-upload/complete")
  | Router.DirectUploadRegister => (Router.POST, "/api/direct-upload/register")
  | Router.VideosS3 => (Router.POST, "/api/videos/s3")
  | Router.TestFileSize => (Router.POST, "/api/test/file-size")
  | Router.TestFileSizeDisk => (Router.POST, "/api/test/file-size-disk")
  | Router.VideoFile => (Router.GET, "/videos/clip.mp4")
  | Router.ThumbnailFile => (Router.GET, "/thumbnails/api/thumbnail-clip.jpg")
  | Router.VideoDownload => (Router.GET, "/api/videos/1/download")
  | Router.Health => (Router.GET, "/api/health")
  | Router.Videos => (Router.GET, "/api/videos")
  | Router.RecentVideos => (Router.GET, "/api/videos/recent")
  | Router.FeaturedVideos => (Router.GET, "/api/videos/featured")
  | Router.ContestVideos => (Router.GET, "/api/videos/contest")
  | Router.AIVideos => (Router.GET, "/api/videos/ai")
  | Router.VideoById => (Router.GET, "/api/videos/1")
  | Router.PostVideo => (Router.POST, "/api/videos")
  | Router.DeleteVideo => (Router.DELETE, "/api/videos/1")
  | Router.VideoComments => (Router.GET, "/api/videos/1/comments")
  | Router.PostVideoComment => (Router.POST, "/api/videos/1/comments")
  | Router.FileProxy => (Router.GET, "/api/file/proxy")
  | Router.VideoStream => (Router.GET, "/api/videos/stream")
  end.

(** A text in which no small letter begins a word; [inWord] tells
    whether the character before the text is a word character. *)
Fixpoint capitalized (inWord : bool) (s : string) : bool :=
  match s with
  | EmptyString => true
  | String c s' =>
      (inWord || negb (JSString.is_lower c)) && capitalized (JSString.is_word c) s'
  end.

(** A text without dashes and underscores. *)
Fixpoint spaced (s : string) : bool :=
  match s with
  | EmptyString => true
  | String c s' => negb (Ascii.eqb c "-" || Ascii.eqb c "_") && spaced s'
  end.

(** ** Sample data *)

(** A world that cannot be reached. *)
Definition unreachable (w : unit) (r : request) : unit * list aws_event * reply :=
  (w, [], NetworkFailure).

(** A world in which every request is answered 200, with an upload
    initialised whatever the size of the file. *)
Definition acceptAll (w : unit) (r : request) : unit * list aws_event * reply :=
  (w, [], Response {| status := 200; ETagHeader := Some "etag";
                      json := Some (JInit "upload-id" "uploads/key") |}).

Definition startOf {W : Type} (w : W) : UploadModal.State :=
  {| UploadModal.world := w; UploadModal.trace := [];
     UploadModal.parts := []; UploadModal.failedParts := 0 |}.


(** The part with number [k], as a healthy store acknowledges it. *)
Definition samplePart (k : Z) : Part := {| PartNumber := k; ETag := "etag" |}.

(** The modal with the parts of a 120 MiB file recorded, but for part 7. *)
Definition gapState : @UploadModal.State Server :=
  {| UploadModal.world := System.emptyServer; UploadModal.trace := [];
     UploadModal.parts := map samplePart [1; 2; 3; 4; 5; 6; 8; 9; 10; 11; 12];
     UploadModal.failedParts := 0 |}.

(** An environment in which no variable is set. *)
Definition bareEnv : ProcessEnv := {|
  AWS_ACCESS_KEY_ID := ""; AWS_SECRET_ACCESS_KEY := "";
  AWS_REGION := ""; AWS_S3_BUCKET := "";
  MAX_FILE_SIZE_var := ""; REPLIT_DEPLOYMENT := ""
|}.

Definition sampleContent : bytes := replicate 1000 Byte.x2a.

(** A server that holds one 1000-byte video. *)
Definition sampleServer : Server :=
  {| store := {| uploads := {[ "clip.mp4" := sampleContent ]};
                 thumbnails := ∅; tempVideos := ∅ |};
     videos := [] |}.

(** *** Rows, buckets and directories *)

Definition sampleInsert : Schema.InsertVideo.t := {|
  Schema.InsertVideo.title := "Clip";
  Schema.InsertVideo.description := None;
  Schema.InsertVideo.duration := None;
  Schema.InsertVideo.filePath := "clip.mp4";
  Schema.InsertVideo.thumbnailPath := "thumbnail-clip.jpg";
  Schema.InsertVideo.category := None;
  Schema.InsertVideo.tags := None;
  Schema.InsertVideo.isFeatured := None;
  Schema.InsertVideo.isContest := None;
  Schema.InsertVideo.isAI := None;
  Schema.InsertVideo.userId := 1
|}.

Definition sampleVideo : Schema.Video.t :=
  snd (MemStorage.createVideo sampleInsert 0 (MemStorage.fresh true)).

(** A store that was loaded from a data file with one video and without
    the counters. *)
Definition lostCounter : MemStorage.t := {|
  MemStorage.data := {|
    MemStorage.videos := [sampleVideo];
    MemStorage.users := [];
    MemStorage.comments := [];
    MemStorage.nextVideoId := None;
    MemStorage.nextUserId := JS.NaN;
    MemStorage.nextCommentId := JS.NaN |};
  MemStorage.disk := None;
  MemStorage.writable := true
|}.

(** A bucket that lists two pages, the first with an object without a
    key, and the same bucket when the second request fails. *)
Definition twoPages (prefix : string) (token : option string)
  : result S3Listing.ListObjectsV2Output :=
  match token with
  | None =>
      Ok {| S3Listing.Contents := Some [Some "videos/a.mp4"; None];
            S3Listing.IsTruncated := Some true;
            S3Listing.NextContinuationToken := Some "t1" |}
  | Some _ =>
      Ok {| S3Listing.Contents := Some [Some "videos/b.mp4"];
            S3Listing.IsTruncated := None;
            S3Listing.NextContinuationToken := None |}
  end.

Definition brokenSecondPage (prefix : string) (token : option string)
  : result S3Listing.ListObjectsV2Output :=
  match token with
  | None => twoPages prefix None
  | Some _ => Throw "SlowDown"
  end.

(** An upload directory with a video that no record knows, a file that
    is too small to be one and a file that is not a video. *)
Definition sampleDirectory : LocalStore := {|
  uploads := <[ "holiday.mp4" := repeat Byte.x00 2048 ]>
             (<[ "broken.mp4" := repeat Byte.x00 10 ]>
              (<[ "notes.txt" := repeat Byte.x00 4096 ]> ∅));
  thumbnails := ∅;
  tempVideos := ∅
|}.

(** An environment in which only the limit of the size of a file is set. *)
Definition limitEnv (limit : string) : ProcessEnv := {|
  AWS_ACCESS_KEY_ID := ""; AWS_SECRET_ACCESS_KEY := ""; AWS_REGION := "";
  AWS_S3_BUCKET := ""; MAX_FILE_SIZE_var := limit; REPLIT_DEPLOYMENT := ""
|}.

(** A store that was loaded from a data file without the counter of the
    comments. *)
Definition lostCommentCounter : MemStorage.t := {|
  MemStorage.data := {|
    MemStorage.videos := [sampleVideo];
    MemStorage.users := [];
    MemStorage.comments := [];
    MemStorage.nextVideoId := Some 2;
    MemStorage.nextUserId := JS.Num 1;
    MemStorage.nextCommentId := JS.NaN |};
  MemStorage.disk := None;
  MemStorage.writable := true
|}.

Definition sampleComment : Schema.InsertComment.t := {|
  Schema.InsertComment.content := "Nice";
  Schema.InsertComment.videoId := 1;
  Schema.InsertComment.userId := 1
|}.

(** * Properties *)

(** ** Decimal numerals: parseInt reads back what a template literal prints *)

Lemma leading_digits_uint (d : Decimal.uint) (acc : Z) :
  JS.leading_digits (NilEmpty.string_of_uint d) (Some acc) = Some (horner d acc).
Proof.
  revert acc. induction d; intros acc; [reflexivity | ..]; simpl; apply IHd.
Qed.

Lemma of_uint_acc_horner (d : Decimal.uint) (acc : positive) :
  Z.pos (Pos.of_uint_acc d acc) = horner d (Z.pos acc).
Proof.
  revert acc. induction d; intros acc; simpl; [reflexivity | ..];
    rewrite IHd; f_equal; lia.
Qed.

Lemma of_uint_horner (d : Decimal.uint) : Z.of_N (Pos.of_uint d) = horner d 0.
Proof.
  induction d; simpl; [reflexivity | assumption | ..];
    apply of_uint_acc_horner.
Qed.

Lemma horner_to_uint (p : positive) : horner (Pos.to_uint p) 0 = Z.pos p.
Proof.
  rewrite <- of_uint_horner, DecimalPos.Unsigned.of_to. reflexivity.
Qed.

Lemma show_nonneg (s : Z) :
  0 <= s ->
  exists d, d <> Decimal.Nil
            /\ JS.show (JS.Num s) = NilEmpty.string_of_uint d
            /\ horner d 0 = s.
Proof.
  intros Hs. destruct s as [|p|p]; [| | lia].
  - exists (Decimal.D0 Decimal.Nil). repeat split; discriminate.
  - exists (Pos.to_uint p).
    assert (Hp := horner_to_uint p).
    assert (Hnil : Pos.to_uint p <> Decimal.Nil).
    { intros E. rewrite E in Hp. discriminate. }
    repeat split; [assumption | | assumption].
    unfold JS.show. simpl. destruct (Pos.to_uint p); [congruence | reflexivity ..].
Qed.


Lemma leading_digits_uint_app (d : Decimal.uint) (acc : Z) (rest : string) :
  (forall a, JS.leading_digits rest (Some a) = Some a) ->
  JS.leading_digits (NilEmpty.string_of_uint d +:+ rest) (Some acc)
  = Some (horner d acc).
Proof.
  intros Hrest. revert acc.
  induction d; intros acc; [apply Hrest | ..]; simpl; apply IHd.
Qed.

Lemma parseInt_uint (d : Decimal.uint) :
  d <> Decimal.Nil ->
  JS.parseInt (NilEmpty.string_of_uint d) = JS.Num (horner d 0).
Proof.
  intros Hd. destruct d; [congruence | ..];
    unfold JS.parseInt; simpl; rewrite leading_digits_uint;
    f_equal; destruct (horner _ _); reflexivity.
Qed.

Lemma parseInt_show (s : Z) : 0 <= s -> JS.parseInt (JS.show (JS.Num s)) = JS.Num s.
Proof.
  intros Hs. destruct (show_nonneg s Hs) as (d & Hd & -> & <-).
  apply parseInt_uint, Hd.
Qed.

(** An integer below 2^53 is a number as it stands. *)
Lemma of_integer_small (v : Z) : Z.abs v < 2 ^ 53 -> JS.of_integer v = JS.Num v.
Proof.
  intros Hv. unfold JS.of_integer.
  destruct (Z.ltb_spec (Z.abs v) (2 ^ 53)); [reflexivity | lia].
Qed.

Lemma parseIntAuto_uint (d : Decimal.uint) :
  d <> Decimal.Nil ->
  JS.parseIntAuto (NilEmpty.string_of_uint d) = JS.of_integer (horner d 0).
Proof.
  intros Hd. unfold JS.parseIntAuto. generalize JS.of_integer. intros f.
  destruct d as [|d|d|d|d|d|d|d|d|d|d]; [congruence | ..];
    try (simpl; rewrite leading_digits_uint;
         f_equal; destruct (horner _ _); reflexivity).
  destruct d; simpl; try rewrite leading_digits_uint;
    f_equal; try destruct (horner _ _); reflexivity.
Qed.

Lemma parseIntAuto_show (s : Z) :
  0 <= s < 2 ^ 53 -> JS.parseIntAuto (JS.show (JS.Num s)) = JS.Num s.
Proof.
  intros Hs. destruct (show_nonneg s (proj1 Hs)) as (d & Hd & -> & <-).
  rewrite parseIntAuto_uint by exact Hd. apply of_integer_small. lia.
Qed.

Lemma split_uint_dash (d : Decimal.uint) :
  JS.split "-" (NilEmpty.string_of_uint d +:+ "-")
  = [NilEmpty.string_of_uint d; ""].
Proof.
  induction d; [reflexivity | ..]; simpl; rewrite IHd; reflexivity.
Qed.

Lemma split_uint (d : Decimal.uint) :
  JS.split "-" (NilEmpty.string_of_uint d) = [NilEmpty.string_of_uint d].
Proof.
  induction d; [reflexivity | ..]; simpl; rewrite IHd; reflexivity.
Qed.

Lemma split_uint_dash_uint (d1 d2 : Decimal.uint) :
  JS.split "-" (NilEmpty.string_of_uint d1 +:+ String "-" (NilEmpty.string_of_uint d2))
  = [NilEmpty.string_of_uint d1; NilEmpty.string_of_uint d2].
Proof.
  induction d1; simpl in *; [rewrite split_uint; reflexivity | ..];
    rewrite IHd1; reflexivity.
Qed.

Lemma uint_string_truthy (d : Decimal.uint) :
  d <> Decimal.Nil -> JS.truthy (Some (NilEmpty.string_of_uint d)) = true.
Proof. destruct d; [congruence | reflexivity ..]. Qed.

(** The offsets read from [bytes=s-]. *)
Lemma range_offsets_open (fileSize s : Z) :
  0 <= s ->
  Routes.range_offsets fileSize ("bytes=" +:+ JS.show (JS.Num s) +:+ "-")
  = (JS.Num s, JS.Num (fileSize - 1)).
Proof.
  intros Hs. destruct (show_nonneg s Hs) as (d & Hd & E & Hv).
  unfold Routes.range_offsets. rewrite E. simpl JS.remove_first.
  rewrite split_uint_dash. simpl. rewrite parseInt_uint by assumption.
  rewrite Hv. reflexivity.
Qed.

(** The offsets read from [bytes=s-e]. *)
Lemma range_offsets_closed (fileSize s e : Z) :
  0 <= s -> 0 <= e ->
  Routes.range_offsets fileSize
    ("bytes=" +:+ JS.show (JS.Num s) +:+ "-" +:+ JS.show (JS.Num e))
  = (JS.Num s, JS.Num e).
Proof.
  intros Hs He.
  destruct (show_nonneg s Hs) as (d1 & Hd1 & E1 & Hv1).
  destruct (show_nonneg e He) as (d2 & Hd2 & E2 & Hv2).
  unfold Routes.range_offsets. rewrite E1, E2. simpl JS.remove_first.
  rewrite split_uint_dash_uint.
  cbn [lookup list_lookup default from_option id].
  rewrite uint_string_truthy by assumption.
  rewrite !parseInt_uint by assumption. rewrite Hv1, Hv2. reflexivity.
Qed.

(** ** Delivery of a local file *)

Lemma truthy_bytes_header (rest : string) :
  JS.truthy (Some ("bytes=" +:+ rest)) = true.
Proof. reflexivity. Qed.

(** A range that lies within the file gets the matching partial content. *)
Lemma stream_closed_range (content : bytes) (s e : Z) :
  0 <= s <= e -> e <= offsetLimit content ->
  Routes.streamLocalVideoFile content
    (Some ("bytes=" +:+ JS.show (JS.Num s) +:+ "-" +:+ JS.show (JS.Num e)))
  = Routes.Streamed
      (Respond 206
         [("Content-Range",
            "bytes " +:+ JS.show (JS.Num s) +:+ "-" +:+ JS.show (JS.Num e) +:+ "/"
            +:+ JS.show (JS.Num (Z.of_nat (length content))));
          ("Accept-Ranges", "bytes");
          ("Content-Length", JS.show (JS.Num (e - s + 1)));
          ("Content-Type", "video/mp4")]
         (Stream (take (Z.to_nat (e - s + 1)) (drop (Z.to_nat s) content)))).
Proof.
  intros Hse Hlimit. unfold Routes.streamLocalVideoFile.
  rewrite truthy_bytes_header.
  cbn [default from_option id].
  rewrite range_offsets_closed by lia.
  unfold createReadStream.
  replace (0 <=? s) with true by (symmetry; apply Z.leb_le; lia).
  replace (0 <=? e) with true by (symmetry; apply Z.leb_le; lia).
  replace (s <=? e) with true by (symmetry; apply Z.leb_le; lia).
  replace (e <=? offsetLimit content) with true by (symmetry; apply Z.leb_le; lia).
  reflexivity.
Qed.

Lemma stream_open_range (content : bytes) (s : Z) :
  0 <= s < Z.of_nat (length content) ->
  Routes.streamLocalVideoFile content (Some ("bytes=" +:+ JS.show (JS.Num s) +:+ "-"))
  = Routes.Streamed
      (Respond 206
         [("Content-Range",
            "bytes " +:+ JS.show (JS.Num s) +:+ "-"
            +:+ JS.show (JS.Num (Z.of_nat (length content) - 1)) +:+ "/"
            +:+ JS.show (JS.Num (Z.of_nat (length content))));
          ("Accept-Ranges", "bytes");
          ("Content-Length", JS.show (JS.Num (Z.of_nat (length content) - s)));
          ("Content-Type", "video/mp4")]
         (Stream (drop (Z.to_nat s) content))).
Proof.
  intros Hs. unfold Routes.streamLocalVideoFile.
  rewrite truthy_bytes_header.
  cbn [default from_option id].
  rewrite range_offsets_open by lia.
  unfold createReadStream.
  replace (0 <=? s) with true by (symmetry; apply Z.leb_le; lia).
  replace (0 <=? Z.of_nat (length content) - 1) with true
    by (symmetry; apply Z.leb_le; lia).
  replace (s <=? Z.of_nat (length content) - 1) with true
    by (symmetry; apply Z.leb_le; lia).
  replace (Z.of_nat (length content) - 1 <=? offsetLimit content) with true
    by (symmetry; apply Z.leb_le; unfold offsetLimit; lia).
  cbn [andb JS.sub JS.add].
  rewrite take_ge by (rewrite length_drop; lia).
  do 4 f_equal. do 2 f_equal. f_equal. f_equal. f_equal. lia.
Qed.

(** C7.  A stored local object is delivered with the range semantics of the
    specification: on a 1000-byte object, [Range: bytes=100-199] is answered
    with status 206, [Content-Range: bytes 100-199/1000],
    [Content-Length: 100] and the 100 bytes at offsets 100 to 199; a request
    without Range header gets status 200 and the whole file with its length;
    an open-ended range [bytes=s-] is served from offset [s] to the last
    byte; and every range [bytes=s-e] with [s <= e] gets the bytes from [s]
    to [e]. *)
Theorem C7_range_requests (s3 : S3.t) (srv : Server) (filename : string)
    (content : bytes) :
  uploads (store srv) !! filename = Some content ->
  let size := Z.of_nat (length content) in
  (length content = 1000%nat ->
   Routes.get_video s3 srv filename (Some "bytes=100-199")
   = ([], Respond 206
            [("Content-Range", "bytes 100-199/1000");
             ("Accept-Ranges", "bytes");
             ("Content-Length", "100");
             ("Content-Type", "video/mp4")]
            (Stream (take 100 (drop 100 content))))
   /\ length (take 100 (drop 100 content)) = 100%nat)
  /\ Routes.get_video s3 srv filename None
     = ([], Respond 200
              [("Content-Length", JS.show (JS.Num size));
               ("Content-Type", "video/mp4")]
              (Stream content))
  /\ (forall s, 0 <= s < size ->
      Routes.get_video s3 srv filename
        (Some ("bytes=" +:+ JS.show (JS.Num s) +:+ "-"))
      = ([], Respond 206
               [("Content-Range",
                  "bytes " +:+ JS.show (JS.Num s) +:+ "-"
                  +:+ JS.show (JS.Num (size - 1)) +:+ "/" +:+ JS.show (JS.Num size));
                ("Accept-Ranges", "bytes");
                ("Content-Length", JS.show (JS.Num (size - s)));
                ("Content-Type", "video/mp4")]
               (Stream (drop (Z.to_nat s) content))))
  /\ (forall s e, 0 <= s <= e -> e < size ->
      Routes.get_video s3 srv filename
        (Some ("bytes=" +:+ JS.show (JS.Num s) +:+ "-" +:+ JS.show (JS.Num e)))
      = ([], Respond 206
               [("Content-Range",
                  "bytes " +:+ JS.show (JS.Num s) +:+ "-" +:+ JS.show (JS.Num e)
                  +:+ "/" +:+ JS.show (JS.Num size));
                ("Accept-Ranges", "bytes");
                ("Content-Length", JS.show (JS.Num (e - s + 1)));
                ("Content-Type", "video/mp4")]
               (Stream (take (Z.to_nat (e - s + 1)) (drop (Z.to_nat s) content))))
      /\ Z.of_nat (length (take (Z.to_nat (e - s + 1)) (drop (Z.to_nat s) content)))
         = e - s + 1).
Proof.
  intros Hfile size. unfold Routes.get_video. rewrite Hfile.
  split; [| split; [| split]].
  - intros Hlen. split.
    + unfold Routes.streamLocalVideoFile, createReadStream, offsetLimit.
      rewrite Hlen. reflexivity.
    + rewrite length_take, length_drop. lia.
  - reflexivity.
  - intros s Hs. rewrite stream_open_range by assumption. reflexivity.
  - intros s e Hse He. split.
    + rewrite stream_closed_range by (unfold offsetLimit; lia). reflexivity.
    + rewrite length_take, length_drop. subst size. lia.
Qed.

Lemma C7_witness :
  uploads (store sampleServer) !! "clip.mp4" = Some sampleContent
  /\ length sampleContent = 1000%nat
  /\ Routes.get_video (System.s3 System.healthy) sampleServer "clip.mp4"
       (Some "bytes=100-199")
     = ([], Respond 206
              [("Content-Range", "bytes 100-199/1000");
               ("Accept-Ranges", "bytes");
               ("Content-Length", "100");
               ("Content-Type", "video/mp4")]
              (Stream (take 100 (drop 100 sampleContent)))).
Proof.
  assert (H : uploads (store sampleServer) !! "clip.mp4" = Some sampleContent)
    by (vm_compute; reflexivity).
  split; [exact H |]. split; [reflexivity |].
  exact (proj1 (proj1 (C7_range_requests _ _ _ _ H) eq_refl)).
Defined.

Lemma createReadStream_acceptable (content : bytes) (start end_ : JS.number) :
  createReadStream content start end_
  = if acceptable_offsets (offsetLimit content) start end_
    then match start, end_ with
         | JS.Num s, JS.Num e =>
             Some (take (Z.to_nat (e - s + 1)) (drop (Z.to_nat s) content))
         | _, _ => None
         end
    else None.
Proof.
  destruct start as [|s|], end_ as [|e|]; try reflexivity.
  unfold createReadStream, acceptable_offsets.
  destruct (0 <=? s) eqn:Hs, (s <=? e) eqn:Hse, (0 <=? e) eqn:He; try reflexivity.
  apply Z.leb_le in Hs, Hse. apply Z.leb_gt in He. lia.
Qed.

Lemma streamLocalVideoFile_status (content : bytes) (range : option string) (r : http_response) :
  Routes.streamLocalVideoFile content range = Routes.Streamed r ->
  status_of r = 200 \/ status_of r = 206.
Proof.
  unfold Routes.streamLocalVideoFile.
  destruct (JS.truthy range).
  - destruct (Routes.range_offsets _ _) as [start end_].
    destruct (createReadStream content start end_); [| discriminate].
    intros [= <-]. right. reflexivity.
  - intros [= <-]. left. reflexivity.
Qed.

Lemma get_video_status (s3 : S3.t) (srv : Server) (filename : string)
    (range : option string) :
  let st := status_of (snd (Routes.get_video s3 srv filename range)) in
  st = 200 \/ st = 206 \/ st = 302 \/ st = 404 \/ st = 500.
Proof.
  unfold Routes.get_video.
  destruct (uploads (store srv) !! filename) as [content|].
  - destruct (Routes.streamLocalVideoFile content range) as [r|] eqn:E; simpl.
    + destruct (streamLocalVideoFile_status _ _ _ E); auto.
    + auto 6.
  - destruct (S3.USE_S3 s3); simpl; [| auto 6].
    destruct (S3.fileExistsInS3 s3 _) as [ev1 [[|]|m]]; simpl; [| auto 6 ..].
    destruct (S3.getPresignedUrl s3 _ _) as [ev2 [url|m]]; simpl; auto 6.
Qed.

(** What a request with a Range header for a file of the upload directory
    is answered with, by the offsets read from the header. *)
Lemma get_video_range (s3 : S3.t) (srv : Server) (filename range : string)
    (content : bytes) :
  uploads (store srv) !! filename = Some content ->
  JS.truthy (Some range) = true ->
  let size := Z.of_nat (length content) in
  let start := fst (Routes.range_offsets size range) in
  let end_ := snd (Routes.range_offsets size range) in
  (acceptable_offsets (offsetLimit content) start end_ = true ->
   exists s e,
     start = JS.Num s /\ end_ = JS.Num e
     /\ 0 <= s <= e /\ e <= offsetLimit content
     /\ Routes.get_video s3 srv filename (Some range)
        = ([], Respond 206
                 [("Content-Range",
                    "bytes " +:+ JS.show start +:+ "-" +:+ JS.show end_ +:+ "/"
                    +:+ JS.show (JS.Num size));
                  ("Accept-Ranges", "bytes");
                  ("Content-Length", JS.show (JS.Num (e - s + 1)));
                  ("Content-Type", "video/mp4")]
                 (Stream (take (Z.to_nat (e - s + 1)) (drop (Z.to_nat s) content)))))
  /\ (acceptable_offsets (offsetLimit content) start end_ = false ->
      Routes.get_video s3 srv filename (Some range)
      = ([], Respond 500 [] (Text "Error processing video request"))).
Proof.
  intros Hfile Hrange size start end_.
  split.
  - intros Hok. unfold Routes.get_video. rewrite Hfile.
    unfold Routes.streamLocalVideoFile. rewrite Hrange.
    cbn [default from_option id]. fold size.
    destruct (Routes.range_offsets size range) as [a b] eqn:E.
    subst start end_. cbn [fst snd] in *.
    rewrite createReadStream_acceptable, Hok.
    destruct a as [|s|], b as [|e|]; try discriminate.
    exists s, e.
    unfold acceptable_offsets in Hok.
    apply andb_true_iff in Hok as [Hok He]. apply andb_true_iff in Hok as [Hs Hse].
    apply Z.leb_le in Hs, Hse, He.
    repeat split; assumption.
  - intros Hbad. unfold Routes.get_video. rewrite Hfile.
    unfold Routes.streamLocalVideoFile. rewrite Hrange.
    cbn [default from_option id]. fold size.
    destruct (Routes.range_offsets size range) as [a b] eqn:E.
    subst start end_. cbn [fst snd] in *.
    rewrite createReadStream_acceptable, Hbad. reflexivity.
Qed.




(** ** Resolution of a delivery request *)

Lemma get_video_local (s3 : S3.t) (srv : Server) (filename : string)
    (range : option string) (content : bytes) :
  uploads (store srv) !! filename = Some content ->
  Routes.get_video s3 srv filename range
  = ([], match Routes.streamLocalVideoFile content range with
         | Routes.Streamed r => r
         | Routes.Threw => Respond 500 [] (Text "Error processing video request")
         end).
Proof.
  intros Hfile. unfold Routes.get_video. rewrite Hfile.
  destruct (Routes.streamLocalVideoFile content range); reflexivity.
Qed.

(** What the helper streams is a segment of the file. *)
Lemma streamLocalVideoFile_segment (content : bytes) (range : option string)
    (r : http_response) :
  Routes.streamLocalVideoFile content range = Routes.Streamed r ->
  exists st headers n k, r = Respond st headers (Stream (take n (drop k content))).
Proof.
  unfold Routes.streamLocalVideoFile.
  destruct (JS.truthy range).
  - destruct (Routes.range_offsets _ _) as [start end_].
    rewrite createReadStream_acceptable.
    destruct (acceptable_offsets _ _ _); [| discriminate].
    destruct start as [|s|], end_ as [|e|]; try discriminate.
    intros [= <-]. eexists _, _, _, _. reflexivity.
  - intros [= <-]. exists 200, [("Content-Length", JS.show (JS.Num (Z.of_nat (length content))));
                                ("Content-Type", "video/mp4")], (length content), 0%nat.
    rewrite drop_0, firstn_all. reflexivity.
Qed.



(** ** The gate of the S3 routes *)

Lemma checkS3Configuration_set (env : ProcessEnv) :
  S3Enabled.checkS3Configuration env = true
  <-> AWS_ACCESS_KEY_ID env <> "" /\ AWS_SECRET_ACCESS_KEY env <> ""
      /\ AWS_REGION env <> "" /\ AWS_S3_BUCKET env <> "".
Proof.
  unfold S3Enabled.checkS3Configuration.
  rewrite !andb_true_iff, !negb_true_iff.
  destruct (String.eqb_spec (AWS_ACCESS_KEY_ID env) ""),
           (String.eqb_spec (AWS_SECRET_ACCESS_KEY env) ""),
           (String.eqb_spec (AWS_REGION env) ""),
           (String.eqb_spec (AWS_S3_BUCKET env) "");
    intuition congruence.
Qed.

(** The relayed upload while S3 is off: the file that multer stored stays in
    the upload directory, nothing is asked of AWS, and the video is recorded
    under the local file name. *)
Lemma processVideoUpload_local (s3 : S3.t) (rt : Runtime) (srv : Server)
    (filename mimetype : string) (title duration : option string) :
  S3.USE_S3 s3 = false ->
  let out := Routes.processVideoUpload s3 rt srv (Some (filename, mimetype))
               title duration in
  let valid :=
    Routes.insertVideoSchema_ok title
      (JS.parseIntAuto (if JS.truthy duration then default "" duration else "0")) in
  uploads (store (fst (fst out))) = uploads (store srv)
  /\ snd (fst out) = []
  /\ (valid = true -> databaseUp rt = true ->
      exists v,
        snd out = Respond 201 [] (Json (JVideo v))
        /\ filePath v = filename
        /\ thumbnailPath v = "thumbnail-" +:+ randomUUID rt 0%nat +:+ ".jpg"
        /\ videos (fst (fst out)) = videos srv ++ [v])
  /\ (valid = true -> databaseUp rt = false ->
      snd out = Respond 500 [] (Json (JMessage "Failed to upload video")))
  /\ (valid = false ->
      snd out = Respond 400 [] (Json (JMessage "Validation error"))).
Proof.
  intros Hoff out valid. subst out. unfold Routes.processVideoUpload.
  rewrite Hoff. fold valid.
  unfold Routes.generateThumbnail, Routes.createVideo.
  destruct (ffmpeg rt _), valid, (databaseUp rt); cbn;
    repeat split; try discriminate; intros _ _; eexists; repeat split.
Qed.




(** ** Expiry of signed URLs *)

Lemma sign_ttl (aws : AWS) (c : aws_command) (expiresIn : Z) (e : aws_event) (t : Z) :
  e ∈ fst (S3Enabled.sign aws c expiresIn) -> ttl_of e = Some t -> t = expiresIn.
Proof.
  unfold S3Enabled.sign. destruct (getSignedUrl aws c expiresIn); simpl.
  - intros ->%list_elem_of_singleton [= <-]. reflexivity.
  - intros []%elem_of_nil.
Qed.

Lemma partUrls_ttl (env : ProcessEnv) (aws : AWS) (key uploadId : string)
    (expiresIn : Z) (partNumbers : list Z) (e : aws_event) (t : Z) :
  e ∈ fst (S3Enabled.partUrls env aws key uploadId expiresIn partNumbers) ->
  ttl_of e = Some t -> t = expiresIn.
Proof.
  induction partNumbers as [|n rest IH]; simpl.
  - intros []%elem_of_nil.
  - unfold S3Enabled.getMultipartPresignedUrl.
    destruct (negb (S3Enabled.configured env)); simpl.
    + intros []%elem_of_nil.
    + destruct (S3Enabled.sign aws _ _) as [ev [url|m]] eqn:E.
      * destruct (S3Enabled.partUrls env aws key uploadId expiresIn rest) as [ev' r].
        simpl in *. intros [Hin | Hin]%elem_of_app Ht.
        -- eapply sign_ttl; [rewrite E; exact Hin | exact Ht].
        -- apply IH; assumption.
      * simpl. intros Hin Ht. eapply sign_ttl; [rewrite E; exact Hin | exact Ht].
Qed.

Lemma upload_url_ttl (env : ProcessEnv) (aws : AWS) (uuid : nat -> string)
    (rt : Runtime) (a b : string) (e : aws_event) (t : Z) :
  e ∈ fst (Routes.upload_url (S3Enabled.module env aws uuid) rt a b) ->
  ttl_of e = Some t -> t = 3600.
Proof.
  unfold Routes.upload_url. cbn [S3.USE_S3 S3.generatePresignedUploadUrl S3Enabled.module].
  destruct (negb (S3Enabled.checkS3Configuration env)) eqn:Hc; [intros []%elem_of_nil |].
  destruct (_ || _); [intros []%elem_of_nil |].
  unfold S3Enabled.generatePresignedUploadUrl, S3Enabled.configured. rewrite Hc.
  cbn [default from_option id].
  destruct (S3Enabled.sign aws _ 3600) as [ev [url|m]] eqn:E; simpl;
    intros Hin Ht; eapply sign_ttl; try (rewrite E; exact Hin); exact Ht.
Qed.

Lemma part_url_ttl (env : ProcessEnv) (aws : AWS) (uuid : nat -> string)
    (a b c : string) (e : aws_event) (t : Z) :
  e ∈ fst (Routes.multipart_part_url (S3Enabled.module env aws uuid) a b c) ->
  ttl_of e = Some t -> t = 10800.
Proof.
  unfold Routes.multipart_part_url.
  cbn [S3.USE_S3 S3.getMultipartPresignedUrl S3Enabled.module].
  destruct (negb (S3Enabled.checkS3Configuration env)) eqn:Hc; [intros []%elem_of_nil |].
  destruct (_ || _); [intros []%elem_of_nil |].
  unfold S3Enabled.getMultipartPresignedUrl, S3Enabled.configured. rewrite Hc.
  cbn [default from_option id].
  destruct (S3Enabled.sign aws _ _) as [ev [url|m]] eqn:E; simpl;
    intros Hin Ht;
    apply (sign_ttl aws (UploadPartCommand (normalizeS3Key a) b (JS.parseIntAuto c))
             Routes.partUrlExpiryTime e t);
    [rewrite E; exact Hin | exact Ht | rewrite E; exact Hin | exact Ht].
Qed.

Lemma directConfig_ttl (env : ProcessEnv) (aws : AWS) (uuid : nat -> string)
    (fileName fileType : string) (fileSize : JS.number) (e : aws_event) (t : Z) :
  e ∈ fst (S3Enabled.getDirectBrowserUploadConfig env aws uuid fileName fileType fileSize) ->
  ttl_of e = Some t -> t = 3600 \/ t = 86400.
Proof.
  unfold S3Enabled.getDirectBrowserUploadConfig.
  destruct (negb (S3Enabled.configured env)) eqn:Hc; [intros []%elem_of_nil |].
  set (expiresIn := if JS.gt fileSize (JS.Num (200 * 1024 * 1024)) then 24 * 3600 else 3600).
  assert (Hexp : expiresIn = 3600 \/ expiresIn = 86400).
  { subst expiresIn. destruct (JS.gt _ _); auto. }
  destruct (JS.gt fileSize (JS.Num (150 * 1024 * 1024))).
  - unfold S3Enabled.generatePresignedPost. rewrite Hc.
    destruct (createPresignedPost aws _ _) as [[url fieldsKey]|m]; simpl.
    + intros ->%list_elem_of_singleton [= <-]. exact Hexp.
    + intros []%elem_of_nil.
  - cbn [negb andb].
    destruct (JS.gt fileSize (JS.Num (50 * 1024 * 1024))).
    + unfold S3Enabled.initiateMultipartUpload. rewrite Hc.
      destruct (send aws _) as [[uploadId body]|m]; simpl; [| intros []%elem_of_nil].
      destruct (S3Enabled.partUrls env aws _ _ expiresIn _) as [ev' r] eqn:E.
      assert (Hparts : forall e t, e ∈ ev' -> ttl_of e = Some t -> t = expiresIn).
      { intros e' t' Hin Ht.
        eapply partUrls_ttl; [rewrite E; exact Hin | exact Ht]. }
      destruct r; simpl; intros [-> | Hin]%elem_of_cons Ht;
        try discriminate; rewrite (Hparts _ _ Hin Ht); exact Hexp.
    + unfold S3Enabled.generatePresignedUploadUrl. rewrite Hc.
      cbn [default from_option id].
      match goal with
      | |- context [S3Enabled.sign aws ?c expiresIn] =>
          assert (Hs := sign_ttl aws c expiresIn e t);
          destruct (S3Enabled.sign aws c expiresIn) as [ev [url|m]]
      end; simpl in *; intros Hin Ht; rewrite (Hs Hin Ht); exact Hexp.
Qed.

Lemma direct_upload_config_ttl (env : ProcessEnv) (aws : AWS) (uuid : nat -> string)
    (a b : string) (fileSize : option Z) (e : aws_event) (t : Z) :
  e ∈ fst (Routes.direct_upload_config (S3Enabled.module env aws uuid) a b fileSize) ->
  ttl_of e = Some t -> t = 3600 \/ t = 86400.
Proof.
  unfold Routes.direct_upload_config.
  cbn [S3.USE_S3 S3.configureS3CorsForDirectUploads S3.getDirectBrowserUploadConfig
       S3Enabled.module].
  destruct (negb (S3Enabled.checkS3Configuration env)); [intros []%elem_of_nil |].
  destruct (S3Enabled.configureS3CorsForDirectUploads env aws) as [ev0 r0] eqn:E0.
  assert (Hcors : forall e t, e ∈ ev0 -> ttl_of e = Some t -> False).
  { revert E0. unfold S3Enabled.configureS3CorsForDirectUploads.
    destruct (negb (S3Enabled.configured env)).
    - intros [= <- _] e' t' []%elem_of_nil.
    - destruct (send aws PutBucketCorsCommand); intros [= <- _] e' t' Hin Ht.
      + apply list_elem_of_singleton in Hin. subst e'. discriminate.
      + apply elem_of_nil in Hin. exact Hin. }
  destruct fileSize as [n|]; [| simpl; intros Hin Ht; destruct (Hcors _ _ Hin Ht)].
  destruct (_ || _); [simpl; intros Hin Ht; destruct (Hcors _ _ Hin Ht) |].
  destruct (S3Enabled.getDirectBrowserUploadConfig env aws uuid a b (JS.Num n))
    as [ev r] eqn:E.
  assert (Hcfg : forall e t, e ∈ ev -> ttl_of e = Some t -> t = 3600 \/ t = 86400).
  { intros e' t' Hin Ht. eapply directConfig_ttl; [rewrite E; exact Hin | exact Ht]. }
  destruct r; simpl; intros [Hin | Hin]%elem_of_app Ht;
    solve [destruct (Hcors _ _ Hin Ht) | exact (Hcfg _ _ Hin Ht)].
Qed.

Lemma presigned_get_ttl (env : ProcessEnv) (aws : AWS) (key : string) (expiresIn : Z)
    (e : aws_event) (t : Z) :
  e ∈ fst (S3Enabled.fileExistsInS3 env aws key)
      ++ fst (S3Enabled.getPresignedUrl env aws key (Some expiresIn)) ->
  ttl_of e = Some t -> t = expiresIn.
Proof.
  intros [Hin | Hin]%elem_of_app Ht.
  - revert Hin. unfold S3Enabled.fileExistsInS3.
    destruct (negb (S3Enabled.configured env)); [intros []%elem_of_nil |].
    destruct (send aws _); simpl.
    + intros ->%list_elem_of_singleton. discriminate.
    + intros []%elem_of_nil.
  - revert Hin. unfold S3Enabled.getPresignedUrl.
    destruct (negb (S3Enabled.configured env)); [intros []%elem_of_nil |].
    intros Hin. exact (sign_ttl _ _ _ _ _ Hin Ht).
Qed.

Lemma get_video_ttl (env : ProcessEnv) (aws : AWS) (uuid : nat -> string)
    (srv : Server) (filename : string) (range : option string) (e : aws_event) (t : Z) :
  e ∈ fst (Routes.get_video (S3Enabled.module env aws uuid) srv filename range) ->
  ttl_of e = Some t -> t = 3600.
Proof.
  unfold Routes.get_video.
  cbn [S3.USE_S3 S3.fileExistsInS3 S3.getPresignedUrl S3Enabled.module].
  destruct (uploads (store srv) !! filename).
  { destruct (Routes.streamLocalVideoFile _ _); intros []%elem_of_nil. }
  destruct (S3Enabled.checkS3Configuration env); [| intros []%elem_of_nil].
  intros Hin Ht.
  apply (presigned_get_ttl env aws ("uploads/" +:+ filename) Routes.videoUrlExpiry e t);
    [| exact Ht].
  destruct (S3Enabled.fileExistsInS3 env aws _) as [ev1 [[|]|m]]; simpl in *;
    try (apply elem_of_app; left; exact Hin).
  destruct (S3Enabled.getPresignedUrl env aws _ _) as [ev2 [url|m]]; exact Hin.
Qed.

Lemma get_thumbnail_ttl (env : ProcessEnv) (aws : AWS) (uuid : nat -> string)
    (rt : Runtime) (srv : Server) (filename : string) (e : aws_event) (t : Z) :
  e ∈ snd (fst (Routes.get_thumbnail (S3Enabled.module env aws uuid) rt srv filename)) ->
  ttl_of e = Some t -> t = 604800.
Proof.
  unfold Routes.get_thumbnail.
  cbn [S3.USE_S3 S3.s3Client S3.fileExistsInS3 S3.getPresignedUrl S3Enabled.module].
  destruct (String.eqb filename Routes.defaultThumbnail).
  { destruct (thumbnails (store srv) !! Routes.defaultThumbnail); intros []%elem_of_nil. }
  destruct (thumbnails (store srv) !! filename); [intros []%elem_of_nil |].
  destruct (_ && _); [| intros []%elem_of_nil].
  set (s3Key := if JS.startsWith "thumbnails/" filename then filename
                else "thumbnails/" +:+ filename).
  intros Hin Ht.
  apply (presigned_get_ttl env aws s3Key Routes.thumbnailUrlExpiry e t); [| exact Ht].
  destruct (S3Enabled.fileExistsInS3 env aws _) as [ev1 [[|]|m]]; simpl in *;
    try (apply elem_of_app; left; exact Hin).
  destruct (S3Enabled.getPresignedUrl env aws _ _) as [ev2 [url|m]]; exact Hin.
Qed.

(** C9, as the code has it.  With the adapter that talks to AWS, a signed
    upload URL is issued for one hour (the single upload URL), three hours
    (the URL of a part) or, on the direct-upload route, one hour or a day;
    a signed playback URL for a video is issued for one hour and the URL of
    a thumbnail for seven days.  So no upload URL lives shorter than a
    video playback URL, and every upload URL lives shorter than a thumbnail
    URL. *)
Theorem C9_expiry_durations (env : ProcessEnv) (aws : AWS) (uuid : nat -> string)
    (rt : Runtime) (srv : Server) (a b c : string) (fileSize : option Z)
    (range : option string) :
  let s3 := S3Enabled.module env aws uuid in
  let uploadUrls :=
    fst (Routes.upload_url s3 rt a b)
    ++ fst (Routes.multipart_part_url s3 a b c)
    ++ fst (Routes.direct_upload_config s3 a b fileSize) in
  let videoUrls := fst (Routes.get_video s3 srv a range) in
  let thumbnailUrls := snd (fst (Routes.get_thumbnail s3 rt srv a)) in
  (forall u t, u ∈ fst (Routes.upload_url s3 rt a b) -> ttl_of u = Some t -> t = 3600)
  /\ (forall u t, u ∈ fst (Routes.multipart_part_url s3 a b c) ->
                  ttl_of u = Some t -> t = 3 * 3600)
  /\ (forall u t, u ∈ fst (Routes.direct_upload_config s3 a b fileSize) ->
                  ttl_of u = Some t -> t = 3600 \/ t = 24 * 3600)
  /\ (forall p t, p ∈ videoUrls -> ttl_of p = Some t -> t = 3600)
  /\ (forall p t, p ∈ thumbnailUrls -> ttl_of p = Some t -> t = 7 * 24 * 3600)
  /\ (forall u p tu tp,
        u ∈ uploadUrls -> p ∈ videoUrls ->
        ttl_of u = Some tu -> ttl_of p = Some tp -> tp <= tu)
  /\ (forall u p tu tp,
        u ∈ uploadUrls -> p ∈ thumbnailUrls ->
        ttl_of u = Some tu -> ttl_of p = Some tp -> tu < tp).
Proof.
  intros s3 uploadUrls videoUrls thumbnailUrls.
  assert (H1 := upload_url_ttl env aws uuid rt a b).
  assert (H2 := part_url_ttl env aws uuid a b c).
  assert (H3 := direct_upload_config_ttl env aws uuid a b fileSize).
  assert (H4 := get_video_ttl env aws uuid srv a range).
  assert (H5 := get_thumbnail_ttl env aws uuid rt srv a).
  assert (Hup : forall u t, u ∈ uploadUrls -> ttl_of u = Some t ->
                            t = 3600 \/ t = 10800 \/ t = 86400).
  { intros u t [Hin | [Hin | Hin]%elem_of_app]%elem_of_app Ht.
    - rewrite (H1 u t Hin Ht). auto.
    - rewrite (H2 u t Hin Ht). auto.
    - destruct (H3 u t Hin Ht) as [-> | ->]; auto. }
  repeat split.
  - exact H1.
  - exact H2.
  - exact H3.
  - exact H4.
  - exact H5.
  - intros u p tu tp Hu Hp Htu Htp.
    rewrite (H4 p tp Hp Htp). destruct (Hup u tu Hu Htu) as [-> | [-> | ->]]; lia.
  - intros u p tu tp Hu Hp Htu Htp.
    rewrite (H5 p tp Hp Htp). destruct (Hup u tu Hu Htu) as [-> | [-> | ->]]; lia.
Qed.

(** C9, as the claim states it, fails: the URL of a part lives three hours
    and the playback URL of a video one hour. *)
Lemma C9_counterexample :
  fst (Routes.multipart_part_url (System.s3 System.healthy) "uploads/k" "id" "1")
  = [Signed (UploadPartCommand "uploads/k" "id" (JS.Num 1)) 10800]
  /\ fst (Routes.get_video (System.s3 System.healthy) System.emptyServer "clip.mp4" None)
     = [Sent (HeadObjectCommand "uploads/clip.mp4");
        Signed (GetObjectCommand "uploads/clip.mp4") 3600]
  /\ ~ (10800 < 3600).
Proof. split; [reflexivity | split; [vm_compute; reflexivity | lia]]. Qed.

(** ** The write path *)

Lemma generateThumbnail_uploads (rt : Runtime) (srv : Server) (video : option bytes)
    (thumbnailName : string) :
  uploads (store (fst (Routes.generateThumbnail rt srv video thumbnailName)))
  = uploads (store srv).
Proof. unfold Routes.generateThumbnail. destruct (ffmpeg rt video); reflexivity. Qed.

Lemma createVideo_store (rt : Runtime) (srv srv' : Server) (p1 p2 : string) (v : Video) :
  Routes.createVideo rt srv p1 p2 = Ok (srv', v) ->
  store srv' = store srv /\ filePath v = p1 /\ thumbnailPath v = p2.
Proof.
  unfold Routes.createVideo. destruct (databaseUp rt); [| discriminate].
  intros [= <- <-]. repeat split.
Qed.

(** What the relayed upload records, by the outcome of the write to S3. *)
Lemma processVideoUpload_outcome (s3 : S3.t) (rt : Runtime) (srv : Server)
    (filename mimetype : string) (title duration : option string) :
  let out := Routes.processVideoUpload s3 rt srv (Some (filename, mimetype))
               title duration in
  let valid :=
    Routes.insertVideoSchema_ok title
      (JS.parseIntAuto (if JS.truthy duration then default "" duration else "0")) in
  let remote :=
    S3.uploadFileToS3 s3 (uploads (store srv) !! filename)
      ("uploads/" +:+ filename) mimetype in
  uploads (store (fst (fst out))) = uploads (store srv)
  /\ status_of (snd out) = (if valid then if databaseUp rt then 201 else 500 else 400)
  /\ (forall v, snd out = Respond 201 [] (Json (JVideo v)) ->
      (S3.USE_S3 s3 = true -> (exists url, snd remote = Ok url) ->
       filePath v = "uploads/" +:+ filename)
      /\ (S3.USE_S3 s3 = false \/ (exists m, snd remote = Throw m) ->
          filePath v = filename)).
Proof.
  intros out valid remote. subst out. unfold Routes.processVideoUpload.
  assert (Hgen := generateThumbnail_uploads rt srv (uploads (store srv) !! filename)
                    ("thumbnail-" +:+ randomUUID rt 0%nat +:+ ".jpg")).
  destruct (Routes.generateThumbnail rt srv _ _) as [srv1 thumbnailSuccess].
  cbn [fst] in Hgen. rewrite Hgen. fold remote. fold valid.
  set (paths :=
    if S3.USE_S3 s3 then
      match remote with
      | (ev1, Throw _) => (ev1, filename, _)
      | (ev1, Ok _) => _
      end
    else _).
  assert (Hpaths :
    (S3.USE_S3 s3 = true -> (exists url, snd remote = Ok url) ->
     snd (fst paths) = "uploads/" +:+ filename)
    /\ (S3.USE_S3 s3 = false \/ (exists m, snd remote = Throw m) ->
        snd (fst paths) = filename)).
  { subst paths. destruct (S3.USE_S3 s3), remote as [ev1 [url|m]]; cbn [snd].
    - split.
      + intros _ _. destruct thumbnailSuccess; [| reflexivity].
        destruct (S3.uploadFileToS3 s3 _ _ _) as [ev2 [url2|m2]]; reflexivity.
      + intros [? | [m ?]]; discriminate.
    - split; [intros _ [url ?]; discriminate | reflexivity].
    - split; [discriminate | reflexivity].
    - split; [discriminate | reflexivity]. }
  destruct paths as [[ev videoPath] thumbnailPath]. cbn [fst snd] in Hpaths.
  destruct valid.
  - destruct (Routes.createVideo rt srv1 videoPath thumbnailPath) as [[srv2 video]|m] eqn:Hc.
    + destruct (createVideo_store _ _ _ _ _ _ Hc) as (Hst & Hfp & _).
      assert (Hdb : databaseUp rt = true).
      { revert Hc. unfold Routes.createVideo.
        destruct (databaseUp rt); [reflexivity | discriminate]. }
      cbn [fst snd status_of]. rewrite Hst, Hdb. split; [exact Hgen |].
      split; [reflexivity |].
      intros v [= <-]. rewrite Hfp. exact Hpaths.
    + assert (Hdb : databaseUp rt = false).
      { revert Hc. unfold Routes.createVideo.
        destruct (databaseUp rt); [discriminate | reflexivity]. }
      cbn [fst snd status_of]. rewrite Hdb. split; [exact Hgen |].
      split; [reflexivity |].
      intros v ?; discriminate.
  - cbn [fst snd status_of]. split; [exact Hgen |].
    split; [reflexivity |].
    intros v ?; discriminate.
Qed.

(** The registration of an object uploaded straight to S3 leaves nothing
    new in the upload directory: the download made for the thumbnail is a
    temporary file, and it is removed. *)
Lemma videos_s3_uploads (s3 : S3.t) (rt : Runtime) (srv : Server) (key : string)
    (title duration : option string) (f : string) (dat : bytes) :
  uploads (store (fst (fst (Routes.videos_s3 s3 rt srv key title duration)))) !! f
  = Some dat ->
  uploads (store srv) !! f = Some dat.
Proof.
  unfold Routes.videos_s3.
  destruct (negb (S3.USE_S3 s3)); [auto |].
  destruct (String.eqb key ""); [auto |].
  set (tempFile := "temp-" +:+ randomUUID rt 0%nat +:+ ".mp4").
  assert (Hdel : forall m : gmap string bytes, delete tempFile m !! f = Some dat ->
                                               m !! f = Some dat).
  { intros m [_ H]%lookup_delete_Some. exact H. }
  assert (Hdelins : forall (m : gmap string bytes) d,
             delete tempFile (<[tempFile := d]> m) !! f = Some dat -> m !! f = Some dat).
  { intros m d [Hne H]%lookup_delete_Some. rewrite lookup_insert_ne in H; auto. }
  destruct (S3.downloadFileFromS3 s3 key) as [ev1 [data|m]]; cbn [fst snd].
  2: { cbn. apply Hdel. }
  assert (Hgen := generateThumbnail_uploads rt (Routes.write_upload srv tempFile data)
                    (Some data) ("thumbnail-" +:+ randomUUID rt 1%nat +:+ ".jpg")).
  destruct (Routes.generateThumbnail rt _ _ _) as [srv2 thumbnailSuccess].
  cbn [fst] in Hgen.
  assert (Hunlink : uploads (store (Routes.unlink_upload srv2 tempFile)) !! f = Some dat ->
                    uploads (store srv) !! f = Some dat).
  { cbn. rewrite Hgen. cbn. apply Hdelins. }
  destruct (if thumbnailSuccess then _ else _) as [ev2 [thumbnailPath|m]]; cbn [fst snd];
    [| exact Hunlink].
  destruct (Routes.insertVideoSchema_ok _ _); cbn [fst snd]; [| exact Hunlink].
  destruct (Routes.createVideo rt _ _ _) as [[srv4 video]|m] eqn:Hc; cbn [fst snd];
    [| exact Hunlink].
  destruct (createVideo_store _ _ _ _ _ _ Hc) as (Hst & _). rewrite Hst. exact Hunlink.
Qed.

(** What the schema accepts: a title, and a duration that the column holds. *)
Lemma insertVideoSchema_ok_iff (title : option string) (duration : JS.number) :
  Routes.insertVideoSchema_ok title duration = true
  <-> (exists t, title = Some t)
      /\ exists n, duration = JS.Num n /\ - 2 ^ 31 <= n <= 2 ^ 31 - 1.
Proof.
  unfold Routes.insertVideoSchema_ok.
  destruct title as [t|], duration as [|n|neg].
  - split; [discriminate | intros (_ & n & ? & _); discriminate].
  - rewrite andb_true_iff, !Z.leb_le. split.
    + intros Hn. split; [eauto |]. exists n. split; [reflexivity | lia].
    + intros (_ & n' & [= <-] & Hn). lia.
  - split; [discriminate | intros (_ & n & ? & _); discriminate].
  - split; [discriminate | intros ([t ?] & _); discriminate].
  - split; [discriminate | intros ([t ?] & _); discriminate].
  - split; [discriminate | intros ([t ?] & _); discriminate].
Qed.




(** Case analysis on the condition of a conditional of the goal. *)
Ltac case_if :=
  match goal with
  | |- context [if ?c then _ else _] => destruct c eqn:?
  end.

(** ** Traces *)

Lemma requests_app (tr1 tr2 : list event) :
  System.requests (tr1 ++ tr2) = System.requests tr1 ++ System.requests tr2.
Proof. apply omap_app. Qed.

Lemma requests_aws (log : list aws_event) : System.requests (map Aws log) = [].
Proof. induction log; [reflexivity | assumption]. Qed.

Lemma requests_fetch (tr : list event) (r : request) (log : list aws_event) :
  System.requests (tr ++ Fetch r :: map Aws log) = System.requests tr ++ [r].
Proof.
  rewrite requests_app. cbn. unfold System.requests at 2. cbn.
  fold (System.requests (map Aws log)). rewrite requests_aws. reflexivity.
Qed.

(** ** Part sizing *)

Lemma ceil_div_bounds (n p : Z) :
  0 < p -> (JS.ceil_div n p - 1) * p < n <= JS.ceil_div n p * p.
Proof.
  intros Hp. unfold JS.ceil_div.
  pose proof (Z.div_mod (n + p - 1) p ltac:(lia)) as Hdm.
  pose proof (Z.mod_pos_bound (n + p - 1) p Hp) as Hm.
  nia.
Qed.

Lemma partSizeFor_pos (n : Z) : 0 < UploadModal.partSizeFor n.
Proof.
  unfold UploadModal.partSizeFor.
  destruct (_ <? n); [lia |]. destruct (_ <? n); lia.
Qed.

Lemma too_many_parts_large (n : Z) :
  10000 < UploadModal.numPartsFor n -> 250000 * MiB < n.
Proof.
  unfold UploadModal.numPartsFor. intros H.
  pose proof (ceil_div_bounds n (UploadModal.partSizeFor n) (partSizeFor_pos n)) as [Hlo _].
  revert H Hlo. unfold UploadModal.partSizeFor, MiB.
  destruct (Z.ltb_spec (500 * 1024 * 1024) n); [nia |].
  destruct (Z.ltb_spec (100 * 1024 * 1024) n); nia.
Qed.

(** C6.  The part size of a multipart upload is 5 MiB for files up to
    100 MiB, 10 MiB above 100 MiB and up to 500 MiB, and 25 MiB above; the
    number of parts is the size divided by the part size, rounded up; and
    when that number exceeds 10,000 the upload throws before it has sent
    anything but the request that initialises it: no part URL is asked for,
    no part is sent, nothing is retried. *)
Theorem C6_part_sizing {W : Type} (step : W -> request -> W * list aws_event * reply)
    (file : File) (key uploadId title : string) (st : UploadModal.State) :
  let n := size file in
  (n <= 100 * MiB -> UploadModal.partSizeFor n = 5 * MiB)
  /\ (100 * MiB < n <= 500 * MiB -> UploadModal.partSizeFor n = 10 * MiB)
  /\ (500 * MiB < n -> UploadModal.partSizeFor n = 25 * MiB)
  /\ (UploadModal.numPartsFor n - 1) * UploadModal.partSizeFor n < n
     <= UploadModal.numPartsFor n * UploadModal.partSizeFor n
  /\ (10000 < UploadModal.numPartsFor n ->
      UploadModal.uploadParts step file key uploadId title st
      = (st, Thrown (TooManyParts (UploadModal.numPartsFor n)))
      /\ (exists e, snd (UploadModal.uploadDirectlyToS3 step file title st) = Thrown e)
      /\ System.requests
           (UploadModal.trace (fst (UploadModal.uploadDirectlyToS3 step file title st)))
         = System.requests (UploadModal.trace st)
           ++ [PostMultipartInit (name file) (type file) n]
      /\ UploadModal.parts (fst (UploadModal.uploadDirectlyToS3 step file title st))
         = UploadModal.parts st).
Proof.
  intros n. unfold MiB.
  split; [| split; [| split; [| split]]].
  - intros H. unfold UploadModal.partSizeFor.
    destruct (Z.ltb_spec (500 * 1024 * 1024) n); [lia |].
    destruct (Z.ltb_spec (100 * 1024 * 1024) n); lia.
  - intros H. unfold UploadModal.partSizeFor.
    destruct (Z.ltb_spec (500 * 1024 * 1024) n); [lia |].
    destruct (Z.ltb_spec (100 * 1024 * 1024) n); lia.
  - intros H. unfold UploadModal.partSizeFor.
    destruct (Z.ltb_spec (500 * 1024 * 1024) n); lia.
  - apply ceil_div_bounds, partSizeFor_pos.
  - intros Hmany.
    assert (Hparts : UploadModal.uploadParts step file key uploadId title st
                     = (st, Thrown (TooManyParts (UploadModal.numPartsFor n)))).
    { unfold UploadModal.uploadParts. fold n.
      replace (10000 <? UploadModal.numPartsFor n) with true
        by (symmetry; apply Z.ltb_lt; exact Hmany).
      reflexivity. }
    split; [exact Hparts |].
    assert (Hlarge := too_many_parts_large n Hmany). unfold MiB in Hlarge.
    unfold UploadModal.uploadDirectlyToS3. fold n.
    replace (UploadModal.MULTIPART_THRESHOLD <? n) with true
      by (symmetry; apply Z.ltb_lt; unfold UploadModal.MULTIPART_THRESHOLD; lia).
    cbn [negb].
    assert (Hthrow : forall k u st',
              UploadModal.uploadParts step file k u title st'
              = (st', Thrown (TooManyParts (UploadModal.numPartsFor n)))).
    { intros k u st'. unfold UploadModal.uploadParts. fold n.
      replace (10000 <? UploadModal.numPartsFor n) with true
        by (symmetry; apply Z.ltb_lt; exact Hmany).
      reflexivity. }
    unfold UploadModal.uploadMultipart.
    cbv [UploadModal.bind UploadModal.fetch_response UploadModal.fetch
         UploadModal.json_of UploadModal.ret UploadModal.throw]. fold n.
    destruct (step (UploadModal.world st) _) as [[w' log] [|res]]; cbn.
    { rewrite requests_fetch. eauto. }
    destruct (ok res); cbn.
    + destruct (json res) as [b|]; cbn; [| rewrite requests_fetch; eauto].
      destruct b; rewrite Hthrow; cbn; rewrite requests_fetch; eauto.
    + destruct (json res) as [b|]; cbn; [| rewrite requests_fetch; eauto].
      destruct b; cbn; repeat case_if; cbn; rewrite requests_fetch; eauto.
Qed.

(** ** Relations lifted through the monad of the modal *)

Section LiftingRules.
Context {W : Type} (step : W -> request -> W * list aws_event * reply).
Context (R : relation (@UploadModal.State W)) `{!PreOrder R}.
Context (allowed : request -> Prop).
Hypothesis R_fetch :
  forall r st, allowed r -> R st (fst (UploadModal.fetch step r st)).
Hypothesis R_emit :
  forall e st, progress_event e -> R st (fst (UploadModal.emit e st)).
Hypothesis R_upload :
  forall (st : @UploadModal.State W) ps failed,
    R st {| UploadModal.world := UploadModal.world st;
            UploadModal.trace := UploadModal.trace st;
            UploadModal.parts := ps; UploadModal.failedParts := failed |}.

Lemma lifts_ret {A} (a : A) : lifts R (UploadModal.ret (W:=W) a).
Proof. intros st. reflexivity. Qed.

Lemma lifts_throw {A} (e : error) : lifts R (UploadModal.throw (W:=W) (A:=A) e).
Proof. intros st. reflexivity. Qed.

Lemma lifts_bind {A B} (m : UploadModal.M A) (k : A -> UploadModal.M B) :
  lifts R m -> (forall a, lifts R (k a)) -> lifts R (UploadModal.bind m k).
Proof.
  intros Hm Hk st. unfold UploadModal.bind.
  specialize (Hm st). destruct (m st) as [st1 [a|e]]; cbn in *.
  - etransitivity; [exact Hm | apply Hk].
  - exact Hm.
Qed.

Lemma lifts_try_catch {A} (m : UploadModal.M A) (h : error -> UploadModal.M A) :
  lifts R m -> (forall e, lifts R (h e)) -> lifts R (UploadModal.try_catch m h).
Proof.
  intros Hm Hh st. unfold UploadModal.try_catch.
  specialize (Hm st). destruct (m st) as [st1 [a|e]]; cbn in *.
  - exact Hm.
  - etransitivity; [exact Hm | apply Hh].
Qed.

Lemma lifts_emit (e : event) : progress_event e -> lifts R (UploadModal.emit e).
Proof. intros He st. apply R_emit, He. Qed.

Lemma lifts_fetch (r : request) : allowed r -> lifts R (UploadModal.fetch step r).
Proof. intros Hr st. apply R_fetch, Hr. Qed.

Lemma lifts_fetch_response (r : request) :
  allowed r -> lifts R (UploadModal.fetch_response step r).
Proof.
  intros Hr. apply lifts_bind; [apply lifts_fetch, Hr |].
  intros [|res]; [apply lifts_throw | apply lifts_ret].
Qed.

Lemma lifts_json_of (res : response) : lifts R (UploadModal.json_of (W:=W) res).
Proof. unfold UploadModal.json_of. destruct (json res); [apply lifts_ret | apply lifts_throw]. Qed.

Lemma lifts_set_upload ps failed : lifts R (UploadModal.set_upload (W:=W) ps failed).
Proof. intros st. apply R_upload. Qed.

Lemma lifts_push_part p : lifts R (UploadModal.push_part (W:=W) p).
Proof. intros st. apply R_upload. Qed.

Lemma lifts_count_failed_part : lifts R (UploadModal.count_failed_part (W:=W)).
Proof. intros st. apply R_upload. Qed.

Lemma lifts_get_parts : lifts R (UploadModal.get_parts (W:=W)).
Proof. intros st. reflexivity. Qed.

Lemma lifts_get_failedParts : lifts R (UploadModal.get_failedParts (W:=W)).
Proof. intros st. reflexivity. Qed.

End LiftingRules.

(** One step of the proof that a computation lifts a relation: a rule of
    the monad, or a case analysis on what the computation branches on. *)
Ltac allowed_request :=
  first
    [ exact I
    | assumption
    | match goal with
      | H : forall r, not_completion r -> _ |- _ => apply H; exact I
      end ].

Ltac preorder := try match goal with |- PreOrder _ => exact _ end.

Ltac lifting_step :=
  match goal with
  | |- lifts _ (UploadModal.ret _) => apply lifts_ret; preorder
  | |- lifts _ (UploadModal.throw _) => apply lifts_throw; preorder
  | |- lifts _ (UploadModal.bind _ _) => apply lifts_bind; preorder; [| intros ?]
  | |- lifts _ (UploadModal.try_catch _ _) =>
      apply lifts_try_catch; preorder; [| intros ?]
  | |- lifts _ (UploadModal.emit _) =>
      apply lifts_emit; [assumption | split; [exact I | discriminate]]
  | |- lifts _ (UploadModal.fetch_response _ _) =>
      eapply lifts_fetch_response; preorder; [eassumption | allowed_request]
  | |- lifts _ (UploadModal.fetch _ _) =>
      eapply lifts_fetch; [eassumption | allowed_request]
  | |- lifts _ (UploadModal.json_of _) => apply lifts_json_of; preorder
  | |- lifts _ (UploadModal.set_upload _ _) => apply lifts_set_upload; assumption
  | |- lifts _ (UploadModal.push_part _) => apply lifts_push_part; assumption
  | |- lifts _ UploadModal.count_failed_part => apply lifts_count_failed_part; assumption
  | |- lifts _ UploadModal.get_parts => apply lifts_get_parts; preorder
  | |- lifts _ UploadModal.get_failedParts => apply lifts_get_failedParts; preorder
  | |- lifts _ (if ?c then _ else _) => destruct c
  | |- lifts _ (match ?x with _ => _ end) => destruct x
  end.

Ltac lifting := repeat lifting_step.

Section LiftedFunctions.
Context {W : Type} (step : W -> request -> W * list aws_event * reply).
Context (R : relation (@UploadModal.State W)) `{!PreOrder R}.
Context (allowed : request -> Prop).
Hypothesis R_fetch :
  forall r st, allowed r -> R st (fst (UploadModal.fetch step r st)).
Hypothesis R_emit :
  forall e st, progress_event e -> R st (fst (UploadModal.emit e st)).
Hypothesis R_upload :
  forall (st : @UploadModal.State W) ps failed,
    R st {| UploadModal.world := UploadModal.world st;
            UploadModal.trace := UploadModal.trace st;
            UploadModal.parts := ps; UploadModal.failedParts := failed |}.
Hypothesis allowed_requests : forall r, not_completion r -> allowed r.

Lemma lifts_registerS3Video key title :
  lifts R (UploadModal.registerS3Video step key title).
Proof.
  unfold UploadModal.registerS3Video. lifting.
Qed.

Lemma lifts_uploadSinglePut file title :
  lifts R (UploadModal.uploadSinglePut step file title).
Proof.
  unfold UploadModal.uploadSinglePut. lifting; apply lifts_registerS3Video.
Qed.

Lemma lifts_uploadPartAttempt file key uploadId partNumber :
  lifts R (UploadModal.uploadPartAttempt step file key uploadId partNumber).
Proof. unfold UploadModal.uploadPartAttempt. lifting. Qed.

Lemma lifts_uploadSinglePartFrom file key uploadId retriesLeft partNumber :
  lifts R (UploadModal.uploadSinglePartFrom step file key uploadId retriesLeft partNumber).
Proof.
  induction retriesLeft as [|n IH]; cbn [UploadModal.uploadSinglePartFrom];
    (apply lifts_try_catch; preorder; [apply lifts_uploadPartAttempt | intros e]);
    lifting.
  exact IH.
Qed.

Lemma lifts_uploadBatch file key uploadId slots partNumber :
  lifts R (UploadModal.uploadBatch step file key uploadId slots partNumber).
Proof.
  revert partNumber. induction slots as [|n IH]; intros partNumber;
    cbn [UploadModal.uploadBatch]; [apply lifts_ret; preorder |].
  destruct (partNumber <=? _); [| apply lifts_ret; preorder].
  intros st.
  pose proof (lifts_uploadSinglePartFrom file key uploadId
                (Z.to_nat UploadModal.MAX_RETRIES) partNumber st) as H1.
  unfold UploadModal.uploadSinglePart.
  destruct (UploadModal.uploadSinglePartFrom _ _ _ _ _ _ st) as [st1 r].
  specialize (IH (partNumber + 1) st1).
  destruct (UploadModal.uploadBatch _ _ _ _ _ _ st1) as [st2 r'].
  cbn in *. etransitivity; eassumption.
Qed.

Lemma lifts_uploadBatches file key uploadId fuel currentPart :
  lifts R (UploadModal.uploadBatches step file key uploadId fuel currentPart).
Proof.
  revert currentPart. induction fuel as [|n IH]; intros currentPart;
    cbn [UploadModal.uploadBatches]; destruct (currentPart <=? _);
    try (apply lifts_ret; preorder); try (apply lifts_throw; preorder).
  apply lifts_bind; preorder; [apply lifts_uploadBatch | intros _; apply IH].
Qed.

Lemma lifts_verifyParts file : lifts R (UploadModal.verifyParts (W:=W) file).
Proof. unfold UploadModal.verifyParts. lifting. Qed.

Lemma lifts_trueBrowserDirectUpload file title :
  lifts R (UploadModal.trueBrowserDirectUpload step file title).
Proof. unfold UploadModal.trueBrowserDirectUpload. lifting. Qed.

Lemma lifts_standardUpload file title :
  lifts R (UploadModal.standardUpload step file title).
Proof. unfold UploadModal.standardUpload. lifting. Qed.

(** The upload as a whole, given that its multipart steps lift [R]. *)
Lemma lifts_mutationFn file title :
  (forall key uploadId, lifts R (UploadModal.uploadParts step file key uploadId title)) ->
  lifts R (UploadModal.mutationFn step (Some file) title).
Proof.
  intros Hparts.
  unfold UploadModal.mutationFn, UploadModal.uploadDirectlyToS3,
    UploadModal.uploadMultipart.
  lifting;
    first [ apply lifts_trueBrowserDirectUpload | apply lifts_uploadSinglePut
          | apply lifts_standardUpload | apply Hparts ].
Qed.

Lemma lifts_mutate file title :
  (forall st, R st (fst (UploadModal.emit terminalReport st))) ->
  (forall key uploadId, lifts R (UploadModal.uploadParts step file key uploadId title)) ->
  lifts R (UploadModal.mutate step (Some file) title).
Proof.
  intros Hreport Hparts. unfold UploadModal.mutate.
  apply lifts_try_catch; preorder.
  - apply lifts_bind; preorder; [apply lifts_mutationFn, Hparts |].
    intros result. lifting.
  - intros error. apply lifts_bind; preorder; [exact Hreport |].
    intros _. apply lifts_throw; preorder.
Qed.

End LiftedFunctions.

(** ** The parts that a multipart upload records *)

Section RecordedParts.
Context {W : Type} (step : W -> request -> W * list aws_event * reply).
Context (file : File) (key uploadId : string).

Let numParts := UploadModal.numPartsFor (size file).

Lemma uploadPartAttempt_parts partNumber st :
  attempts partNumber st (UploadModal.uploadPartAttempt step file key uploadId partNumber st).
Proof.
  unfold UploadModal.uploadPartAttempt.
  cbv [UploadModal.bind UploadModal.fetch_response UploadModal.fetch
       UploadModal.json_of UploadModal.ret UploadModal.throw UploadModal.push_part].
  destruct (step (UploadModal.world st) _) as [[w1 log1] [|res1]]; cbn; [done |].
  destruct (ok res1); cbn; [| done].
  destruct (json res1) as [b|]; cbn; [| done].
  destruct (step w1 _) as [[w2 log2] [|res2]]; cbn; [done |].
  destruct (ok res2); cbn; [| done].
  destruct (ETagHeader res2) as [header|] eqn:Hheader; cbn; [| done].
  change (negb (header =? "")%string) with (JS.truthy (Some header)).
  destruct (JS.truthy (Some header)) eqn:Htruthy; cbn; [| done].
  eexists; split; [reflexivity |]. split; [reflexivity |].
  constructor; [| constructor]. exists header. split; [exact Htruthy | reflexivity].
Qed.

Lemma uploadSinglePartFrom_parts retriesLeft partNumber st :
  attempts partNumber st
    (UploadModal.uploadSinglePartFrom step file key uploadId retriesLeft partNumber st).
Proof.
  revert st. induction retriesLeft as [|n IH]; intros st;
    cbn [UploadModal.uploadSinglePartFrom]; unfold UploadModal.try_catch;
    pose proof (uploadPartAttempt_parts partNumber st) as Hattempt;
    destruct (UploadModal.uploadPartAttempt _ _ _ _ _ st) as [st1 [[]|e]];
    try exact Hattempt; destruct Hattempt as [Hparts He].
  cbv [UploadModal.bind UploadModal.emit].
  match goal with
  | |- attempts _ _ (UploadModal.uploadSinglePartFrom _ _ _ _ _ _ ?st2) =>
      specialize (IH st2);
      destruct (UploadModal.uploadSinglePartFrom _ _ _ _ _ _ st2) as [st3 [[]|e']]
  end; cbn in *; rewrite <- Hparts; exact IH.
Qed.

Lemma uploadBatch_parts slots partNumber st :
  records (seqZ partNumber (Z.min (Z.of_nat slots) (numParts - partNumber + 1))) st
    (UploadModal.uploadBatch step file key uploadId slots partNumber st).
Proof.
  revert partNumber st. induction slots as [|n IH]; intros partNumber st;
    cbn [UploadModal.uploadBatch].
  - exists []. rewrite app_nil_r.
    split; [reflexivity |]. split; [| constructor].
    unfold seqZ. replace (Z.to_nat _) with 0%nat by lia. reflexivity.
  - fold numParts. destruct (Z.leb_spec partNumber numParts) as [Hle|Hgt].
    + unfold UploadModal.uploadSinglePart.
      pose proof (uploadSinglePartFrom_parts (Z.to_nat UploadModal.MAX_RETRIES)
                    partNumber st) as H1.
      destruct (UploadModal.uploadSinglePartFrom _ _ _ _ _ _ st) as [st1 [[]|e]].
      * specialize (IH (partNumber + 1) st1).
        destruct (UploadModal.uploadBatch _ _ _ _ _ _ st1) as [st2 [[]|e']];
          [| exact IH].
        destruct H1 as (q1 & Hq1 & Hn1 & Ht1). destruct IH as (qs & Hqs & Hn & Ht).
        exists (q1 ++ qs). rewrite Hqs, Hq1, app_assoc.
        split; [reflexivity |]. split; [| apply Forall_app; split; assumption].
        rewrite map_app, Hn1, Hn.
        rewrite (seqZ_cons partNumber) by lia. cbn. do 2 f_equal; lia.
      * destruct (UploadModal.uploadBatch _ _ _ _ _ _ st1) as [st2 r'].
        cbn. exact (proj2 H1).
    + exists []. rewrite app_nil_r.
      split; [reflexivity |]. split; [| constructor].
      unfold seqZ. replace (Z.to_nat _) with 0%nat by lia. reflexivity.
Qed.

Lemma batchSizeFor_pos n : (1 <= UploadModal.batchSizeFor n)%nat.
Proof. unfold UploadModal.batchSizeFor. repeat case_if; lia. Qed.

(** The loop over the batches, started with fuel for the parts that are
    left, records them all or throws what a part threw. *)
Lemma uploadBatches_parts fuel currentPart st :
  numParts - currentPart + 1 <= Z.of_nat fuel ->
  records (seqZ currentPart (numParts - currentPart + 1)) st
    (UploadModal.uploadBatches step file key uploadId fuel currentPart st).
Proof.
  revert currentPart st. induction fuel as [|n IH]; intros currentPart st Hfuel;
    cbn [UploadModal.uploadBatches]; fold numParts;
    destruct (Z.leb_spec currentPart numParts) as [Hle|Hgt]; try lia.
  - exists []. rewrite app_nil_r. split; [reflexivity |]. split; [| constructor].
    unfold seqZ. replace (Z.to_nat _) with 0%nat by lia. reflexivity.
  - pose proof (batchSizeFor_pos (size file)) as Hb.
    unfold UploadModal.bind.
    pose proof (uploadBatch_parts (UploadModal.batchSizeFor (size file)) currentPart st) as H1.
    destruct (UploadModal.uploadBatch _ _ _ _ _ _ st) as [st1 [[]|e]]; [| exact H1].
    specialize (IH (currentPart + Z.of_nat (UploadModal.batchSizeFor (size file))) st1
                  ltac:(lia)).
    destruct (UploadModal.uploadBatches _ _ _ _ _ _ st1) as [st2 [[]|e']]; [| exact IH].
    destruct H1 as (q1 & Hq1 & Hn1 & Ht1). destruct IH as (qs & Hqs & Hn & Ht).
    exists (q1 ++ qs). rewrite Hqs, Hq1, app_assoc.
    split; [reflexivity |]. split; [| apply Forall_app; split; assumption].
    rewrite map_app, Hn1, Hn.
    destruct (Z.le_gt_cases (Z.of_nat (UploadModal.batchSizeFor (size file)))
                (numParts - currentPart + 1)) as [Hfull|Hlast].
    + rewrite Z.min_l by lia. rewrite <- seqZ_app by lia. f_equal; lia.
    + rewrite Z.min_r by lia.
      replace (seqZ (currentPart + _) _) with (@nil Z);
        [apply app_nil_r |].
      unfold seqZ. replace (Z.to_nat _) with 0%nat by lia. reflexivity.
  - exists []. rewrite app_nil_r. split; [reflexivity |]. split; [| constructor].
    unfold seqZ. replace (Z.to_nat _) with 0%nat by lia. reflexivity.
Qed.

End RecordedParts.

(** ** Completions carry all parts *)

Section CompletesWhole.
Context {W : Type} (step : W -> request -> W * list aws_event * reply).
Context (file : File).
Hypothesis world_finalises : finalises_on_request step.

Let numParts := UploadModal.numPartsFor (size file).

Lemma completions_app (tr1 tr2 : list event) :
  completions (tr1 ++ tr2) = completions tr1 ++ completions tr2.
Proof. apply omap_app. Qed.

#[local] Instance completes_whole_preorder : PreOrder (completes_whole (W:=W) file).
Proof.
  split.
  - intros st. exists []. rewrite app_nil_r. split; [reflexivity | constructor].
  - intros st1 st2 st3 (l1 & H1 & Hl1) (l2 & H2 & Hl2).
    exists (l1 ++ l2). rewrite H2, H1, app_assoc.
    split; [reflexivity | apply Forall_app; split; assumption].
Qed.

Lemma finalised_as_asked r log :
  whole_request file r -> Forall (finalises_as_asked r) log ->
  Forall (all_parts file) (completions (map Aws log)).
Proof.
  intros Hr Hlog. induction Hlog as [|a log Ha _ IH]; cbn; [constructor |].
  destruct a as [c ttl|k ttl|c]; cbn; try exact IH.
  destruct c; cbn; try exact IH.
  constructor; [| exact IH].
  cbn in Ha. destruct r; try contradiction. subst. exact Hr.
Qed.

Lemma completes_whole_fetch r st :
  whole_request file r -> completes_whole file st (fst (UploadModal.fetch step r st)).
Proof.
  intros Hr. unfold UploadModal.fetch.
  pose proof (world_finalises (UploadModal.world st) r) as Hlog.
  destruct (step (UploadModal.world st) r) as [[w' log] rep]. cbn in *.
  exists (completions (Fetch r :: map Aws log)).
  split; [apply completions_app |].
  pose proof (finalised_as_asked r log Hr Hlog) as Hfin.
  unfold completions in *. cbn.
  destruct r; cbn; try exact Hfin. constructor; [exact Hr | exact Hfin].
Qed.

Lemma completes_whole_emit e (st : @UploadModal.State W) :
  local_event e -> completes_whole file st (fst (UploadModal.emit e st)).
Proof.
  intros He. exists []. cbn. rewrite app_nil_r, completions_app.
  split; [| constructor].
  destruct e; try contradiction; cbn; apply app_nil_r.
Qed.

Lemma completes_whole_progress e (st : @UploadModal.State W) :
  progress_event e -> completes_whole file st (fst (UploadModal.emit e st)).
Proof. intros [He _]. apply completes_whole_emit, He. Qed.

Lemma completes_whole_upload (st : @UploadModal.State W) ps failed :
  completes_whole file st
    {| UploadModal.world := UploadModal.world st;
       UploadModal.trace := UploadModal.trace st;
       UploadModal.parts := ps; UploadModal.failedParts := failed |}.
Proof. exists []. cbn. rewrite app_nil_r. split; [reflexivity | constructor]. Qed.

Lemma whole_request_other r : not_completion r -> whole_request file r.
Proof. destruct r; cbn; tauto. Qed.

Lemma parts_upto_all ps : parts_upto numParts ps -> all_parts file ps.
Proof. intros [Hn Ht]. split; [fold numParts; rewrite Hn; reflexivity | exact Ht]. Qed.

(** The request to complete is sent with the recorded parts. *)
Lemma completeUpload_completes key uploadId st :
  all_parts file (UploadModal.parts st) ->
  completes_whole file st (fst (UploadModal.completeUpload step key uploadId st)).
Proof.
  intros Hps.
  pose proof completes_whole_fetch as Hfetch.
  pose proof completes_whole_progress as Hemit.
  assert (H : forall ps, all_parts file ps ->
            lifts (completes_whole file)
              (UploadModal.try_catch
                 (UploadModal.bind
                    (UploadModal.fetch_response step
                       (PostMultipartComplete key uploadId ps))
                    (fun completeResponse =>
                       if negb (ok completeResponse)
                       then UploadModal.throw CompleteFailed
                       else UploadModal.bind (UploadModal.json_of completeResponse)
                              (fun _ => UploadModal.ret tt)))
                 (fun error =>
                    UploadModal.bind (UploadModal.emit (Toast "Upload Error" true))
                      (fun _ => UploadModal.throw error)))).
  { intros ps Hall. lifting. }
  exact (H (UploadModal.parts st) Hps st).
Qed.

Lemma finishUpload_completes key uploadId title st :
  parts_upto numParts (UploadModal.parts st) ->
  completes_whole file st (fst (UploadModal.finishUpload step file key uploadId title st)).
Proof.
  intros Hps. apply parts_upto_all in Hps.
  unfold UploadModal.finishUpload.
  cbv [UploadModal.bind UploadModal.verifyParts UploadModal.get_parts
       UploadModal.throw UploadModal.ret].
  destruct (negb _).
  - cbn. apply completes_whole_emit. exact I.
  - pose proof (completeUpload_completes key uploadId st Hps) as H1.
    destruct (UploadModal.completeUpload step key uploadId st) as [st1 [[]|e]];
      cbn [fst] in *; [| exact H1].
    etransitivity; [exact H1 |].
    apply (lifts_registerS3Video step (completes_whole file) (whole_request file)
             completes_whole_fetch whole_request_other).
Qed.

Lemma uploadParts_completes key uploadId title :
  lifts (completes_whole file) (UploadModal.uploadParts step file key uploadId title).
Proof.
  intros st. unfold UploadModal.uploadParts. fold numParts.
  destruct (10000 <? numParts); [reflexivity |].
  cbv [UploadModal.bind UploadModal.set_upload UploadModal.get_failedParts
       UploadModal.throw].
  match goal with
  | |- context [UploadModal.uploadBatches _ _ _ _ ?fuel 1 ?st0] =>
      pose proof (uploadBatches_parts step file key uploadId fuel 1 st0) as Hrec;
      pose proof (lifts_uploadBatches step (completes_whole file) (whole_request file)
                    completes_whole_fetch completes_whole_progress completes_whole_upload
                    whole_request_other file key uploadId fuel 1 st0) as Hlift;
      pose proof (completes_whole_upload st [] 0) as Hstart;
      destruct (UploadModal.uploadBatches _ _ _ _ fuel 1 st0) as [st1 [[]|e]]
  end; cbn in *.
  - assert (Hupto : parts_upto numParts (UploadModal.parts st1)).
    { destruct Hrec as (qs & Hqs & Hn & Ht); [fold numParts; lia |].
      rewrite Hqs. split; [rewrite Hn; f_equal; fold numParts; lia | exact Ht]. }
    destruct (0 <? _); cbn.
    + etransitivity; eassumption.
    + etransitivity; [exact Hstart |]. etransitivity; [exact Hlift |].
      apply finishUpload_completes, Hupto.
  - etransitivity; eassumption.
Qed.

Lemma mutate_completes title :
  lifts (completes_whole file) (UploadModal.mutate step (Some file) title).
Proof.
  apply (lifts_mutate step (completes_whole file) (whole_request file)
           completes_whole_fetch completes_whole_progress whole_request_other).
  - intros st. apply completes_whole_emit. exact I.
  - intros key uploadId. apply uploadParts_completes.
Qed.

End CompletesWhole.

(** ** What the server finalises *)

Ltac harmless_events :=
  repeat first
    [ apply Forall_nil_2
    | apply Forall_cons_2; [first [exact I | reflexivity] |]
    | apply Forall_app; split
    | assumption ].

Section ServerFinalises.
Context (e : ProcessEnv) (aws : AWS) (uuid : nat -> string).

Lemma sign_finalises r c ttl :
  Forall (finalises_as_asked r) (fst (S3Enabled.sign aws c ttl)).
Proof.
  unfold S3Enabled.sign. destruct (getSignedUrl aws c ttl); cbn; harmless_events.
Qed.

Lemma partUrls_finalises r key uploadId ttl numbers :
  Forall (finalises_as_asked r) (fst (S3Enabled.partUrls e aws key uploadId ttl numbers)).
Proof.
  induction numbers as [|n rest IH]; cbn [S3Enabled.partUrls]; [constructor |].
  unfold S3Enabled.getMultipartPresignedUrl.
  destruct (negb _); cbn; [constructor |].
  pose proof (sign_finalises r (UploadPartCommand (normalizeS3Key key) uploadId (JS.Num n))
                ttl) as Hsign.
  destruct (S3Enabled.sign _ _ _) as [ev [url|m]]; cbn in *; [| exact Hsign].
  destruct (S3Enabled.partUrls _ _ _ _ _ rest) as [ev' res]. cbn in *.
  apply Forall_app; split; assumption.
Qed.

Ltac adapter_events :=
  unfold S3Enabled.uploadFileToS3, S3Enabled.downloadFileFromS3,
    S3Enabled.generatePresignedUploadUrl, S3Enabled.generatePresignedPost,
    S3Enabled.initiateMultipartUpload, S3Enabled.getMultipartPresignedUrl,
    S3Enabled.completeMultipartUpload, S3Enabled.configureS3CorsForDirectUploads,
    S3Enabled.not_configured;
  repeat case_match; simplify_eq/=; harmless_events.

Lemma uploadFileToS3_finalises r data key contentType :
  Forall (finalises_as_asked r) (fst (S3Enabled.uploadFileToS3 e aws data key contentType)).
Proof. adapter_events. Qed.

Lemma downloadFileFromS3_finalises r key :
  Forall (finalises_as_asked r) (fst (S3Enabled.downloadFileFromS3 e aws key)).
Proof. adapter_events. Qed.

Lemma generatePresignedUploadUrl_finalises r key contentType ttl :
  Forall (finalises_as_asked r)
    (fst (S3Enabled.generatePresignedUploadUrl e aws uuid key contentType ttl)).
Proof.
  unfold S3Enabled.generatePresignedUploadUrl.
  destruct (negb _); [constructor |].
  match goal with
  | |- context [S3Enabled.sign aws ?c ?t] =>
      pose proof (sign_finalises r c t) as Hsign;
      destruct (S3Enabled.sign aws c t) as [ev [url|m]]
  end; exact Hsign.
Qed.

Lemma getMultipartPresignedUrl_finalises r key uploadId partNumber ttl :
  Forall (finalises_as_asked r)
    (fst (S3Enabled.getMultipartPresignedUrl e aws key uploadId partNumber ttl)).
Proof.
  unfold S3Enabled.getMultipartPresignedUrl.
  destruct (negb _); [constructor | apply sign_finalises].
Qed.

Lemma initiateMultipartUpload_finalises r key contentType :
  Forall (finalises_as_asked r)
    (fst (S3Enabled.initiateMultipartUpload e aws key contentType)).
Proof. adapter_events. Qed.

Lemma getDirectBrowserUploadConfig_finalises r fileName fileType fileSize :
  Forall (finalises_as_asked r)
    (fst (S3Enabled.getDirectBrowserUploadConfig e aws uuid fileName fileType fileSize)).
Proof.
  unfold S3Enabled.getDirectBrowserUploadConfig.
  destruct (negb _); [constructor |].
  destruct (JS.gt fileSize (JS.Num (150 * 1024 * 1024))); cbn [negb andb].
  - unfold S3Enabled.generatePresignedPost, S3Enabled.not_configured.
    repeat case_match; simplify_eq/=; harmless_events.
  - destruct (JS.gt fileSize _).
    + match goal with
      | |- context [S3Enabled.initiateMultipartUpload e aws ?k ?t] =>
          pose proof (initiateMultipartUpload_finalises r k t) as Hinit;
          destruct (S3Enabled.initiateMultipartUpload e aws k t) as [ev [[u k']|m]]
      end; [| exact Hinit].
      match goal with
      | |- context [S3Enabled.partUrls e aws ?k ?u ?t ?ns] =>
          pose proof (partUrls_finalises r k u t ns) as Hurls;
          destruct (S3Enabled.partUrls e aws k u t ns) as [ev' [[]|m]]
      end; cbn in *; apply Forall_app; split; assumption.
    + match goal with
      | |- context [S3Enabled.generatePresignedUploadUrl e aws uuid ?k ?t ?x] =>
          pose proof (generatePresignedUploadUrl_finalises r k t x) as Hurl;
          destruct (S3Enabled.generatePresignedUploadUrl e aws uuid k t x)
            as [ev [[u k']|m]]
      end; exact Hurl.
Qed.

Lemma completeMultipartUpload_finalises key uploadId ps key' uploadId' :
  Forall (finalises_as_asked (PostMultipartComplete key' uploadId' ps))
    (fst (S3Enabled.completeMultipartUpload e aws key uploadId ps)).
Proof. adapter_events. Qed.

Lemma configureS3CorsForDirectUploads_finalises r :
  Forall (finalises_as_asked r) (fst (S3Enabled.configureS3CorsForDirectUploads e aws)).
Proof. adapter_events. Qed.

Ltac call_adapter r :=
  let H := fresh "Hcall" in
  match goal with
  | |- context [S3Enabled.uploadFileToS3 e aws ?d ?k ?t] =>
      pose proof (uploadFileToS3_finalises r d k t) as H;
      destruct (S3Enabled.uploadFileToS3 e aws d k t) as [? [?|?]]
  | |- context [S3Enabled.downloadFileFromS3 e aws ?k] =>
      pose proof (downloadFileFromS3_finalises r k) as H;
      destruct (S3Enabled.downloadFileFromS3 e aws k) as [? [?|?]]
  | |- context [S3Enabled.generatePresignedUploadUrl e aws uuid ?k ?t ?x] =>
      pose proof (generatePresignedUploadUrl_finalises r k t x) as H;
      destruct (S3Enabled.generatePresignedUploadUrl e aws uuid k t x) as [? [[? ?]|?]]
  | |- context [S3Enabled.initiateMultipartUpload e aws ?k ?t] =>
      pose proof (initiateMultipartUpload_finalises r k t) as H;
      destruct (S3Enabled.initiateMultipartUpload e aws k t) as [? [[? ?]|?]]
  | |- context [S3Enabled.getMultipartPresignedUrl e aws ?k ?u ?n ?t] =>
      pose proof (getMultipartPresignedUrl_finalises r k u n t) as H;
      destruct (S3Enabled.getMultipartPresignedUrl e aws k u n t) as [? [?|?]]
  | |- context [S3Enabled.configureS3CorsForDirectUploads e aws] =>
      pose proof (configureS3CorsForDirectUploads_finalises r) as H;
      destruct (S3Enabled.configureS3CorsForDirectUploads e aws) as [? ?]
  | |- context [S3Enabled.getDirectBrowserUploadConfig e aws uuid ?n ?t ?z] =>
      pose proof (getDirectBrowserUploadConfig_finalises r n t z) as H;
      destruct (S3Enabled.getDirectBrowserUploadConfig e aws uuid n t z) as [? [?|?]]
  end; cbn [fst snd] in H.

Ltac route r :=
  cbn [S3.USE_S3 S3.s3Client S3.generatePresignedUploadUrl S3.initiateMultipartUpload
       S3.getMultipartPresignedUrl S3.completeMultipartUpload S3.uploadFileToS3
       S3.downloadFileFromS3 S3.getPresignedUrl S3.fileExistsInS3
       S3.configureS3CorsForDirectUploads S3.getDirectBrowserUploadConfig
       S3Enabled.module];
  repeat first [ call_adapter r | case_match ];
  simplify_eq/=; harmless_events.

(** A request makes the server finalise an upload only when it asks to
    complete it, and then with the parts that it carries. *)
Lemma serve_finalises (rt : Runtime) objects multer :
  uuid = randomUUID rt ->
  finalises_on_request (System.serve (System.remote e aws rt objects multer)).
Proof.
  intros Huuid srv r.
  destruct r; cbn [System.serve System.remote System.s3 System.rt
                   System.env System.objectStore System.multer fst snd];
    rewrite <- ?Huuid.
  - unfold Routes.upload_url.
    route (GetUploadUrl fileType fileName).
  - constructor.
  - unfold Routes.videos_s3, Routes.generateThumbnail. route (PostVideosS3 key title).
  - unfold Routes.multipart_init.
    route (PostMultipartInit fileName fileType fileSize).
  - unfold Routes.multipart_part_url.
    route (GetPartUrl key uploadId partNumber).
  - constructor.
  - unfold Routes.multipart_complete.
    cbn [S3.USE_S3 S3.completeMultipartUpload S3Enabled.module].
    pose proof (completeMultipartUpload_finalises key uploadId parts key uploadId) as H.
    destruct (S3Enabled.completeMultipartUpload e aws key uploadId parts) as [ev [url|m]].
    repeat case_match; simplify_eq/=; harmless_events.
    repeat case_match; simplify_eq/=; harmless_events.
  - unfold Routes.direct_upload_config.
    route (PostDirectConfig fileName fileType fileSize).
  - constructor.
  - unfold Routes.direct_upload_register, Routes.generateThumbnail.
    route (PostDirectRegister key title).
  - unfold Routes.post_videos, Routes.processVideoUpload, Routes.generateThumbnail.
    route (PostVideos file title).
Qed.

End ServerFinalises.

(** ** The check before the completion *)

Lemma recorded_gap (recorded : list Z) (n i : Z) :
  NoDup recorded -> Forall (fun k => 1 <= k <= n) recorded ->
  1 <= i <= n -> i ∉ recorded ->
  Z.of_nat (length recorded) < n.
Proof.
  intros Hnodup Hrange Hi Hmissing.
  assert (Hsub : i :: recorded ⊆+ seqZ 1 n).
  { apply NoDup_submseteq; [constructor; assumption |].
    intros k Hk. apply elem_of_seqZ.
    apply elem_of_cons in Hk as [->|Hk]; [lia |].
    rewrite Forall_forall in Hrange. specialize (Hrange k Hk). lia. }
  apply submseteq_length in Hsub. rewrite length_seqZ in Hsub. cbn in Hsub. lia.
Qed.

Lemma missingParts_elem (ps : list Part) (n i : Z) :
  i ∈ UploadModal.missingParts ps n <-> 1 <= i <= n /\ i ∉ map PartNumber ps.
Proof.
  unfold UploadModal.missingParts.
  rewrite list_elem_of_filter, elem_of_seqZ.
  assert (Hin : existsb (Z.eqb i) (map PartNumber ps) = true <-> i ∈ map PartNumber ps).
  { rewrite existsb_exists. split.
    - intros (k & Hk & Heq). apply Z.eqb_eq in Heq. subst k.
      apply list_elem_of_In, Hk.
    - intros Hi. exists i. split; [apply list_elem_of_In, Hi | apply Z.eqb_refl]. }
  destruct (existsb (Z.eqb i) (map PartNumber ps)); cbn.
  - split; [tauto |]. intros [_ Hni]. exfalso. apply Hni, Hin. reflexivity.
  - split.
    + intros [_ Hi]. split; [lia |]. intros Hmem. apply Hin in Hmem. discriminate.
    + intros [Hi _]. split; [exact I | lia].
Qed.

(** With a part number missing from the recorded parts, the upload throws
    after it has logged the missing numbers, and asks for nothing. *)
Lemma finishUpload_gap {W : Type} (step : W -> request -> W * list aws_event * reply)
    (file : File) (key uploadId title : string) (st : UploadModal.State) (i : Z) :
  let n := UploadModal.numPartsFor (size file) in
  let recorded := map PartNumber (UploadModal.parts st) in
  NoDup recorded -> Forall (fun k => 1 <= k <= n) recorded ->
  1 <= i <= n -> i ∉ recorded ->
  UploadModal.finishUpload step file key uploadId title st
  = ({| UploadModal.world := UploadModal.world st;
        UploadModal.trace :=
          UploadModal.trace st
          ++ [ConsoleErrorMissingParts
                (UploadModal.missingParts (UploadModal.parts st) n)];
        UploadModal.parts := UploadModal.parts st;
        UploadModal.failedParts := UploadModal.failedParts st |},
     Thrown (UploadIncomplete (n - Z.of_nat (length (UploadModal.parts st))) n))
  /\ i ∈ UploadModal.missingParts (UploadModal.parts st) n
  /\ 0 < n - Z.of_nat (length (UploadModal.parts st)).
Proof.
  intros n recorded Hnodup Hrange Hi Hmissing.
  pose proof (recorded_gap recorded n i Hnodup Hrange Hi Hmissing) as Hshort.
  unfold recorded in Hshort. rewrite length_map in Hshort.
  split; [| split; [apply missingParts_elem; split; assumption | lia]].
  unfold UploadModal.finishUpload.
  cbv [UploadModal.bind UploadModal.verifyParts UploadModal.get_parts
       UploadModal.throw UploadModal.ret UploadModal.emit].
  fold n.
  destruct (Z.eqb_spec (Z.of_nat (length (UploadModal.parts st))) n) as [Heq|Hne];
    [lia | reflexivity].
Qed.



(** ** The chain of fallbacks *)

Lemma selectable_size (file : File) :
  selectable file -> size file <= ClientConfig.maxFileSize.
Proof.
  unfold selectable, UploadModal.onDrop, UploadModal.handleFileChange.
  intros [H|[production H]]; destruct (negb _); try discriminate.
  - destruct (Z.ltb_spec ClientConfig.maxFileSize (size file)); [discriminate | lia].
  - destruct production;
      destruct (Z.ltb_spec ClientConfig.maxFileSize (size file)); try discriminate;
      try lia;
      destruct (Z.ltb_spec ClientConfig.devMaxFileSize (size file)); try discriminate;
      unfold ClientConfig.maxFileSize, ClientConfig.devMaxFileSize in *; lia.
Qed.

Section FallbackChain.
Context {W : Type} (step : W -> request -> W * list aws_event * reply).
Context (file : File) (title : string).

Lemma mutationFn_chain st :
  selectable file -> title <> "" -> 150 * MiB < size file ->
  UploadModal.mutationFn step (Some file) title st
  = noted (fallbackChain step file title) st.
Proof.
  intros Hfile Htitle Hsize. apply selectable_size in Hfile.
  unfold MiB in Hsize.
  unfold UploadModal.mutationFn.
  replace (title =? "")%string with false
    by (symmetry; apply String.eqb_neq, Htitle).
  replace (ClientConfig.maxFileSize <? size file) with false
    by (symmetry; apply Z.ltb_ge, Hfile).
  replace (UploadModal.LARGE_FILE_THRESHOLD <? size file) with true
    by (symmetry; apply Z.ltb_lt; unfold UploadModal.LARGE_FILE_THRESHOLD; lia).
  replace (UploadModal.MEDIUM_FILE_THRESHOLD <? size file) with true
    by (symmetry; apply Z.ltb_lt; unfold UploadModal.MEDIUM_FILE_THRESHOLD; lia).
  unfold noted, fallbackChain.
  cbv [UploadModal.try_catch UploadModal.bind UploadModal.ret UploadModal.throw].
  destruct (UploadModal.trueBrowserDirectUpload step file title st) as [st1 [r1|e1]];
    [reflexivity |].
  destruct (UploadModal.uploadDirectlyToS3 step file title st1) as [st2 [r2|e2]];
    [reflexivity |].
  cbv [UploadModal.emit]. cbn [UploadModal.world UploadModal.trace UploadModal.parts
                                UploadModal.failedParts].
  destruct (UploadModal.standardUpload step file title _) as [st3 [r3|e3]]; reflexivity.
Qed.

Lemma standardUpload_throws st st' e :
  UploadModal.standardUpload step file title st = (st', Thrown e) ->
  relay_error e /\ Fetch (PostVideos file title) ∈ UploadModal.trace st'.
Proof.
  unfold UploadModal.standardUpload.
  cbv [UploadModal.bind UploadModal.fetch UploadModal.throw UploadModal.ret
       UploadModal.emit].
  destruct (step (UploadModal.world st) _) as [[w' log] [|res]]; cbn.
  - intros [= <- <-]. cbn. split; [exact I |]. set_solver.
  - destruct (ok res); cbn.
    + destruct (json res); intros [= <- <-]. cbn. split; [exact I |]. set_solver.
    + intros [= <- <-]. cbn. split; [exact I |]. set_solver.
Qed.

#[global] Instance quiet_preorder : PreOrder (quiet (W:=W)).
Proof.
  split.
  - intros st0. exists []. rewrite app_nil_r. split; [reflexivity | set_solver].
  - intros st1 st2 st3 (l1 & H1 & Hl1) (l2 & H2 & Hl2).
    exists (l1 ++ l2). rewrite H2, H1, app_assoc. split; [reflexivity |].
    rewrite elem_of_app. tauto.
Qed.

Lemma quiet_fetch r st :
  (fun _ : request => True) r -> quiet st (fst (UploadModal.fetch step r st)).
Proof.
  intros _. unfold UploadModal.fetch.
  destruct (step (UploadModal.world st) r) as [[w' log] rep]. cbn.
  eexists. split; [reflexivity |].
  intros Hin. apply elem_of_cons in Hin as [Heq|Hin]; [discriminate |].
  apply list_elem_of_fmap in Hin as (a & Heq & _). discriminate.
Qed.

Lemma quiet_emit e (st : @UploadModal.State W) :
  progress_event e -> quiet st (fst (UploadModal.emit e st)).
Proof.
  intros [_ He]. exists [e]. split; [reflexivity |].
  intros Hin. apply list_elem_of_singleton in Hin. congruence.
Qed.

Lemma quiet_upload (st : @UploadModal.State W) ps failed :
  quiet st
    {| UploadModal.world := UploadModal.world st;
       UploadModal.trace := UploadModal.trace st;
       UploadModal.parts := ps; UploadModal.failedParts := failed |}.
Proof. exists []. cbn. rewrite app_nil_r. split; [reflexivity | set_solver]. Qed.

Lemma quiet_uploadParts key uploadId :
  lifts quiet (UploadModal.uploadParts step file key uploadId title).
Proof.
  pose proof quiet_fetch as Hfetch.
  pose proof quiet_emit as Hemit.
  pose proof quiet_upload as Hupload.
  unfold UploadModal.uploadParts, UploadModal.finishUpload, UploadModal.verifyParts,
    UploadModal.completeUpload.
  lifting.
  - apply (lifts_uploadBatches step quiet (fun _ => True) Hfetch Hemit Hupload).
    intros r _. exact I.
  - apply (lifts_registerS3Video step quiet (fun _ => True) Hfetch).
    intros r _. exact I.
Qed.

Lemma quiet_mutationFn :
  lifts quiet (UploadModal.mutationFn step (Some file) title).
Proof.
  apply (lifts_mutationFn step quiet (fun _ => True) quiet_fetch quiet_emit).
  - intros r _. exact I.
  - apply quiet_uploadParts.
Qed.

End FallbackChain.

Lemma chain_throws {W : Type} (step : W -> request -> W * list aws_event * reply)
    (file : File) (title : string) (st stf : UploadModal.State) (e : error) :
  noted (fallbackChain step file title) st = (stf, Thrown e) ->
  exists st1 e1 st2 e2 st3,
    UploadModal.trueBrowserDirectUpload step file title st = (st1, Thrown e1)
    /\ UploadModal.uploadDirectlyToS3 step file title st1 = (st2, Thrown e2)
    /\ UploadModal.standardUpload step file title
         (fst (UploadModal.emit (Toast "S3 Upload Failed" true)
                 (fst (UploadModal.emit (SetErrorMessage e2) st2))))
       = (st3, Thrown e)
    /\ stf = fst (UploadModal.emit (SetErrorMessage e) st3).
Proof.
  unfold noted, fallbackChain.
  cbv [UploadModal.try_catch UploadModal.bind UploadModal.throw].
  destruct (UploadModal.trueBrowserDirectUpload step file title st)
    as [st1 [r1|e1]] eqn:Hdirect; [discriminate |].
  destruct (UploadModal.uploadDirectlyToS3 step file title st1)
    as [st2 [r2|e2]] eqn:Hassisted; [discriminate |].
  cbv [UploadModal.emit].
  cbn [UploadModal.world UploadModal.trace UploadModal.parts UploadModal.failedParts].
  destruct (UploadModal.standardUpload step file title _)
    as [st3 [r3|e3]] eqn:Hrelay; [discriminate |].
  intros [= <- <-].
  exists st1, e1, st2, e2, st3.
  split; [reflexivity |]. split; [exact Hassisted |]. split; [exact Hrelay |].
  reflexivity.
Qed.

Lemma mutate_run {W : Type} (step : W -> request -> W * list aws_event * reply)
    (selectedFile : option File) (title : string) (st : UploadModal.State) :
  UploadModal.mutate step selectedFile title st
  = match UploadModal.mutationFn step selectedFile title st with
    | (st1, Done r) =>
        (fst (UploadModal.emit (Toast "Upload successful" false) st1), Done r)
    | (st1, Thrown e) => (fst (UploadModal.emit terminalReport st1), Thrown e)
    end.
Proof.
  unfold UploadModal.mutate, UploadModal.try_catch, UploadModal.bind.
  destruct (UploadModal.mutationFn step selectedFile title st) as [st1 [r|e]];
    reflexivity.
Qed.




(** ** The strategy of an upload *)

Section Strategy.
Context {W : Type} (step : W -> request -> W * list aws_event * reply).
Context (file : File) (title : string).

Lemma mutationFn_relayed st :
  selectable file -> title <> "" -> size file <= 50 * MiB ->
  UploadModal.mutationFn step (Some file) title st
  = noted (UploadModal.standardUpload step file title) st.
Proof.
  intros Hfile Htitle Hsize. apply selectable_size in Hfile.
  unfold MiB in Hsize.
  unfold UploadModal.mutationFn.
  replace (title =? "")%string with false
    by (symmetry; apply String.eqb_neq, Htitle).
  replace (ClientConfig.maxFileSize <? size file) with false
    by (symmetry; apply Z.ltb_ge, Hfile).
  replace (UploadModal.LARGE_FILE_THRESHOLD <? size file) with false
    by (symmetry; apply Z.ltb_ge; unfold UploadModal.LARGE_FILE_THRESHOLD; lia).
  replace (UploadModal.MEDIUM_FILE_THRESHOLD <? size file) with false
    by (symmetry; apply Z.ltb_ge; unfold UploadModal.MEDIUM_FILE_THRESHOLD; lia).
  unfold noted.
  cbv [UploadModal.try_catch UploadModal.bind UploadModal.ret UploadModal.throw].
  destruct (UploadModal.standardUpload step file title st) as [st3 [r3|e3]]; reflexivity.
Qed.

Lemma mutationFn_assisted st :
  selectable file -> title <> "" -> 50 * MiB < size file <= 150 * MiB ->
  UploadModal.mutationFn step (Some file) title st
  = noted (assistedChain step file title) st.
Proof.
  intros Hfile Htitle Hsize. apply selectable_size in Hfile.
  unfold MiB in Hsize.
  unfold UploadModal.mutationFn.
  replace (title =? "")%string with false
    by (symmetry; apply String.eqb_neq, Htitle).
  replace (ClientConfig.maxFileSize <? size file) with false
    by (symmetry; apply Z.ltb_ge, Hfile).
  replace (UploadModal.LARGE_FILE_THRESHOLD <? size file) with false
    by (symmetry; apply Z.ltb_ge; unfold UploadModal.LARGE_FILE_THRESHOLD; lia).
  replace (UploadModal.MEDIUM_FILE_THRESHOLD <? size file) with true
    by (symmetry; apply Z.ltb_lt; unfold UploadModal.MEDIUM_FILE_THRESHOLD; lia).
  unfold noted, assistedChain.
  cbv [UploadModal.try_catch UploadModal.bind UploadModal.ret UploadModal.throw].
  destruct (UploadModal.uploadDirectlyToS3 step file title st) as [st2 [r2|e2]];
    [reflexivity |].
  cbv [UploadModal.emit]. cbn [UploadModal.world UploadModal.trace UploadModal.parts
                                UploadModal.failedParts].
  destruct (UploadModal.standardUpload step file title _) as [st3 [r3|e3]]; reflexivity.
Qed.

(** The requests of the branch for files up to 100 MiB: one for the signed
    URL, one that puts the file to it, one that registers the key, in this
    order and up to the first failure. *)
Lemma uploadSinglePut_requests st :
  let run := UploadModal.uploadSinglePut step file title st in
  exists (url key : string) (n : nat),
    (1 <= n <= 3)%nat
    /\ System.requests (UploadModal.trace (fst run))
       = System.requests (UploadModal.trace st)
         ++ take n [GetUploadUrl (type file) (name file);
                    PutToS3 url (size file);
                    PostVideosS3 key title]
    /\ (forall r, snd run = Done r ->
          n = 3%nat /\ exists id, r = UploadModal.S3Result id key).
Proof.
  unfold UploadModal.uploadSinglePut, UploadModal.registerS3Video.
  cbv [UploadModal.bind UploadModal.fetch_response UploadModal.fetch UploadModal.json_of
       UploadModal.ret UploadModal.throw].
  destruct (step (UploadModal.world st) _) as [[w1 log1] [|res1]]; cbn.
  { exists "", "", 1%nat. rewrite requests_fetch. split; [lia |]. split; [reflexivity | discriminate]. }
  destruct (ok res1); cbn.
  2: { destruct (json res1) as [b|]; cbn;
         [destruct b; cbn;
          try match goal with |- context [if ?f then _ else _] => destruct f; cbn end |];
         exists "", "", 1%nat; rewrite requests_fetch;
         (split; [lia |]); (split; [reflexivity | discriminate]). }
  destruct (json res1) as [b|]; cbn.
  2: { exists "", "", 1%nat. rewrite requests_fetch. split; [lia |]. split; [reflexivity | discriminate]. }
  set (target := match b with JUploadUrl u k => (u, k) | _ => ("undefined", "undefined") end).
  destruct target as [uploadUrl key]. cbn.
  destruct (step w1 _) as [[w2 log2] [|res2]]; cbn.
  { exists uploadUrl, "", 2%nat. rewrite !requests_fetch, <- app_assoc.
    split; [lia |]. split; [reflexivity | discriminate]. }
  destruct (ok res2); cbn.
  2: { exists uploadUrl, "", 2%nat. rewrite !requests_fetch, <- app_assoc.
       split; [lia |]. split; [reflexivity | discriminate]. }
  destruct (step w2 _) as [[w3 log3] [|res3]]; cbn.
  { exists uploadUrl, key, 3%nat. rewrite !requests_fetch, <- !app_assoc.
    split; [lia |]. split; [reflexivity | discriminate]. }
  destruct (ok res3); cbn; destruct (json res3) as [video|]; cbn;
    exists uploadUrl, key, 3%nat; rewrite !requests_fetch, <- !app_assoc;
    (split; [lia |]); (split; [reflexivity |]); try discriminate.
  intros r [= <-]. split; [reflexivity |]. eexists. reflexivity.
Qed.

(** The branch for files above 100 MiB begins with the request that
    initialises a multipart upload. *)
Lemma uploadMultipart_first_request st :
  exists rest,
    System.requests
      (UploadModal.trace (fst (UploadModal.uploadMultipart step file title st)))
    = System.requests (UploadModal.trace st)
      ++ PostMultipartInit (name file) (type file) (size file) :: rest.
Proof.
  unfold UploadModal.uploadMultipart.
  cbv [UploadModal.bind UploadModal.fetch_response UploadModal.fetch UploadModal.json_of
       UploadModal.ret UploadModal.throw].
  destruct (step (UploadModal.world st) _) as [[w1 log1] [|res1]]; cbn.
  { exists []. apply requests_fetch. }
  destruct (ok res1); cbn.
  - destruct (json res1) as [b|]; cbn; [| exists []; apply requests_fetch].
    set (target := match b with JInit u k => (u, k) | _ => ("undefined", "undefined") end).
    destruct target as [uploadId key].
    match goal with
    | |- context [UploadModal.uploadParts step file key uploadId title ?st1] =>
        destruct (quiet_uploadParts step file title key uploadId st1) as (new & Hnew & _)
    end.
    rewrite Hnew. cbn [UploadModal.trace].
    exists (System.requests new).
    rewrite requests_app, requests_fetch, <- app_assoc. reflexivity.
  - destruct (json res1) as [b|]; cbn; [| exists []; apply requests_fetch].
    destruct b; cbn; try case_if; cbn; exists []; apply requests_fetch.
Qed.

End Strategy.

(** The route of the upload URL signs one URL, for one hour, or none. *)
Lemma upload_url_issues_one (env : ProcessEnv) (aws : AWS) (uuid : nat -> string)
    (rt : Runtime) (fileType fileName : string) :
  let issued := fst (Routes.upload_url (S3Enabled.module env aws uuid) rt fileType fileName) in
  issued = [] \/ exists key, issued = [Signed (PutObjectCommand key) 3600].
Proof.
  unfold Routes.upload_url. cbn [S3.USE_S3 S3.generatePresignedUploadUrl S3Enabled.module].
  destruct (negb (S3Enabled.checkS3Configuration env)) eqn:Hc; [left; reflexivity |].
  destruct (_ || _); [left; reflexivity |].
  unfold S3Enabled.generatePresignedUploadUrl, S3Enabled.configured. rewrite Hc.
  cbn [default from_option id]. unfold S3Enabled.sign.
  destruct (getSignedUrl aws _ _); cbn; [right; eexists; reflexivity | left; reflexivity].
Qed.




(** * Further properties of the code *)

(** ** Arrays *)

Lemma find_app {A : Type} (p : A -> bool) (l1 l2 : list A) :
  List.find p (l1 ++ l2)
  = match List.find p l1 with
    | Some x => Some x
    | None => List.find p l2
    end.
Proof.
  induction l1 as [|x l1 IH]; [reflexivity |].
  cbn. destruct (p x); [reflexivity | exact IH].
Qed.

Lemma find_none_iff {A : Type} (p : A -> bool) (l : list A) :
  List.find p l = None <-> Forall (fun x => p x = false) l.
Proof.
  induction l as [|x l IH]; cbn.
  - split; [constructor | reflexivity].
  - destruct (p x) eqn:Hp.
    + split; [discriminate |]. intros H. inversion H; congruence.
    + rewrite IH. split; [intros H; constructor; assumption |].
      intros H. inversion H; assumption.
Qed.

Lemma find_filter {A : Type} (p q : A -> bool) (l : list A) :
  List.find p (List.filter q l) = List.find (fun x => q x && p x) l.
Proof.
  induction l as [|x l IH]; [reflexivity |].
  cbn. destruct (q x); cbn; [| exact IH].
  destruct (p x); [reflexivity | exact IH].
Qed.

Lemma find_ext {A : Type} (p q : A -> bool) (l : list A) :
  (forall x, p x = q x) -> List.find p l = List.find q l.
Proof.
  intros H. induction l as [|x l IH]; [reflexivity |].
  cbn. rewrite H, IH. reflexivity.
Qed.

Lemma filter_all {A : Type} (p : A -> bool) (l : list A) :
  Forall (fun x => p x = true) l -> List.filter p l = l.
Proof.
  intros H. induction H as [|x l Hx _ IH]; [reflexivity |].
  cbn. rewrite Hx, IH. reflexivity.
Qed.

(** The index that findIndex gives is the place of the element that find
    gives. *)
Lemma findIndex_find {A : Type} (p : A -> bool) (l : list A) :
  match JSArray.findIndex p l with
  | Some i => exists x, l !! i = Some x /\ List.find p l = Some x /\ p x = true
  | None => List.find p l = None
  end.
Proof.
  induction l as [|x l IH]; [reflexivity |].
  cbn. destruct (p x) eqn:Hp.
  - exists x. split; [reflexivity |]. split; [reflexivity | exact Hp].
  - destruct (JSArray.findIndex p l) as [i|]; cbn; exact IH.
Qed.

(** ** The storage in memory *)

Lemma has_id_eq (n : Z) (v : Schema.Video.t) :
  MemStorage.has_id (JS.Num n) v = true -> Schema.Video.id v = n.
Proof. cbn. apply Z.eqb_eq. Qed.

Lemma filter_filter_about_same (id : JS.number) (cs : list Schema.Comment.t) :
  List.filter (MemStorage.about id)
    (List.filter (fun comment => negb (MemStorage.about id comment)) cs) = [].
Proof.
  induction cs as [|c cs IH]; [reflexivity |].
  cbn. destruct (MemStorage.about id c) eqn:Hc; cbn; [exact IH |].
  rewrite Hc. exact IH.
Qed.

Lemma filter_filter_about_other (id other : JS.number) (cs : list Schema.Comment.t) :
  other <> id ->
  List.filter (MemStorage.about other)
    (List.filter (fun comment => negb (MemStorage.about id comment)) cs)
  = List.filter (MemStorage.about other) cs.
Proof.
  intros Hother. induction cs as [|c cs IH]; [reflexivity |].
  cbn. destruct (MemStorage.about id c) eqn:Hc; cbn.
  - destruct (MemStorage.about other c) eqn:Ho; [| exact IH].
    exfalso. destruct other as [|m|], id as [|n|]; cbn in *; try discriminate.
    apply Z.eqb_eq in Hc, Ho. congruence.
  - destruct (MemStorage.about other c); [f_equal |]; exact IH.
Qed.

(** A video that createVideo makes in a store whose identifiers are below
    the counter gets the counter as its identifier, which no video has;
    getVideo finds it under that identifier and finds the other videos as
    before; the identifiers stay below the counter, and stay distinct when
    they were. *)
Theorem createVideo_id_fresh (insertVideo : Schema.InsertVideo.t) (now : Z)
    (st : MemStorage.t) :
  idsBelowCounter (MemStorage.data st) ->
  let st' := fst (MemStorage.createVideo insertVideo now st) in
  let video := snd (MemStorage.createVideo insertVideo now st) in
  MemStorage.nextVideoId (MemStorage.data st) = Some (Schema.Video.id video)
  /\ (forall old, old ∈ MemStorage.videos (MemStorage.data st) ->
        Schema.Video.id old <> Schema.Video.id video)
  /\ MemStorage.getVideo (JS.Num (Schema.Video.id video)) st' = Some video
  /\ (forall id, id <> JS.Num (Schema.Video.id video) ->
        MemStorage.getVideo id st' = MemStorage.getVideo id st)
  /\ idsBelowCounter (MemStorage.data st')
  /\ (NoDup (map Schema.Video.id (MemStorage.videos (MemStorage.data st))) ->
      NoDup (map Schema.Video.id (MemStorage.videos (MemStorage.data st')))).
Proof.
  intros (n & Hnext & Hbelow) st' video.
  subst st' video. unfold MemStorage.createVideo, MemStorage.getVideo.
  cbn [fst snd MemStorage.saveToDisk MemStorage.data MemStorage.videos
       MemStorage.nextVideoId Schema.Video.id].
  rewrite Hnext. change (default 1 (Some n)) with n.
  assert (Hnone : List.find (MemStorage.has_id (JS.Num n))
                    (MemStorage.videos (MemStorage.data st)) = None).
  { apply find_none_iff. eapply Forall_impl; [exact Hbelow |].
    intros v Hv. cbn in *. apply Z.eqb_neq. lia. }
  assert (Hold : forall old, old ∈ MemStorage.videos (MemStorage.data st) ->
                             Schema.Video.id old <> n).
  { intros old Hold. rewrite Forall_forall in Hbelow.
    specialize (Hbelow old Hold). cbn in Hbelow. lia. }
  split; [reflexivity |]. split; [exact Hold |]. split; [| split; [| split]].
  - rewrite find_app, Hnone. cbn. rewrite Z.eqb_refl. reflexivity.
  - intros id Hid. rewrite find_app.
    destruct (List.find (MemStorage.has_id id) _) as [v|]; [reflexivity |].
    cbn. destruct id as [|m|]; cbn; [reflexivity | | reflexivity].
    destruct (Z.eqb_spec n m) as [->|_]; [congruence | reflexivity].
  - exists (n + 1). split; [reflexivity |].
    apply Forall_app. split.
    + eapply Forall_impl; [exact Hbelow |]. intros v Hv. cbn in *. lia.
    + constructor; [cbn; lia | constructor].
  - intros Hnodup. rewrite map_app. apply NoDup_app. split; [exact Hnodup |].
    split; [| cbn; apply NoDup_singleton].
    intros i Hi Hnew. cbn in Hnew. apply list_elem_of_singleton in Hnew. subst i.
    apply list_elem_of_fmap in Hi as (old & Heq & Hin).
    apply (Hold old Hin). symmetry. exact Heq.
Qed.

Lemma createVideo_id_fresh_witness :
  idsBelowCounter (MemStorage.data (MemStorage.fresh true))
  /\ MemStorage.getVideo (JS.Num 1)
       (fst (MemStorage.createVideo sampleInsert 0 (MemStorage.fresh true)))
     = Some (snd (MemStorage.createVideo sampleInsert 0 (MemStorage.fresh true))).
Proof.
  assert (H : idsBelowCounter (MemStorage.data (MemStorage.fresh true))).
  { exists 1. split; [reflexivity | constructor]. }
  split; [exact H |].
  exact (proj1 (proj2 (proj2 (createVideo_id_fresh sampleInsert 0 _ H)))).
Defined.

(** When the counter of the videos is null or undefined, as after loading
    a data file that does not have it, createVideo starts again from 1: in
    a store that has a video 1 the new video gets the same identifier, and
    getVideo goes on finding the old one. *)
Theorem createVideo_counter_lost (insertVideo : Schema.InsertVideo.t) (now : Z)
    (st : MemStorage.t) (old : Schema.Video.t) :
  MemStorage.nextVideoId (MemStorage.data st) = None ->
  MemStorage.getVideo (JS.Num 1) st = Some old ->
  let st' := fst (MemStorage.createVideo insertVideo now st) in
  let video := snd (MemStorage.createVideo insertVideo now st) in
  Schema.Video.id video = 1
  /\ Schema.Video.id old = 1
  /\ MemStorage.videos (MemStorage.data st')
     = MemStorage.videos (MemStorage.data st) ++ [video]
  /\ old ∈ MemStorage.videos (MemStorage.data st)
  /\ MemStorage.getVideo (JS.Num 1) st' = Some old.
Proof.
  intros Hnext Hold st' video. subst st' video.
  unfold MemStorage.createVideo, MemStorage.getVideo in *.
  cbn [fst snd MemStorage.saveToDisk MemStorage.data MemStorage.videos
       Schema.Video.id].
  rewrite Hnext. change (default 1 None) with 1.
  pose proof (find_some _ _ Hold) as [Hin Hid]. apply has_id_eq in Hid.
  split; [reflexivity |]. split; [exact Hid |]. split; [reflexivity |].
  split; [apply list_elem_of_In, Hin |].
  rewrite find_app, Hold. reflexivity.
Qed.

Lemma createVideo_counter_lost_witness :
  MemStorage.getVideo (JS.Num 1)
    (fst (MemStorage.createVideo sampleInsert 5 lostCounter))
  = Some sampleVideo
  /\ Schema.Video.id (snd (MemStorage.createVideo sampleInsert 5 lostCounter)) = 1.
Proof.
  pose proof (createVideo_counter_lost sampleInsert 5 lostCounter sampleVideo
                eq_refl eq_refl) as (Hid & _ & _ & _ & Hget).
  split; [exact Hget | exact Hid].
Defined.

Lemma deleteVideo_data (id : JS.number) (st : MemStorage.t) :
  MemStorage.data (fst (MemStorage.deleteVideo id st))
  = {| MemStorage.videos :=
         List.filter (fun video => negb (MemStorage.has_id id video))
           (MemStorage.videos (MemStorage.data st));
       MemStorage.users := MemStorage.users (MemStorage.data st);
       MemStorage.comments :=
         List.filter (fun comment => negb (MemStorage.about id comment))
           (MemStorage.comments (MemStorage.data st));
       MemStorage.nextVideoId := MemStorage.nextVideoId (MemStorage.data st);
       MemStorage.nextUserId := MemStorage.nextUserId (MemStorage.data st);
       MemStorage.nextCommentId := MemStorage.nextCommentId (MemStorage.data st) |}.
Proof. unfold MemStorage.deleteVideo. cbn. destruct (negb _); reflexivity. Qed.

Lemma deleteVideo_success (id : JS.number) (st : MemStorage.t) :
  snd (MemStorage.deleteVideo id st)
  = negb (Nat.eqb
            (length (List.filter (fun video => negb (MemStorage.has_id id video))
                       (MemStorage.videos (MemStorage.data st))))
            (length (MemStorage.videos (MemStorage.data st)))).
Proof. reflexivity. Qed.

(** What deleteVideo removes and what it leaves. *)
Lemma deleteVideo_outcome (id : JS.number) (st : MemStorage.t) :
  let st' := fst (MemStorage.deleteVideo id st) in
  let success := snd (MemStorage.deleteVideo id st) in
  (success = true <-> is_Some (MemStorage.getVideo id st))
  /\ MemStorage.getVideo id st' = None
  /\ MemStorage.getComments id st' = []
  /\ (forall other, other <> id ->
        MemStorage.getVideo other st' = MemStorage.getVideo other st
        /\ MemStorage.getComments other st' = MemStorage.getComments other st)
  /\ (success = false ->
      MemStorage.videos (MemStorage.data st') = MemStorage.videos (MemStorage.data st)).
Proof.
  intros st' success. subst st' success.
  rewrite deleteVideo_success.
  unfold MemStorage.getVideo, MemStorage.getComments.
  rewrite !deleteVideo_data.
  cbn [MemStorage.data MemStorage.videos MemStorage.comments].
  set (d := MemStorage.data st).
  set (kept := List.filter (fun video => negb (MemStorage.has_id id video))
                 (MemStorage.videos d)).
  assert (Hsuccess : negb (Nat.eqb (length kept) (length (MemStorage.videos d))) = true
                     <-> is_Some (MemStorage.getVideo id st)).
  { unfold MemStorage.getVideo. fold d. subst kept.
    induction (MemStorage.videos d) as [|v l IH]; cbn.
    - split; [discriminate | intros [? ?]; discriminate].
    - destruct (MemStorage.has_id id v) eqn:Hv; cbn.
      + split; [intros _; eexists; reflexivity |]. intros _.
        pose proof (List.filter_length_le
                      (fun video => negb (MemStorage.has_id id video)) l) as Hle.
        destruct (Nat.eqb_spec
                    (length (List.filter
                               (fun video => negb (MemStorage.has_id id video)) l))
                    (S (length l))) as [Heq|Hne]; [lia | reflexivity].
      + exact IH. }
  split; [exact Hsuccess |]. split; [| split; [| split]].
  - subst kept. rewrite find_filter. apply find_none_iff, Forall_forall.
    intros v _. destruct (MemStorage.has_id id v); reflexivity.
  - rewrite filter_filter_about_same. reflexivity.
  - intros other Hother. split.
    + subst kept. rewrite find_filter. apply find_ext. intros v.
      destruct (MemStorage.has_id other v) eqn:Ho; [| apply andb_false_r].
      rewrite andb_true_r. apply negb_true_iff.
      destruct other as [|m|], id as [|n|]; cbn in *; try discriminate; try reflexivity.
      apply Z.eqb_eq in Ho. apply Z.eqb_neq. congruence.
    + f_equal. apply filter_filter_about_other, Hother.
  - intros Hfalse. subst kept.
    apply not_true_iff_false in Hfalse.
    assert (Hnone : MemStorage.getVideo id st = None).
    { destruct (MemStorage.getVideo id st) eqn:Hget; [| reflexivity].
      exfalso. apply Hfalse, Hsuccess. eexists; reflexivity. }
    unfold MemStorage.getVideo in Hnone. fold d in Hnone.
    apply find_none_iff in Hnone.
    apply filter_all. eapply Forall_impl; [exact Hnone |].
    intros v Hv. cbn beta. rewrite Hv. reflexivity.
Qed.

(** deleteVideo tells whether a video had the identifier.  Afterwards no
    video has it and no comment is about it, while the videos and the
    comments of the other identifiers are found as before. *)
Theorem deleteVideo_effect (id : JS.number) (st : MemStorage.t) :
  let st' := fst (MemStorage.deleteVideo id st) in
  let success := snd (MemStorage.deleteVideo id st) in
  (success = true <-> is_Some (MemStorage.getVideo id st))
  /\ MemStorage.getVideo id st' = None
  /\ MemStorage.getComments id st' = []
  /\ (forall other, other <> id ->
        MemStorage.getVideo other st' = MemStorage.getVideo other st
        /\ MemStorage.getComments other st' = MemStorage.getComments other st)
  /\ (success = false ->
      MemStorage.videos (MemStorage.data st') = MemStorage.videos (MemStorage.data st)).
Proof. exact (deleteVideo_outcome id st). Qed.

(** ** The lists of videos *)

Section Sorting.
Context {A : Type} (key : A -> Z).

Let cmp (a b : A) : Z := key b - key a.

Lemma insert_perm (x : A) (l : list A) : JSArray.insert cmp x l ≡ₚ x :: l.
Proof.
  induction l as [|y l IH]; [reflexivity |].
  cbn. destruct (cmp x y <=? 0); [reflexivity |].
  rewrite IH. apply Permutation_swap.
Qed.

Lemma sort_perm (l : list A) : JSArray.sort cmp l ≡ₚ l.
Proof.
  induction l as [|x l IH]; [reflexivity |].
  cbn. rewrite insert_perm. f_equiv. exact IH.
Qed.

Lemma Descending_bound (x : A) (l : list A) :
  Descending key (x :: l) -> Forall (fun y => key y <= key x) l.
Proof. intros H. inversion H; assumption. Qed.

Lemma insert_descending (x : A) (l : list A) :
  Descending key l -> Descending key (JSArray.insert cmp x l).
Proof.
  induction 1 as [|y l Hy Hl IH]; cbn.
  - constructor; constructor.
  - unfold cmp at 1. destruct (Z.leb_spec (key y - key x) 0) as [Hle|Hgt].
    + constructor; [| constructor; assumption].
      constructor; [lia |].
      eapply Forall_impl; [exact Hy |]. intros z Hz. cbn in Hz. lia.
    + constructor; [| exact IH].
      rewrite insert_perm. constructor; [lia | exact Hy].
Qed.

Lemma sort_descending (l : list A) : Descending key (JSArray.sort cmp l).
Proof.
  induction l as [|x l IH]; [constructor |].
  cbn. apply insert_descending, IH.
Qed.

Lemma Descending_take (n : nat) (l : list A) :
  Descending key l -> Descending key (take n l).
Proof.
  intros H. revert n. induction H as [|x l Hx Hl IH]; intros [|n]; cbn;
    try constructor; [| apply IH].
  apply Forall_take, Hx.
Qed.

Lemma slice0_prefix (limit : JS.number) (l : list A) :
  JSArray.slice0 limit l `prefix_of` l.
Proof.
  destruct limit as [|e|[|]]; cbn; [apply prefix_nil | | apply prefix_nil | reflexivity].
  destruct (e <? 0); apply prefix_take.
Qed.

Lemma slice0_descending (limit : JS.number) (l : list A) :
  Descending key l -> Descending key (JSArray.slice0 limit l).
Proof.
  intros H. destruct limit as [|e|[|]]; cbn; [constructor | | constructor | exact H].
  destruct (e <? 0); apply Descending_take, H.
Qed.

End Sorting.

(** The lists of videos are in the order of their times of creation, the
    newest first, and hold videos of the store only, each as often as the
    store has it; a list with a limit is the beginning of the list without
    it, of as many videos as the limit when the limit is a number that is
    not negative, and empty when the limit is not a number; the list of the
    featured videos has featured videos only. *)
Theorem video_lists_newest_first (limit : JS.number) (st : MemStorage.t) :
  MemStorage.getVideos st ≡ₚ MemStorage.videos (MemStorage.data st)
  /\ Descending created (MemStorage.getVideos st)
  /\ MemStorage.getRecentVideos limit st `prefix_of` MemStorage.getVideos st
  /\ (forall k, limit = JS.Num k -> 0 <= k ->
        length (MemStorage.getRecentVideos limit st)
        = Nat.min (Z.to_nat k) (length (MemStorage.videos (MemStorage.data st))))
  /\ (limit = JS.NaN -> MemStorage.getRecentVideos limit st = [])
  /\ Descending created (MemStorage.getFeaturedVideos limit st)
  /\ Forall (fun video =>
               video ∈ MemStorage.videos (MemStorage.data st)
               /\ Schema.Video.isFeatured video = Some true)
       (MemStorage.getFeaturedVideos limit st).
Proof.
  unfold MemStorage.getVideos, MemStorage.getRecentVideos, MemStorage.getFeaturedVideos.
  change MemStorage.newestFirst with (fun a b => created b - created a).
  split; [apply sort_perm |]. split; [apply sort_descending |].
  split; [apply slice0_prefix |]. split; [| split; [| split]].
  - intros k -> Hk. cbn.
    replace (k <? 0) with false by (symmetry; apply Z.ltb_ge, Hk).
    rewrite length_take. f_equal. apply Permutation_length, sort_perm.
  - intros ->. reflexivity.
  - apply slice0_descending, sort_descending.
  - apply Forall_forall. intros video Hin.
    destruct (slice0_prefix limit
                (JSArray.sort (fun a b => created b - created a)
                   (List.filter
                      (fun video => MemStorage.flag (Schema.Video.isFeatured video))
                      (MemStorage.videos (MemStorage.data st))))) as [rest Hrest].
    assert (Hsorted : video ∈ JSArray.sort (fun a b => created b - created a)
                        (List.filter
                           (fun video => MemStorage.flag (Schema.Video.isFeatured video))
                           (MemStorage.videos (MemStorage.data st)))).
    { rewrite Hrest. apply elem_of_app. left. exact Hin. }
    rewrite sort_perm in Hsorted.
    apply list_elem_of_In, filter_In in Hsorted as [Hstore Hflag].
    split; [apply list_elem_of_In, Hstore |].
    destruct (Schema.Video.isFeatured video) as [[|]|]; [reflexivity | discriminate ..].
Qed.

(** ** The routes in front of the storage *)

Lemma find_alter_first {A : Type} (p : A -> bool) (f : A -> A) (l : list A) (i : nat) :
  (forall x, p (f x) = p x) ->
  JSArray.findIndex p l = Some i ->
  exists x, l !! i = Some x
            /\ List.find p l = Some x
            /\ alter f i l !! i = Some (f x)
            /\ List.find p (alter f i l) = Some (f x).
Proof.
  intros Hf. revert i. induction l as [|y l IH]; intros i; [discriminate |].
  cbn. destruct (p y) eqn:Hy.
  - intros [= <-]. exists y. cbn. rewrite Hf, Hy. auto.
  - destruct (JSArray.findIndex p l) as [j|] eqn:Hj; [| discriminate].
    cbn. intros [= <-]. destruct (IH j eq_refl) as (x & H1 & H2 & H3 & H4).
    exists x. cbn. rewrite Hy. auto.
Qed.

Lemma getVideo_NaN (st : MemStorage.t) : MemStorage.getVideo JS.NaN st = None.
Proof.
  unfold MemStorage.getVideo. apply find_none_iff, Forall_forall.
  intros v _. reflexivity.
Qed.

Lemma getVideo_Infinity (negative : bool) (st : MemStorage.t) :
  MemStorage.getVideo (JS.Infinity negative) st = None.
Proof.
  unfold MemStorage.getVideo. apply find_none_iff, Forall_forall.
  intros v _. reflexivity.
Qed.

(** GET /api/videos/:id answers 404 and changes nothing when no video has
    the number that parseInt reads from the parameter, as when it reads no
    number at all; otherwise it counts a view and answers with the video as
    it is after that: the views in the answer are one more than before (1
    when they were null), and they are the views that the store has. *)
Theorem videoById_counts_the_view (site : Api.Site) (idParam : string) :
  let id := JS.parseIntAuto idParam in
  let notFound := (site, Api.Status 404 (Api.JsonMessage "Video not found")) in
  (id = JS.NaN -> Api.videoById site idParam = notFound)
  /\ match MemStorage.getVideo id (Api.storage site) with
     | None => Api.videoById site idParam = notFound
     | Some video =>
         let site' := fst (Api.videoById site idParam) in
         snd (Api.videoById site idParam)
         = Api.Status 200 (Api.JsonVideo (MemStorage.viewed video))
         /\ Schema.Video.views (MemStorage.viewed video)
            = Some (default 0 (Schema.Video.views video) + 1)
         /\ MemStorage.getVideo id (Api.storage site') = Some (MemStorage.viewed video)
         /\ Api.files site' = Api.files site
     end.
Proof.
  intros id notFound. subst notFound.
  assert (Hmain :
    match MemStorage.getVideo id (Api.storage site) with
    | None =>
        Api.videoById site idParam
        = (site, Api.Status 404 (Api.JsonMessage "Video not found"))
    | Some video =>
        let site' := fst (Api.videoById site idParam) in
        snd (Api.videoById site idParam)
        = Api.Status 200 (Api.JsonVideo (MemStorage.viewed video))
        /\ Schema.Video.views (MemStorage.viewed video)
           = Some (default 0 (Schema.Video.views video) + 1)
        /\ MemStorage.getVideo id (Api.storage site') = Some (MemStorage.viewed video)
        /\ Api.files site' = Api.files site
    end).
  { unfold Api.videoById. fold id.
    unfold MemStorage.incrementViews, MemStorage.getVideo, MemStorage.getVideoRef.
    pose proof (findIndex_find (MemStorage.has_id id)
                  (MemStorage.videos (MemStorage.data (Api.storage site)))) as Hfind.
    destruct (JSArray.findIndex _ _) as [i|] eqn:Hi.
    - destruct (find_alter_first (MemStorage.has_id id) MemStorage.viewed _ i
                  ltac:(intros x; destruct id; reflexivity) Hi)
        as (x & Hx & Hfx & Halter & Hfalter).
      rewrite Hfx. cbn [fst snd Api.with_storage Api.storage Api.files
                        MemStorage.saveToDisk MemStorage.data MemStorage.videos].
      rewrite Halter. cbn [default from_option].
      split; [reflexivity |]. split; [reflexivity |].
      split; [exact Hfalter | reflexivity].
    - rewrite Hfind. reflexivity. }
  split; [| exact Hmain].
  intros HNaN. rewrite HNaN, getVideo_NaN in Hmain. exact Hmain.
Qed.

Lemma unlink_lookup (name other : string) (dir : gmap string bytes) :
  Api.unlink name dir !! other = if String.eqb other name then None else dir !! other.
Proof.
  unfold Api.unlink. destruct (String.eqb_spec other name) as [->|Hne].
  - destruct (dir !! name) eqn:H; [apply lookup_delete_eq | exact H].
  - destruct (dir !! name); [apply lookup_delete_ne; congruence | reflexivity].
Qed.

(** DELETE /api/videos/:id answers 404 and changes nothing when no video
    has the number read from the parameter.  Otherwise it answers 204,
    whatever the remote store does: the video and its comments are gone
    from the storage, the files with the base names of its two paths are
    gone from the upload and the thumbnail directory and no other file is
    touched, and nothing is asked of the remote store when S3 is off.  The
    video route then answers 404 for the file when S3 is off. *)
Theorem deleteVideoRoute_effect (USE_S3 : bool) (deleteFileFromS3 : string -> result bool)
    (site : Api.Site) (idParam : string) :
  let id := JS.parseIntAuto idParam in
  let run := Api.deleteVideoRoute USE_S3 deleteFileFromS3 site idParam in
  match MemStorage.getVideo id (Api.storage site) with
  | None => run = (site, [], Api.Status 404 (Api.JsonMessage "Video not found"))
  | Some video =>
      let site' := fst (fst run) in
      let videoFile := Routes.basename (Schema.Video.filePath video) in
      let thumbnailFile := Routes.basename (Schema.Video.thumbnailPath video) in
      snd run = Api.End 204
      /\ MemStorage.getVideo id (Api.storage site') = None
      /\ MemStorage.getComments id (Api.storage site') = []
      /\ (forall name,
            uploads (Api.files site') !! name
            = if String.eqb name videoFile then None
              else uploads (Api.files site) !! name)
      /\ (forall name,
            thumbnails (Api.files site') !! name
            = if String.eqb name thumbnailFile then None
              else thumbnails (Api.files site) !! name)
      /\ (USE_S3 = false -> snd (fst run) = [])
      /\ (forall s3 rows range,
            S3.USE_S3 s3 = false ->
            snd (Routes.get_video s3 {| store := Api.files site'; videos := rows |}
                   videoFile range)
            = Respond 404 [] (Text "Video not found"))
  end.
Proof.
  intros id run. subst run. unfold Api.deleteVideoRoute. fold id.
  destruct (MemStorage.getVideo id (Api.storage site)) as [video|] eqn:Hget;
    [| reflexivity].
  pose proof (deleteVideo_outcome id (Api.storage site))
    as (Hsuccess & Hgone & Hcomments & _ & _).
  destruct (MemStorage.deleteVideo id (Api.storage site)) as [st' success].
  cbn [fst snd] in *.
  assert (success = true) as -> by (apply Hsuccess; rewrite Hget; eexists; reflexivity).
  cbn [Api.storage Api.files uploads thumbnails].
  split; [reflexivity |]. split; [exact Hgone |]. split; [exact Hcomments |].
  split; [intros name; apply unlink_lookup |].
  split; [intros name; apply unlink_lookup |].
  split; [intros ->; reflexivity |].
  intros s3 rows range Hoff. unfold Routes.get_video.
  cbn [store uploads]. rewrite unlink_lookup, String.eqb_refl, Hoff. reflexivity.
Qed.

(** ** Downloads *)

Lemma plain_app (s1 s2 : string) : plain (s1 +:+ s2) = plain s1 && plain s2.
Proof.
  induction s1 as [|c s1 IH]; [reflexivity |].
  cbn. rewrite IH. apply andb_assoc.
Qed.

Lemma lowered_plain (c : ascii) :
  plain (JS.toLowerCase
           (String (if JSString.is_digit c || JSString.is_lower c || JSString.is_upper c
                    then c else "_"%char) EmptyString)) = true.
Proof.
  destruct c as [[|] [|] [|] [|] [|] [|] [|] [|]]; vm_compute; reflexivity.
Qed.

Lemma toLowerCase_cons (c : ascii) (s : string) :
  JS.toLowerCase (String c s)
  = JS.toLowerCase (String c EmptyString) +:+ JS.toLowerCase s.
Proof. reflexivity. Qed.

Lemma safeFilename_plain (title : string) : plain (Api.safeFilename title) = true.
Proof.
  unfold Api.safeFilename. destruct (negb _); [| reflexivity].
  rewrite plain_app. apply andb_true_iff. split; [| reflexivity].
  induction title as [|c title IH]; [reflexivity |].
  cbn [JSString.replace_non_alnum]. rewrite toLowerCase_cons, plain_app.
  rewrite lowered_plain, IH. reflexivity.
Qed.

(** GET /api/videos/:id/download hands out a file or a link only for a
    video that is marked as AI: for any other video it answers 403 and
    touches neither the files nor the remote store.  The file name that it
    puts into the Content-Disposition header is made of small letters,
    digits, underscores and dots only, whatever the title of the video. *)
Theorem download_only_ai (s3 : S3.t) (getS3KeyFromUrl : string -> string)
    (site : Api.Site) (idParam : string) :
  let id := JS.parseIntAuto idParam in
  let run := Api.download s3 getS3KeyFromUrl site idParam in
  (forall video,
     MemStorage.getVideo id (Api.storage site) = Some video ->
     Schema.Video.isAI video <> Some true ->
     run = (site, [],
            Api.Status 403 (Api.JsonMessage "Only AI-generated videos can be downloaded")))
  /\ (forall filename data,
        snd run = Api.Attachment filename data ->
        plain filename = true
        /\ exists video,
             MemStorage.getVideo id (Api.storage site) = Some video
             /\ Schema.Video.isAI video = Some true
             /\ filename = Api.safeFilename (Schema.Video.title video))
  /\ (forall url,
        snd run = Api.RedirectTo url ->
        exists video,
          MemStorage.getVideo id (Api.storage site) = Some video
          /\ Schema.Video.isAI video = Some true).
Proof.
  intros id run. subst run. unfold Api.download. fold id.
  destruct (MemStorage.getVideo id (Api.storage site)) as [video|];
    [| split; [discriminate | split; discriminate]].
  destruct (Schema.Video.isAI video) as [[|]|] eqn:HAI;
    cbn [MemStorage.flag default from_option id negb];
    try (split; [intros v [= <-] _; reflexivity | split; discriminate]).
  assert (Hvideo : exists v, Some video = Some v /\ Schema.Video.isAI v = Some true
                             /\ Api.safeFilename (Schema.Video.title video)
                                = Api.safeFilename (Schema.Video.title v))
    by (exists video; auto).
  split; [intros v [= <-] Hnot; congruence |].
  destruct (uploads (Api.files site) !! _) as [data|].
  { split; [| discriminate]. cbn. intros filename d [= <- <-].
    split; [apply safeFilename_plain |].
    exists video. auto. }
  destruct (JS.startsWith "https://" _ && JS.includes "amazonaws.com" _);
    cbn [negb]; [| split; discriminate].
  destruct (S3.downloadFileFromS3 s3 _) as [ev [data|m]].
  { split; [| discriminate]. cbn. intros filename d [= <- <-].
    split; [apply safeFilename_plain |].
    exists video. auto. }
  destruct (S3.getPresignedUrl s3 _ _) as [ev' [url|m']]; cbn.
  - split; [discriminate |]. intros u _. exists video. auto.
  - split; discriminate.
Qed.

(** ** Comments *)

(** POST /api/videos/:id/comments answers 404 when no video has the number
    read from the parameter and 400 when the content is not a string, and
    changes nothing in either case.  Otherwise it answers 201 with a
    comment of the demo user that carries the content and the identifier of
    the video, the list of the comments of the video has that comment
    afterwards, and the videos are as before. *)
Theorem postComment_effect (site : Api.Site) (idParam : string)
    (content : option string) (now : Z) :
  let id := JS.parseIntAuto idParam in
  let run := Api.postComment site idParam content now in
  match MemStorage.getVideo id (Api.storage site), content with
  | None, _ => run = (site, Api.Status 404 (Api.JsonMessage "Video not found"))
  | Some _, None => run = (site, Api.Status 400 Api.JsonValidationError)
  | Some video, Some text =>
      exists comment,
        snd run = Api.Status 201 (Api.JsonComment comment)
        /\ Schema.Comment.content comment = text
        /\ Schema.Comment.videoId comment = Schema.Video.id video
        /\ Schema.Comment.userId comment = 1
        /\ Api.listComments (fst run) idParam
           = Api.Status 200
               (Api.JsonComments
                  (MemStorage.getComments id (Api.storage (fst run))))
        /\ comment ∈ MemStorage.getComments id (Api.storage (fst run))
        /\ MemStorage.videos (MemStorage.data (Api.storage (fst run)))
           = MemStorage.videos (MemStorage.data (Api.storage site))
  end.
Proof.
  intros id run. subst run. unfold Api.postComment. fold id.
  destruct (MemStorage.getVideo id (Api.storage site)) as [video|] eqn:Hget;
    [| reflexivity].
  destruct id as [|n|negative] eqn:Hid;
    [rewrite getVideo_NaN in Hget; discriminate |
    | rewrite getVideo_Infinity in Hget; discriminate].
  destruct content as [text|]; [| reflexivity].
  pose proof (find_some _ _ Hget) as [_ Hn]. apply has_id_eq in Hn.
  eexists. cbn [fst snd].
  split; [reflexivity |]. split; [reflexivity |].
  split; [cbn; symmetry; exact Hn |]. split; [reflexivity |].
  split; [unfold Api.listComments; fold id; rewrite Hid; reflexivity |].
  split; [| reflexivity].
  unfold MemStorage.getComments.
  rewrite (sort_perm (fun c => default 0 (Schema.Comment.createdAt c))).
  apply list_elem_of_In, filter_In. cbn. split; [| apply Z.eqb_refl].
  apply in_or_app. right. left. reflexivity.
Qed.

(** ** The file proxy *)

Lemma split_segments_without (sep : ascii) (s : string) :
  Forall (fun seg => JS.includes (String sep EmptyString) seg = false) (JS.split sep s).
Proof.
  induction s as [|c s IH]; cbn [JS.split].
  - constructor; [reflexivity | constructor].
  - destruct (Ascii.eqb c sep) eqn:Hc.
    + constructor; [reflexivity | exact IH].
    + assert (Hhead : forall h, JS.includes (String sep EmptyString) h = false ->
                                JS.includes (String sep EmptyString) (String c h) = false).
      { intros h Hh. cbn. rewrite Ascii.eqb_sym, Hc. cbn. exact Hh. }
      destruct (JS.split sep s) as [|h t].
      * constructor; [apply Hhead; reflexivity | constructor].
      * inversion IH; subst. constructor; [apply Hhead |]; assumption.
Qed.

Lemma basename_without_slash (p : string) : JS.includes "/" (Routes.basename p) = false.
Proof.
  unfold Routes.basename.
  destruct (last _) as [seg|] eqn:Hlast; [| reflexivity].
  apply last_Some_elem_of, list_elem_of_filter in Hlast as [_ Hin].
  pose proof (split_segments_without "/" p) as Hall.
  rewrite Forall_forall in Hall. apply Hall, Hin.
Qed.

(** GET /api/file/proxy answers 400 without a key and 500 when the key
    cannot be decoded.  A file that it sends is a file of the thumbnail
    directory when the type is thumbnail and of the upload directory
    otherwise, under the base name of the decoded key, which has no slash:
    no key makes it send a file from below or beside the two directories.
    A thumbnail is always sent as image/jpeg. *)
Theorem fileProxy_stays_in_directory (decodeURIComponent : string -> option string)
    (site : Api.Site) (key type : option string) :
  let answer := Api.fileProxy decodeURIComponent site key type in
  (JS.truthy key = false ->
   answer = Api.Status 400 (Api.JsonMessage "Missing key parameter"))
  /\ (JS.truthy key = true -> decodeURIComponent (default "" key) = None ->
      answer = Api.Status 500 (Api.JsonMessage "Failed to proxy file"))
  /\ (forall contentType path data,
        answer = Api.SentFile contentType path data ->
        exists name,
          JS.includes "/" name = false
          /\ ((type = Some "thumbnail"
               /\ path = Routes.thumbnailDir +:+ name
               /\ thumbnails (Api.files site) !! name = Some data
               /\ contentType = "image/jpeg")
              \/ (type <> Some "thumbnail"
                  /\ path = Routes.uploadDir +:+ name
                  /\ uploads (Api.files site) !! name = Some data))).
Proof.
  intros answer. subst answer. unfold Api.fileProxy.
  destruct (JS.truthy key); cbn [negb].
  2: { split; [reflexivity |]. split; discriminate. }
  split; [discriminate |].
  destruct (decodeURIComponent (default "" key)) as [decodedKey|].
  2: { split; [reflexivity | discriminate]. }
  split; [discriminate |].
  intros contentType path data.
  assert (Hthumb : match type with
                   | Some t => String.eqb t "thumbnail"
                   | None => false
                   end = true <-> type = Some "thumbnail").
  { destruct type as [t|]; [| split; discriminate].
    destruct (String.eqb_spec t "thumbnail") as [->|Hne];
      [tauto | split; [discriminate | congruence]]. }
  destruct (match type with Some t => String.eqb t "thumbnail" | None => false end).
  - destruct (thumbnails (Api.files site) !! _) as [d|] eqn:Hfile; [| discriminate].
    cbn [orb]. intros [= <- <- <-].
    exists (Routes.basename decodedKey).
    split; [apply basename_without_slash |]. left.
    split; [apply Hthumb; reflexivity |]. auto.
  - destruct (uploads (Api.files site) !! _) as [d|] eqn:Hfile; [| discriminate].
    intros [= <- <- <-].
    exists (Routes.basename decodedKey).
    split; [apply basename_without_slash |]. right.
    split; [| auto]. intros Htype. apply Hthumb in Htype. discriminate.
Qed.

(** ** The retries of a part *)

Section Retries.
Context {W : Type} (step : W -> request -> W * list aws_event * reply).
Context (file : File) (key uploadId : string) (partNumber : Z).

Lemma sleeps_app (tr1 tr2 : list event) : sleeps (tr1 ++ tr2) = sleeps tr1 ++ sleeps tr2.
Proof. apply omap_app. Qed.

Lemma partUrlRequests_app (tr1 tr2 : list event) :
  partUrlRequests (tr1 ++ tr2) = partUrlRequests tr1 ++ partUrlRequests tr2.
Proof. apply omap_app. Qed.

Lemma sleeps_aws (log : list aws_event) : sleeps (map Aws log) = [].
Proof. induction log; [reflexivity | assumption]. Qed.

Lemma partUrlRequests_aws (log : list aws_event) : partUrlRequests (map Aws log) = [].
Proof. induction log; [reflexivity | assumption]. Qed.

(** What one attempt does: it asks once for the URL of the part and does
    not wait; it records the part when it is done and nothing otherwise. *)
Lemma uploadPartAttempt_attempted (st : @UploadModal.State W) :
  let run := UploadModal.uploadPartAttempt step file key uploadId partNumber st in
  exists new,
    UploadModal.trace (fst run) = UploadModal.trace st ++ new
    /\ sleeps new = []
    /\ partUrlRequests new = [partNumber]
    /\ UploadModal.failedParts (fst run) = UploadModal.failedParts st
    /\ match snd run with
       | Done _ =>
           exists q, UploadModal.parts (fst run) = UploadModal.parts st ++ [q]
                     /\ PartNumber q = partNumber
       | Thrown _ => UploadModal.parts (fst run) = UploadModal.parts st
       end.
Proof.
  unfold UploadModal.uploadPartAttempt.
  cbv [UploadModal.bind UploadModal.fetch_response UploadModal.fetch
       UploadModal.json_of UploadModal.ret UploadModal.throw UploadModal.push_part].
  destruct (step (UploadModal.world st) _) as [[w1 log1] [|res1]]; cbn.
  { eexists. split; [reflexivity |]. cbn. rewrite sleeps_aws, partUrlRequests_aws. auto. }
  destruct (ok res1); cbn.
  2: { eexists. split; [reflexivity |]. cbn. rewrite sleeps_aws, partUrlRequests_aws. auto. }
  destruct (json res1) as [b|]; cbn.
  2: { eexists. split; [reflexivity |]. cbn. rewrite sleeps_aws, partUrlRequests_aws. auto. }
  assert (Hnew : forall log2 r,
            sleeps (Fetch (GetPartUrl key uploadId partNumber) :: map Aws log1
                    ++ Fetch r :: map Aws log2) = []
            /\ (isPartUrl r = false ->
                partUrlRequests (Fetch (GetPartUrl key uploadId partNumber) :: map Aws log1
                                 ++ Fetch r :: map Aws log2) = [partNumber])).
  { intros log2 r. split.
    - change (sleeps (map Aws log1 ++ Fetch r :: map Aws log2) = []).
      rewrite sleeps_app. cbn. change (sleeps (map Aws log1) ++ sleeps (map Aws log2) = []).
      rewrite !sleeps_aws. reflexivity.
    - intros Hr.
      change (partNumber :: partUrlRequests (map Aws log1 ++ Fetch r :: map Aws log2)
              = [partNumber]).
      rewrite partUrlRequests_app, partUrlRequests_aws. cbn.
      destruct r; try discriminate; cbn;
        change (partNumber :: partUrlRequests (map Aws log2) = [partNumber]);
        rewrite partUrlRequests_aws; reflexivity. }
  assert (Hdone : forall (l : list Part) q, PartNumber q = partNumber ->
            exists q', l ++ [q] = l ++ [q'] /\ PartNumber q' = partNumber).
  { intros l q Hq. exists q. split; [reflexivity | exact Hq]. }
  destruct (step w1 _) as [[w2 log2] [|res2]]; cbn;
    [| destruct (ok res2); cbn; [destruct (JS.truthy (ETagHeader res2)); cbn |]];
    (eexists; split; [rewrite <- app_assoc; reflexivity |]; cbn [app];
     split; [apply Hnew |]; split; [apply Hnew; reflexivity |];
     split; [reflexivity |]; first [reflexivity | apply Hdone; reflexivity]).
Qed.

(** The retry loop with [retriesLeft] retries: its waits are the first of
    the waits of that many retries, all of them when it fails. *)
Lemma uploadSinglePartFrom_retries (retriesLeft : nat) st :
  let run := UploadModal.uploadSinglePartFrom step file key uploadId retriesLeft
               partNumber st in
  exists new,
    UploadModal.trace (fst run) = UploadModal.trace st ++ new
    /\ sleeps new `prefix_of` backoff retriesLeft
    /\ partUrlRequests new = replicate (S (length (sleeps new))) partNumber
    /\ match snd run with
       | Done _ =>
           UploadModal.failedParts (fst run) = UploadModal.failedParts st
           /\ exists q, UploadModal.parts (fst run) = UploadModal.parts st ++ [q]
                        /\ PartNumber q = partNumber
       | Thrown _ =>
           sleeps new = backoff retriesLeft
           /\ UploadModal.failedParts (fst run) = UploadModal.failedParts st + 1
           /\ UploadModal.parts (fst run) = UploadModal.parts st
       end.
Proof.
  revert st. induction retriesLeft as [|k IH]; intros st;
    cbn [UploadModal.uploadSinglePartFrom]; unfold UploadModal.try_catch;
    destruct (uploadPartAttempt_attempted st)
      as (new & Htrace & Hsleeps & Hurls & Hfailed & Hparts);
    destruct (UploadModal.uploadPartAttempt step file key uploadId partNumber st)
      as [st1 [[]|e]]; cbn [fst snd] in *.
  - exists new. rewrite Hsleeps, Hurls. split; [exact Htrace |].
    split; [apply prefix_nil |]. split; [reflexivity |]. split; assumption.
  - exists new. cbn. rewrite Hsleeps, Hurls. split; [exact Htrace |].
    split; [reflexivity |]. split; [reflexivity |]. split; [reflexivity |].
    split; [lia | exact Hparts].
  - exists new. rewrite Hsleeps, Hurls. split; [exact Htrace |].
    split; [apply prefix_nil |]. split; [reflexivity |]. split; assumption.
  - cbv [UploadModal.bind UploadModal.emit].
    match goal with
    | |- context [UploadModal.uploadSinglePartFrom _ _ _ _ _ _ ?st2] =>
        destruct (IH st2) as (new' & Htrace' & Hsleeps' & Hurls' & Hend);
        destruct (UploadModal.uploadSinglePartFrom step file key uploadId k partNumber st2)
          as [st3 r]
    end.
    cbn [fst snd UploadModal.trace UploadModal.parts UploadModal.failedParts] in *.
    exists (new ++ Sleep (2 ^ (UploadModal.MAX_RETRIES - Z.of_nat k - 1) * 1000) :: new').
    split; [rewrite Htrace', Htrace, <- !app_assoc; reflexivity |].
    rewrite sleeps_app, partUrlRequests_app, Hsleeps, Hurls. cbn [app].
    change (sleeps (Sleep ?ms :: ?l)) with (ms :: sleeps l).
    change (partUrlRequests (Sleep ?ms :: ?l)) with (partUrlRequests l).
    rewrite Hurls'. cbn [backoff length replicate app].
    split; [apply prefix_cons, Hsleeps' |]. split; [reflexivity |].
    destruct r as [[]|e']; [rewrite <- Hparts, <- Hfailed; exact Hend |].
    destruct Hend as (-> & Hf & Hp). rewrite <- Hparts, <- Hfailed. auto.
Qed.

End Retries.

(** A part is tried at most four times: after a failure the upload waits
    one, two and four seconds before the next try, and each try asks once
    for the URL of this part.  When the last try has failed the part is
    counted as failed once and nothing is recorded for it; when a try
    succeeds exactly this part is recorded and nothing is counted. *)
Theorem uploadSinglePart_retries {W : Type}
    (step : W -> request -> W * list aws_event * reply)
    (file : File) (key uploadId : string) (partNumber : Z) (st : UploadModal.State) :
  let run := UploadModal.uploadSinglePart step file key uploadId partNumber st in
  exists new,
    UploadModal.trace (fst run) = UploadModal.trace st ++ new
    /\ sleeps new `prefix_of` [1000; 2000; 4000]
    /\ partUrlRequests new = replicate (S (length (sleeps new))) partNumber
    /\ match snd run with
       | Done _ =>
           UploadModal.failedParts (fst run) = UploadModal.failedParts st
           /\ exists q, UploadModal.parts (fst run) = UploadModal.parts st ++ [q]
                        /\ PartNumber q = partNumber
       | Thrown _ =>
           sleeps new = [1000; 2000; 4000]
           /\ UploadModal.failedParts (fst run) = UploadModal.failedParts st + 1
           /\ UploadModal.parts (fst run) = UploadModal.parts st
       end.
Proof.
  exact (uploadSinglePartFrom_retries step file key uploadId partNumber
           (Z.to_nat UploadModal.MAX_RETRIES) st).
Qed.

(** ** The errors of an upload *)

(** An upload fails in three ways only.  Without a file or without a
    title it fails at once with the report of a failed upload and sends
    nothing.  With a file above 500 MiB it fails with the message that
    the file is too large, again without a request.  In every other case
    a failure is a failure of the upload through the server, whose
    request was sent: a failure of a direct upload alone never ends the
    upload.  A file that the modal accepted is never refused as too
    large. *)
Theorem mutate_failures {W : Type} (step : W -> request -> W * list aws_event * reply)
    (selectedFile : option File) (title : string) (st : UploadModal.State) :
  let run := UploadModal.mutate step selectedFile title st in
  ((selectedFile = None \/ title = "") ->
     snd run = Thrown MissingTitleOrFile
     /\ UploadModal.trace (fst run) = UploadModal.trace st ++ [terminalReport])
  /\ (forall file, selectedFile = Some file -> title <> "" ->
        ClientConfig.maxFileSize < size file ->
        snd run = Thrown (FileTooLarge 500)
        /\ UploadModal.trace (fst run)
           = UploadModal.trace st ++ [SetErrorMessage (FileTooLarge 500); terminalReport])
  /\ (forall file e, selectedFile = Some file -> title <> "" ->
        size file <= ClientConfig.maxFileSize ->
        snd run = Thrown e ->
        relay_error e /\ Fetch (PostVideos file title) ∈ UploadModal.trace (fst run))
  /\ (forall file e, selectedFile = Some file -> selectable file ->
        snd run = Thrown e -> forall maxSizeMB, e <> FileTooLarge maxSizeMB).
Proof.
  intros run. subst run. rewrite mutate_run. unfold UploadModal.mutationFn.
  split; [| split; [| split]]; cycle 3.
  { intros file e -> Hfile. apply selectable_size in Hfile.
    apply Z.ltb_ge in Hfile. rewrite Hfile.
    destruct (title =? "")%string; [intros [= <-]; discriminate |].
    intros Hrun maxSizeMB ->. revert Hrun.
    cbv [UploadModal.try_catch UploadModal.bind UploadModal.ret UploadModal.throw].
    destruct (UploadModal.LARGE_FILE_THRESHOLD <? size file);
      [destruct (UploadModal.trueBrowserDirectUpload step file title st) as [st1 [r1|e1]];
         [discriminate |] |];
      (destruct (UploadModal.MEDIUM_FILE_THRESHOLD <? size file);
       [match goal with
        | |- context [UploadModal.uploadDirectlyToS3 step file title ?s] =>
            destruct (UploadModal.uploadDirectlyToS3 step file title s) as [st2 [r2|e2]];
            [discriminate |]
        end |]);
      cbv [UploadModal.emit];
      cbn [UploadModal.world UploadModal.trace UploadModal.parts UploadModal.failedParts];
      (match goal with
       | |- context [UploadModal.standardUpload step file title ?s] =>
           destruct (UploadModal.standardUpload step file title s)
             as [st3 [r3|e3]] eqn:Hrelay
       end; [discriminate |]);
      cbn; intros [= ->];
      destruct (standardUpload_throws step file title _ _ _ Hrelay) as [Herr _];
      exact Herr. }
  - intros [-> | ->]; [split; reflexivity |].
    destruct selectedFile; split; reflexivity.
  - intros file -> Htitle Hsize.
    apply String.eqb_neq in Htitle. rewrite Htitle.
    apply Z.ltb_lt in Hsize.
    unfold UploadModal.try_catch at 1. rewrite Hsize.
    cbv [UploadModal.throw UploadModal.bind UploadModal.emit]. cbn.
    rewrite <- app_assoc. split; reflexivity.
  - intros file e -> Htitle Hsize.
    apply String.eqb_neq in Htitle. rewrite Htitle.
    apply Z.ltb_ge in Hsize. rewrite Hsize.
    cbv [UploadModal.try_catch UploadModal.bind UploadModal.ret UploadModal.throw].
    destruct (UploadModal.LARGE_FILE_THRESHOLD <? size file);
      [destruct (UploadModal.trueBrowserDirectUpload step file title st) as [st1 [r1|e1]];
         [discriminate |] |];
      (destruct (UploadModal.MEDIUM_FILE_THRESHOLD <? size file);
       [match goal with
        | |- context [UploadModal.uploadDirectlyToS3 step file title ?s] =>
            destruct (UploadModal.uploadDirectlyToS3 step file title s) as [st2 [r2|e2]];
            [discriminate |]
        end |]);
      cbv [UploadModal.emit];
      cbn [UploadModal.world UploadModal.trace UploadModal.parts UploadModal.failedParts];
      (match goal with
       | |- context [UploadModal.standardUpload step file title ?s] =>
           destruct (UploadModal.standardUpload step file title s)
             as [st3 [r3|e3]] eqn:Hrelay
       end; [discriminate |]);
      cbn; intros [= <-];
      destruct (standardUpload_throws step file title _ _ _ Hrelay) as [Herr Hsent];
      (split; [exact Herr |]); rewrite !elem_of_app; tauto.
Qed.

(** ** The browser-direct upload *)


(** ** The listing of the bucket *)

Lemma listLoop_pages send prefix (pages : list (list string)) :
  forall (fuel : nat) (keys : list string) (input continuationToken token : option string),
    (if JS.truthy continuationToken then continuationToken else input) = token ->
    S3Listing.serves send prefix token pages ->
    (length pages <= fuel)%nat ->
    S3Listing.listLoop send prefix fuel keys input continuationToken
    = Some (keys ++ concat pages).
Proof.
  induction pages as [|page rest IH]; intros fuel keys input ct token Htoken Hserves Hfuel;
    [contradiction |].
  destruct fuel as [|fuel]; [cbn in Hfuel; lia |].
  cbn [S3Listing.listLoop]. rewrite Htoken.
  destruct rest as [|page' rest].
  - destruct Hserves as (response & -> & <- & ->).
    cbn. rewrite app_nil_r. reflexivity.
  - destruct Hserves as (response & next & -> & <- & -> & Hnext & Hne & Hrest).
    rewrite (IH fuel _ token (S3Listing.NextContinuationToken response) (Some next)).
    + change (concat (S3Listing.keysOf response :: page' :: rest))
        with (S3Listing.keysOf response ++ concat (page' :: rest)).
      rewrite <- app_assoc. reflexivity.
    + rewrite Hnext. cbn. apply String.eqb_neq in Hne. rewrite Hne. reflexivity.
    + exact Hrest.
    + cbn in Hfuel |- *. lia.
Qed.

Lemma listLoop_breaks send prefix (pages : list (list string)) :
  forall (fuel : nat) (keys : list string) (input continuationToken token : option string),
    (if JS.truthy continuationToken then continuationToken else input) = token ->
    S3Listing.breaks send prefix token pages ->
    (length pages < fuel)%nat ->
    S3Listing.listLoop send prefix fuel keys input continuationToken = Some [].
Proof.
  induction pages as [|page rest IH]; intros fuel keys input ct token Htoken Hbreaks Hfuel;
    (destruct fuel as [|fuel]; [cbn in Hfuel; lia |]);
    cbn [S3Listing.listLoop]; rewrite Htoken.
  - destruct Hbreaks as (msg & ->). reflexivity.
  - destruct Hbreaks as (response & next & -> & <- & -> & Hnext & Hne & Hrest).
    apply (IH fuel _ token (S3Listing.NextContinuationToken response) (Some next)).
    + rewrite Hnext. cbn. apply String.eqb_neq in Hne. rewrite Hne. reflexivity.
    + exact Hrest.
    + cbn in Hfuel. lia.
Qed.

(** When the bucket answers the listing in pages, each but the last
    truncated and with the token of the next, the listing follows the
    tokens from the first page and returns the keys of all pages in their
    order, leaving out the objects without a key. *)
Theorem listS3Objects_pages send (prefix : string) (pages : list (list string))
    (fuel : nat) :
  S3Listing.serves send (normalizeS3Key prefix) None pages ->
  (length pages <= fuel)%nat ->
  S3Listing.listS3Objects true send prefix fuel = Some (concat pages).
Proof.
  intros Hserves Hfuel. unfold S3Listing.listS3Objects. cbn [negb].
  exact (listLoop_pages send _ pages fuel [] None None None eq_refl Hserves Hfuel).
Qed.

Lemma listS3Objects_pages_witness :
  S3Listing.listS3Objects true twoPages "/videos/" 2
  = Some ["videos/a.mp4"; "videos/b.mp4"].
Proof.
  apply (listS3Objects_pages twoPages "/videos/" [["videos/a.mp4"]; ["videos/b.mp4"]] 2).
  - cbn. eexists _, "t1". repeat split; try reflexivity; try discriminate.
    eexists. repeat split; reflexivity.
  - cbn. lia.
Defined.

(** A request of the listing that fails empties the result: the keys of
    the pages that were read before it are dropped, and the caller gets
    the answer of an empty bucket. *)
Theorem listS3Objects_failure_drops_keys send (prefix : string)
    (pages : list (list string)) (fuel : nat) :
  S3Listing.breaks send (normalizeS3Key prefix) None pages ->
  (length pages < fuel)%nat ->
  S3Listing.listS3Objects true send prefix fuel = Some [].
Proof.
  intros Hbreaks Hfuel. unfold S3Listing.listS3Objects. cbn [negb].
  exact (listLoop_breaks send _ pages fuel [] None None None eq_refl Hbreaks Hfuel).
Qed.

Lemma listS3Objects_failure_drops_keys_witness :
  S3Listing.listS3Objects true brokenSecondPage "/videos/" 2 = Some [].
Proof.
  apply (listS3Objects_failure_drops_keys brokenSecondPage "/videos/" [["videos/a.mp4"]] 2).
  - cbn. eexists _, "t1". repeat split; try reflexivity; try discriminate.
    eexists. reflexivity.
  - cbn. lia.
Defined.

(** ** The synchronisation with the upload directory *)

Lemma has_elem (paths : list string) (path : string) :
  StorageUtils.has paths path = true <-> path ∈ paths.
Proof.
  unfold StorageUtils.has. rewrite existsb_exists. split.
  - intros (p & Hin & Heq). apply String.eqb_eq in Heq. subst p.
    apply list_elem_of_In. exact Hin.
  - intros Hin. exists path. split; [apply list_elem_of_In; exact Hin | apply String.eqb_refl].
Qed.

Lemma known_mono (paths paths' : list string) (videoFile : string) :
  (forall p, p ∈ paths -> p ∈ paths') ->
  known paths videoFile = true -> known paths' videoFile = true.
Proof.
  intros Hsub. unfold known. rewrite !orb_true_iff, !has_elem. intuition.
Qed.

Lemma existingPaths_mono (vs vs' : list Schema.Video.t) :
  (forall v, v ∈ vs -> v ∈ vs') ->
  forall p, p ∈ StorageUtils.existingPaths vs -> p ∈ StorageUtils.existingPaths vs'.
Proof.
  intros Hsub p. unfold StorageUtils.existingPaths.
  rewrite !elem_of_app, !list_elem_of_fmap, !list_elem_of_omap.
  intros [(v & -> & Hv) | (v & Hv & Hp)]; [left | right]; exists v; auto.
Qed.

Lemma startsWith_append (pat s : string) : JS.startsWith pat (pat +:+ s) = true.
Proof.
  induction pat as [|c pat IH]; [reflexivity |].
  cbn. rewrite Ascii.eqb_refl. exact IH.
Qed.

Lemma existingPaths_created (vs : list Schema.Video.t) (v : Schema.Video.t)
    (videoFile : string) :
  v ∈ vs -> Schema.Video.filePath v = "uploads/" +:+ videoFile ->
  known (StorageUtils.existingPaths vs) videoFile = true.
Proof.
  intros Hv Hpath. unfold known. apply orb_true_iff. right. apply has_elem.
  unfold StorageUtils.existingPaths. apply elem_of_app. left.
  apply list_elem_of_fmap. exists v. split; [| exact Hv].
  rewrite Hpath, startsWith_append. reflexivity.
Qed.

Lemma getVideos_elem (st : MemStorage.t) (v : Schema.Video.t) :
  v ∈ MemStorage.getVideos st <-> v ∈ MemStorage.videos (MemStorage.data st).
Proof.
  unfold MemStorage.getVideos.
  rewrite (sort_perm (fun v => default 0 (Schema.Video.createdAt v))). reflexivity.
Qed.

Lemma elem_of_filter_bool {A : Type} (p : A -> bool) (l : list A) (x : A) :
  x ∈ List.filter p l <-> x ∈ l /\ p x = true.
Proof. rewrite !list_elem_of_In. apply filter_In. Qed.

Section Sync.
Context (fs : LocalStore).

(** What the loop over the files keeps and what it adds. *)
Lemma syncFiles_videos existing clock (videoFiles : list string) :
  forall st : MemStorage.t,
    let st' := StorageUtils.syncFiles existing fs clock videoFiles st in
    (forall v, v ∈ MemStorage.videos (MemStorage.data st) ->
               v ∈ MemStorage.videos (MemStorage.data st'))
    /\ ((forall f, f ∈ videoFiles -> is_Some (uploads fs !! f)) ->
        forall f content,
          f ∈ videoFiles -> uploads fs !! f = Some content ->
          1024 <= Z.of_nat (length content) ->
          known existing f = true
          \/ exists v, v ∈ MemStorage.videos (MemStorage.data st')
                       /\ Schema.Video.filePath v = "uploads/" +:+ f).
Proof.
  induction videoFiles as [|g rest IH]; intros st; cbn [StorageUtils.syncFiles].
  - split; [auto |]. intros _ f content Hf. inversion Hf.
  - fold (known existing g).
    destruct (known existing g) eqn:Hknown.
    + destruct (IH st) as [Hkeep Hnew]. split; [exact Hkeep |].
      intros Hlisted f content Hf Hcontent Hsize.
      apply elem_of_cons in Hf as [-> | Hf]; [left; exact Hknown |].
      apply (Hnew (fun f' Hf' => Hlisted f' (proj2 (elem_of_cons _ _ _) (or_intror Hf')))
               f content Hf Hcontent Hsize).
    + destruct (uploads fs !! g) as [content'|] eqn:Hg.
      * destruct (Z.ltb_spec (Z.of_nat (length content')) 1024) as [Hsmall | Hbig].
        -- destruct (IH st) as [Hkeep Hnew]. split; [exact Hkeep |].
           intros Hlisted f content Hf Hcontent Hsize.
           apply elem_of_cons in Hf as [-> | Hf];
             [pose proof (eq_trans (eq_sym Hg) Hcontent) as Hsame;
              injection Hsame as ->; lia |].
           apply (Hnew (fun f' Hf' => Hlisted f' (proj2 (elem_of_cons _ _ _) (or_intror Hf')))
                    f content Hf Hcontent Hsize).
        -- destruct (IH (fst (MemStorage.createVideo
                                (StorageUtils.recovered (thumbnails fs) g) (clock g) st)))
             as [Hkeep Hnew].
           split.
           { intros v Hv. apply Hkeep. cbn. apply elem_of_app. left. exact Hv. }
           intros Hlisted f content Hf Hcontent Hsize.
           apply elem_of_cons in Hf as [-> | Hf].
           ++ right. eexists. split.
              ** apply Hkeep. cbn. apply elem_of_app. right. apply list_elem_of_singleton.
                 reflexivity.
              ** reflexivity.
           ++ apply (Hnew (fun f' Hf' =>
                             Hlisted f' (proj2 (elem_of_cons _ _ _) (or_intror Hf')))
                       f content Hf Hcontent Hsize).
      * split; [auto |]. intros Hlisted.
        destruct (Hlisted g) as [? Hsome]; [apply elem_of_cons; left; reflexivity |].
        pose proof (eq_trans (eq_sym Hg) Hsome) as Habsurd. discriminate Habsurd.
Qed.

(** A run over files that the storage knows, or that are too small,
    changes nothing. *)
Lemma syncFiles_nothing existing clock (videoFiles : list string) (st : MemStorage.t) :
  (forall f, f ∈ videoFiles ->
     known existing f = true
     \/ exists content, uploads fs !! f = Some content
                        /\ Z.of_nat (length content) < 1024) ->
  StorageUtils.syncFiles existing fs clock videoFiles st = st.
Proof.
  induction videoFiles as [|g rest IH]; intros Hall; cbn [StorageUtils.syncFiles];
    [reflexivity |].
  fold (known existing g).
  assert (Hrest : StorageUtils.syncFiles existing fs clock rest st = st).
  { apply IH. intros f Hf. apply Hall. apply elem_of_cons. right. exact Hf. }
  destruct (known existing g) eqn:Hknown; [exact Hrest |].
  destruct (Hall g) as [Hk | (content & -> & Hsmall)];
    [apply elem_of_cons; left; reflexivity | congruence |].
  apply Z.ltb_lt in Hsmall. rewrite Hsmall. exact Hrest.
Qed.

End Sync.

Lemma knownTo_mono (st st' : MemStorage.t) (videoFile : string) :
  (forall v, v ∈ MemStorage.videos (MemStorage.data st) ->
             v ∈ MemStorage.videos (MemStorage.data st')) ->
  knownTo st videoFile = true -> knownTo st' videoFile = true.
Proof.
  intros Hkeep. apply known_mono, existingPaths_mono.
  intros v. rewrite !getVideos_elem. apply Hkeep.
Qed.

(** The synchronisation with the upload directory keeps the videos of
    the storage. *)
Lemma syncFromLocalFiles_keeps fs clock (files : list string) (st : MemStorage.t) :
  forall v, v ∈ MemStorage.videos (MemStorage.data st) ->
            v ∈ MemStorage.videos
                  (MemStorage.data (StorageUtils.syncFromLocalFiles fs clock files st)).
Proof.
  unfold StorageUtils.syncFromLocalFiles.
  destruct (List.filter StorageUtils.isVideoFile files) as [|g rest] eqn:Hfiles; [auto |].
  apply (syncFiles_videos fs _ clock (g :: rest) st).
Qed.

(** After it every video file of the directory is known or too small. *)
Lemma syncFromLocalFiles_settles fs clock (files : list string) (st : MemStorage.t) :
  (forall f, f ∈ files -> is_Some (uploads fs !! f)) ->
  forall f content,
    f ∈ files -> StorageUtils.isVideoFile f = true ->
    uploads fs !! f = Some content -> 1024 <= Z.of_nat (length content) ->
    knownTo (StorageUtils.syncFromLocalFiles fs clock files st) f = true.
Proof.
  intros Hlisted f content Hf Hisvideo Hcontent Hsize.
  assert (Hin : f ∈ List.filter StorageUtils.isVideoFile files)
    by (apply elem_of_filter_bool; split; assumption).
  unfold StorageUtils.syncFromLocalFiles.
  destruct (List.filter StorageUtils.isVideoFile files) as [|g rest] eqn:Hfiles;
    [inversion Hin |].
  rewrite <- Hfiles in *.
  set (videoFiles := List.filter StorageUtils.isVideoFile files) in *.
  set (existing := StorageUtils.existingPaths (MemStorage.getVideos st)).
  destruct (syncFiles_videos fs existing clock videoFiles st) as [Hkeep Hnew].
  assert (Hvideo : forall f, f ∈ videoFiles -> is_Some (uploads fs !! f)).
  { intros f' Hf'. apply Hlisted. apply elem_of_filter_bool in Hf'. tauto. }
  destruct (Hnew Hvideo f content Hin Hcontent Hsize) as [Hk | (v & Hv & Hpath)].
  - revert Hk. apply (knownTo_mono st). exact Hkeep.
  - apply (existingPaths_created _ v); [apply getVideos_elem; exact Hv | exact Hpath].
Qed.

(** A storage that knows the video files of the directory, but for the
    small ones, is left as it is. *)
Lemma syncFromLocalFiles_settled fs clock (files : list string) (st : MemStorage.t) :
  (forall f, f ∈ files -> StorageUtils.isVideoFile f = true ->
     knownTo st f = true
     \/ exists content, uploads fs !! f = Some content
                        /\ Z.of_nat (length content) < 1024) ->
  StorageUtils.syncFromLocalFiles fs clock files st = st.
Proof.
  intros Hall. unfold StorageUtils.syncFromLocalFiles.
  destruct (List.filter StorageUtils.isVideoFile files) as [|g rest] eqn:Hfiles;
    [reflexivity |].
  apply syncFiles_nothing. intros f Hf. rewrite <- Hfiles in Hf.
  apply elem_of_filter_bool in Hf as [Hf Hisvideo]. exact (Hall f Hf Hisvideo).
Qed.

(** After the synchronisation with the upload directory every video file
    of the directory of at least 1 KiB belongs to a video of the storage,
    and a second synchronisation with the same directory adds nothing:
    no file is recorded twice. *)
Theorem syncFromLocalFiles_idempotent (fs : LocalStore) (clock clock' : string -> Z)
    (files : list string) (st : MemStorage.t) :
  (forall f, f ∈ files -> is_Some (uploads fs !! f)) ->
  let st' := StorageUtils.syncFromLocalFiles fs clock files st in
  (forall f content,
     f ∈ files -> StorageUtils.isVideoFile f = true ->
     uploads fs !! f = Some content -> 1024 <= Z.of_nat (length content) ->
     knownTo st' f = true)
  /\ StorageUtils.syncFromLocalFiles fs clock' files st' = st'.
Proof.
  intros Hlisted st'.
  pose proof (syncFromLocalFiles_settles fs clock files st Hlisted) as Hknown.
  fold st' in Hknown. split; [exact Hknown |].
  apply syncFromLocalFiles_settled. intros f Hf Hisvideo.
  destruct (Hlisted f Hf) as [content Hcontent].
  destruct (Z.lt_ge_cases (Z.of_nat (length content)) 1024) as [Hsmall | Hbig].
  - right. exists content. split; assumption.
  - left. exact (Hknown f content Hf Hisvideo Hcontent Hbig).
Qed.

Lemma syncFromLocalFiles_idempotent_witness :
  let files := ["broken.mp4"; "holiday.mp4"; "notes.txt"] in
  let st' := StorageUtils.syncFromLocalFiles sampleDirectory (fun _ => 7) files
               (MemStorage.fresh true) in
  map Schema.Video.filePath (MemStorage.videos (MemStorage.data st'))
  = ["uploads/holiday.mp4"]
  /\ StorageUtils.syncFromLocalFiles sampleDirectory (fun _ => 8) files st' = st'.
Proof.
  intros files st'. split; [vm_compute; reflexivity |].
  refine (proj2 (syncFromLocalFiles_idempotent sampleDirectory (fun _ => 7) (fun _ => 8)
                   files (MemStorage.fresh true) _)).
  intros f Hf.
  repeat (apply elem_of_cons in Hf as [-> | Hf]; [vm_compute; eexists; reflexivity |]).
  inversion Hf.
Defined.

(** ** The guard on the length of a request *)

Lemma show_not_empty (n : Z) : 0 <= n -> JS.show (JS.Num n) <> "".
Proof.
  intros Hn. destruct (show_nonneg n Hn) as (d & Hd & -> & _).
  destruct d; [congruence | discriminate ..].
Qed.

(** The guard in front of the routes answers 413 to a request exactly
    when the length that its Content-Length header announces is above the
    limit, which is the number in MAX_FILE_SIZE or, without it, 500 MiB
    (lengths and limits below 2^53); a request of one byte more than the
    largest file that the modal accepts is refused. *)
Theorem lengthGuard_decision (env : ProcessEnv) (limit n : Z) :
  0 <= n < 2 ^ 53 -> 0 <= limit < 2 ^ 53 ->
  (MAX_FILE_SIZE_var env = "" /\ limit = 500 * MiB)
  \/ MAX_FILE_SIZE_var env = JS.show (JS.Num limit) ->
  ServerIndex.lengthGuard env (Some (JS.show (JS.Num n)))
  = if limit <? n then Some 413 else None.
Proof.
  intros Hn Hlimit Henv. unfold ServerIndex.lengthGuard.
  assert (Htruthy : JS.truthy (Some (JS.show (JS.Num n))) = true).
  { cbn. apply negb_true_iff, String.eqb_neq, show_not_empty, Hn. }
  assert (Hshow := parseIntAuto_show).
  rewrite Htruthy. cbn [default from_option id].
  change (Datatypes.id (JS.show (JS.Num n))) with (JS.show (JS.Num n)).
  rewrite Hshow by exact Hn.
  assert (Hmax : ServerIndex.MAX_FILE_SIZE env = JS.Num limit).
  { unfold ServerIndex.MAX_FILE_SIZE. destruct Henv as [[-> ->] | ->].
    - reflexivity.
    - pose proof (show_not_empty limit (proj1 Hlimit)) as Hne.
      apply String.eqb_neq in Hne. rewrite Hne. apply Hshow, Hlimit. }
  rewrite Hmax. reflexivity.
Qed.

Lemma lengthGuard_decision_witness :
  UploadModal.onDrop (file_of_size (500 * MiB)) = Some (file_of_size (500 * MiB))
  /\ ServerIndex.lengthGuard (limitEnv "") (Some (JS.show (JS.Num (500 * MiB + 1))))
     = Some 413.
Proof.
  split; [vm_compute; reflexivity |].
  apply (lengthGuard_decision (limitEnv "") (500 * MiB) (500 * MiB + 1)).
  - vm_compute. split; [discriminate | reflexivity].
  - vm_compute. split; [discriminate | reflexivity].
  - left. split; reflexivity.
Defined.

(** ** The synchronisation with the bucket *)

Lemma isExisting_mono (paths paths' : list string) (videoKey : string) :
  (forall p, p ∈ paths -> p ∈ paths') ->
  StorageUtils.isExisting paths videoKey = true ->
  StorageUtils.isExisting paths' videoKey = true.
Proof.
  intros Hsub. unfold StorageUtils.isExisting.
  rewrite !orb_true_iff, !andb_true_iff, !has_elem. intuition.
Qed.

Lemma existingKeys_mono (vs vs' : list Schema.Video.t) :
  (forall v, v ∈ vs -> v ∈ vs') ->
  forall p, p ∈ StorageUtils.existingKeys vs -> p ∈ StorageUtils.existingKeys vs'.
Proof.
  intros Hsub p. unfold StorageUtils.existingKeys.
  rewrite !list_elem_of_In, !in_flat_map.
  intros (v & Hv & Hp). exists v. split; [| exact Hp].
  apply list_elem_of_In, Hsub, list_elem_of_In, Hv.
Qed.

Lemma existingKeys_created (vs : list Schema.Video.t) (v : Schema.Video.t) :
  v ∈ vs ->
  StorageUtils.isExisting (StorageUtils.existingKeys vs) (Schema.Video.filePath v) = true.
Proof.
  intros Hv. unfold StorageUtils.isExisting. apply orb_true_iff. left.
  apply has_elem. unfold StorageUtils.existingKeys.
  apply list_elem_of_In, in_flat_map. exists v.
  split; [apply list_elem_of_In, Hv | left; reflexivity].
Qed.

Section SyncKeys.
Context (s3 : S3.t).
Hypothesis fileExistsInS3_returns :
  forall key, exists ev b, S3.fileExistsInS3 s3 key = (ev, Ok b).

Lemma syncKeys_videos existing clock (videoKeys : list string) :
  forall st : MemStorage.t,
    let st' := fst (StorageUtils.syncKeys existing s3 clock videoKeys st) in
    (forall v, v ∈ MemStorage.videos (MemStorage.data st) ->
               v ∈ MemStorage.videos (MemStorage.data st'))
    /\ (forall k, k ∈ videoKeys ->
          StorageUtils.isExisting existing k = true
          \/ exists v, v ∈ MemStorage.videos (MemStorage.data st')
                       /\ Schema.Video.filePath v = k).
Proof.
  induction videoKeys as [|g rest IH]; intros st; cbn [StorageUtils.syncKeys].
  - split; [auto |]. intros k Hk. inversion Hk.
  - destruct (StorageUtils.isExisting existing g) eqn:Hknown.
    + destruct (IH st) as [Hkeep Hnew]. split; [exact Hkeep |].
      intros k Hk. apply elem_of_cons in Hk as [-> | Hk]; [left; exact Hknown |].
      exact (Hnew k Hk).
    + match goal with
      | |- context [S3.fileExistsInS3 s3 ?key] =>
          destruct (fileExistsInS3_returns key) as (ev & b & ->)
      end.
      match goal with
      | |- context [StorageUtils.syncKeys existing s3 clock rest ?st1] =>
          destruct (IH st1) as [Hkeep Hnew];
          destruct (StorageUtils.syncKeys existing s3 clock rest st1) as [st2 ev2]
      end.
      cbn [fst] in *. split.
      * intros v Hv. apply Hkeep. cbn. apply elem_of_app. left. exact Hv.
      * intros k Hk. apply elem_of_cons in Hk as [-> | Hk]; [| exact (Hnew k Hk)].
        right. eexists. split.
        -- apply Hkeep. cbn. apply elem_of_app. right. apply list_elem_of_singleton.
           reflexivity.
        -- reflexivity.
Qed.

End SyncKeys.

Lemma syncKeys_nothing existing s3 clock (videoKeys : list string) (st : MemStorage.t) :
  (forall k, k ∈ videoKeys -> StorageUtils.isExisting existing k = true) ->
  StorageUtils.syncKeys existing s3 clock videoKeys st = (st, []).
Proof.
  induction videoKeys as [|g rest IH]; intros Hall; cbn [StorageUtils.syncKeys];
    [reflexivity |].
  rewrite (Hall g) by (apply elem_of_cons; left; reflexivity).
  apply IH. intros k Hk. apply Hall. apply elem_of_cons. right. exact Hk.
Qed.

Lemma fileExistsInS3_returns env aws randomUUID (key : string) :
  exists ev b,
    S3.fileExistsInS3 (S3Enabled.module env aws randomUUID) key = (ev, Ok b).
Proof.
  cbn. unfold S3Enabled.fileExistsInS3.
  destruct (negb _); [eauto |].
  destruct (send aws _); eauto.
Qed.



(** ** The order of the routes *)

Lemma lower_s (c : ascii) (rest : string) :
  JS.toLowerCase (String c rest) = String "s" (JS.toLowerCase rest) ->
  c = "s"%char \/ c = "S"%char.
Proof.
  destruct c as [[] [] [] [] [] [] [] []]; cbn; intros H;
    try (injection H as H; discriminate H); auto.
Qed.

Lemma parseInt_stream (seg : string) :
  Router.same_text seg "stream" = true -> JS.parseIntAuto seg = JS.NaN.
Proof.
  unfold Router.same_text. intros H. apply String.eqb_eq in H.
  destruct seg as [|c rest]; [discriminate |].
  assert (Hc : c = "s"%char \/ c = "S"%char).
  { apply (lower_s c rest). rewrite H.
    change (JS.toLowerCase "stream") with (String "s" "tream").
    f_equal. change (JS.toLowerCase (String c rest))
      with (String (let n := nat_of_ascii c in
                    if (Nat.leb 65 n && Nat.leb n 90)%bool then ascii_of_nat (n + 32) else c)
              (JS.toLowerCase rest)) in H.
    injection H as _ H. exact (eq_sym H). }
  destruct Hc as [-> | ->]; reflexivity.
Qed.

(** The pattern of the route of one video matches every path that the
    pattern of the stream route matches. *)
Lemma stream_is_an_id (segs : list string) (params : list (string * string)) :
  Router.match_pattern
    [Router.Lit "api"; Router.Lit "videos"; Router.Lit "stream"] segs = Some params ->
  exists id,
    Router.match_pattern
      [Router.Lit "api"; Router.Lit "videos"; Router.Par "id"] segs = Some [("id", id)]
    /\ Router.same_text id "stream" = true.
Proof.
  destruct segs as [|a [|b [|c [|d rest]]]]; cbn; try discriminate;
    destruct (Router.same_text a "api"); try discriminate;
    destruct (Router.same_text b "videos"); try discriminate.
  - destruct (Router.same_text c "stream") eqn:Hc; [| discriminate].
    intros _. exists c. destruct c as [|x c']; [discriminate Hc |].
    split; [reflexivity | exact Hc].
  - destruct (Router.same_text c "stream"); discriminate.
Qed.

(** No request reaches the route /api/videos/stream: its path is a path
    of the route of one video, which is added before it and answers
    that there is no such video.  Every other route of the server can be
    reached. *)
Theorem stream_route_shadowed :
  (forall serves m path params,
     Router.dispatch serves m path <> Router.Handled Router.VideoStream params)
  /\ (forall h, h <> Router.VideoStream ->
        exists params,
          Router.dispatch (fun _ _ => false) (fst (requestFor h)) (snd (requestFor h))
          = Router.Handled h params)
  /\ (forall serves path segs,
        Router.segments path = Some segs ->
        Router.match_pattern
          [Router.Lit "api"; Router.Lit "videos"; Router.Lit "stream"]
          (Router.strip_slash segs) = Some [] ->
        serves "public" segs = false ->
        exists id,
          Router.dispatch serves Router.GET path
          = Router.Handled Router.VideoById [("id", id)]
          /\ forall site,
               Api.videoById site id
               = (site, Api.Status 404 (Api.JsonMessage "Video not found"))).
Proof.
  split; [| split].
  - intros serves m path params. unfold Router.dispatch.
    destruct (Router.segments path) as [segs|]; [| discriminate].
    unfold Router.table. cbn [Router.dispatchIn].
    repeat match goal with
           | |- context [match (if Router.handles ?m' m then ?p else None) with _ => _ end] =>
               lazymatch p with
               | Router.match_pattern
                   [Router.Lit "api"; Router.Lit "videos"; Router.Par "id"] _ =>
                   lazymatch m' with
                   | Router.GET =>
                       destruct (if Router.handles m' m then p else None) eqn:Hbyid;
                       [discriminate |]
                   | _ =>
                       destruct (if Router.handles m' m then p else None);
                       [discriminate |]
                   end
               | Router.match_pattern
                   [Router.Lit "api"; Router.Lit "videos"; Router.Lit "stream"] _ => fail
               | _ =>
                   destruct (if Router.handles m' m then p else None); [discriminate |]
               end
           | |- context [match Router.below ?mount segs with _ => _ end] =>
               destruct (Router.below mount segs);
               [destruct (Router.handles Router.GET m && serves _ _); [discriminate |] |]
           end.
    all: destruct (Router.handles Router.GET m); [| discriminate].
    all: destruct (Router.match_pattern
                     [Router.Lit "api"; Router.Lit "videos"; Router.Lit "stream"]
                     (Router.strip_slash segs)) as [ps|] eqn:Hstream; [| discriminate].
    all: destruct (stream_is_an_id _ _ Hstream) as (id & Hid & _); congruence.
  - intros h Hh. destruct h; try congruence; eexists; vm_compute; reflexivity.
  - intros serves path segs Hsegs Hstream Hpublic.
    destruct (stream_is_an_id _ _ Hstream) as (id & Hid & Htext).
    exists id. split.
    + unfold Router.dispatch. rewrite Hsegs.
      destruct (Router.strip_slash segs) as [|a segs1] eqn:Hstrip;
        [discriminate Hid |].
      cbn in Hid. destruct (Router.same_text a "api") eqn:Ha; [| discriminate Hid].
      destruct segs1 as [|b segs2]; [discriminate Hid |].
      cbn in Hid. destruct (Router.same_text b "videos") eqn:Hb; [| discriminate Hid].
      destruct segs2 as [|c segs3]; [discriminate Hid |].
      destruct segs3 as [|d rest];
        [| cbn in Hid; destruct (c =? "")%string; discriminate Hid].
      assert (Hbelow : exists segs', segs = a :: segs').
      { destruct segs as [|x segs']; [discriminate Hstrip |].
        cbn in Hstrip. destruct x; [destruct segs'; [discriminate Hstrip |] |];
          injection Hstrip as <- _; eauto. }
      destruct Hbelow as (segs' & ->).
      unfold Router.table. cbn [Router.dispatchIn Router.handles Router.below].
      rewrite Hstrip. cbn [Router.match_pattern]. rewrite Ha, Hb, Hpublic.
      assert (Hthumb : Router.same_text a "thumbnails" = false).
      { unfold Router.same_text in *. apply String.eqb_eq in Ha.
        rewrite Ha. reflexivity. }
      assert (Hvideos : Router.same_text a "videos" = false).
      { unfold Router.same_text in *. apply String.eqb_eq in Ha.
        rewrite Ha. reflexivity. }
      rewrite Hthumb, Hvideos. cbn.
      assert (Hc : forall s, Router.same_text "stream" s = false ->
                             Router.same_text c s = false).
      { intros s Hs. unfold Router.same_text in *. apply String.eqb_eq in Htext.
        cbn in Hid. destruct (c =? "")%string; [discriminate Hid |].
        injection Hid as <-. rewrite Htext. exact Hs. }
      assert (Hbs : forall s, Router.same_text "videos" s = false ->
                              Router.same_text b s = false).
      { intros s Hs. unfold Router.same_text in *. apply String.eqb_eq in Hb.
        rewrite Hb. exact Hs. }
      rewrite ?Hc, ?Hbs by reflexivity.
      cbn in Hid. destruct (c =? "")%string; [discriminate Hid |].
      injection Hid as <-. cbn. rewrite ?Hc, ?Hbs by reflexivity. reflexivity.
    + intros site. unfold Api.videoById.
      rewrite (parseInt_stream id Htext), getVideo_NaN. reflexivity.
Qed.

(** ** The users and the comments of the storage *)

(** After createDefaultUser the storage has a user whose name is demo in
    some spelling of small and capital letters, getUserByUsername finds
    such a user under every such spelling, and a second call changes
    nothing: the demo user is made at most once. *)
Theorem createDefaultUser_once (st : MemStorage.t) :
  let st' := MemStorage.createDefaultUser st in
  (forall username,
     JS.toLowerCase username = "demo" ->
     exists user,
       MemStorage.getUserByUsername username st' = Some user
       /\ JS.toLowerCase (Schema.User.username user) = "demo")
  /\ MemStorage.createDefaultUser st' = st'.
Proof.
  intros st'.
  assert (Hfound : exists user,
            MemStorage.getUserByUsername "demo" st' = Some user).
  { subst st'. unfold MemStorage.createDefaultUser.
    destruct (MemStorage.getUserByUsername "demo" st) as [user|] eqn:Hdemo; [eauto |].
    unfold MemStorage.getUserByUsername in *. cbn in Hdemo |- *.
    rewrite find_app, Hdemo. cbn. eauto. }
  destruct Hfound as [user Huser]. split.
  - intros username Hname. exists user. split.
    + rewrite <- Huser. unfold MemStorage.getUserByUsername.
      apply find_ext. intros x. rewrite Hname. reflexivity.
    + unfold MemStorage.getUserByUsername in Huser.
      apply find_some in Huser as [_ Heq]. apply String.eqb_eq in Heq. exact Heq.
  - unfold MemStorage.createDefaultUser at 1. rewrite Huser. reflexivity.
Qed.

(** The counter of the comments has no guard like the one of the videos:
    when it is undefined, as after loading a data file that does not have
    it, a new comment gets NaN as its identifier and the counter stays
    undefined, so every later comment gets NaN too; and since NaN differs
    from every number, deleteComment removes no such comment, whatever
    identifier it is called with. *)
Theorem createComment_counter_lost (insertComment : Schema.InsertComment.t) (now : Z)
    (st : MemStorage.t) :
  MemStorage.nextCommentId (MemStorage.data st) = JS.NaN ->
  let st' := fst (MemStorage.createComment insertComment now st) in
  let comment := snd (MemStorage.createComment insertComment now st) in
  Schema.Comment.id comment = JS.NaN
  /\ MemStorage.nextCommentId (MemStorage.data st') = JS.NaN
  /\ forall id,
       comment ∈ MemStorage.comments (MemStorage.data (fst (MemStorage.deleteComment id st'))).
Proof.
  intros Hcounter st' comment. subst st' comment.
  unfold MemStorage.createComment. cbn [fst snd]. rewrite Hcounter.
  split; [reflexivity |]. split; [reflexivity |].
  intros id.
  unfold MemStorage.deleteComment.
  match goal with
  | |- _ ∈ MemStorage.comments (MemStorage.data (fst (if ?c then _ else _, _))) =>
      destruct c
  end; cbn; rewrite List.filter_app; apply elem_of_app; right; cbn;
    apply list_elem_of_singleton; reflexivity.
Qed.

Lemma createComment_counter_lost_witness :
  let st' := fst (MemStorage.createComment sampleComment 5 lostCommentCounter) in
  let comment := snd (MemStorage.createComment sampleComment 5 lostCommentCounter) in
  Schema.Comment.id comment = JS.NaN
  /\ MemStorage.nextCommentId (MemStorage.data st') = JS.NaN
  /\ forall id,
       comment ∈ MemStorage.comments (MemStorage.data (fst (MemStorage.deleteComment id st'))).
Proof.
  apply (createComment_counter_lost sampleComment 5 lostCommentCounter). reflexivity.
Defined.

(** ** The configuration of a direct upload *)

Lemma string_app_length (s t : string) :
  String.length (s +:+ t) = (String.length s + String.length t)%nat.
Proof. induction s as [|c s IH]; [reflexivity | cbn; rewrite IH; reflexivity]. Qed.

Lemma string_app_cancel (s s' t : string) : s +:+ t = s' +:+ t -> s = s'.
Proof.
  intros Heq.
  assert (Hlength : String.length s = String.length s').
  { apply (f_equal String.length) in Heq. rewrite !string_app_length in Heq. lia. }
  revert s' Heq Hlength.
  induction s as [|c s IH]; intros [|c' s'] Heq Hlength; try discriminate;
    [reflexivity |].
  cbn in Heq. injection Heq as -> Heq. f_equal.
  apply IH; [exact Heq | cbn in Hlength; lia].
Qed.

Lemma partUrls_signed env aws (key uploadId : string) (expiresIn : Z)
    (partNumbers : list Z) :
  S3Enabled.checkS3Configuration env = true ->
  (forall c e, exists url, getSignedUrl aws c e = Ok url) ->
  S3Enabled.partUrls env aws key uploadId expiresIn partNumbers
  = (map (fun n => Signed (UploadPartCommand (normalizeS3Key key) uploadId (JS.Num n))
                     expiresIn) partNumbers,
     Ok tt).
Proof.
  intros Hconfigured Hsign.
  induction partNumbers as [|n rest IH]; [reflexivity |].
  cbn [S3Enabled.partUrls map].
  unfold S3Enabled.getMultipartPresignedUrl, S3Enabled.configured, S3Enabled.sign.
  rewrite Hconfigured. cbn [negb default from_option id].
  destruct (Hsign (UploadPartCommand (normalizeS3Key key) uploadId (JS.Num n)) expiresIn)
    as [url Hurl].
  unfold Datatypes.id. rewrite Hurl, IH. reflexivity.
Qed.

(** With the remote store at work the configuration of a direct upload
    depends on the size of the file.  Above 150 MiB it is one signed
    form, whose key is made from a second identifier and so is not the
    key that the answer names beside it.  Above 50 MiB and up to 150 MiB
    a multipart upload is created and one URL is signed for each part,
    numbered from 1 to the size divided by the part size and rounded up,
    with parts of 10 MiB above 100 MiB and of 5 MiB otherwise.  Up to 50
    MiB it is one signed URL for the whole file. *)
Theorem getDirectBrowserUploadConfig_by_size (env : ProcessEnv) (aws : AWS)
    (randomUUID : nat -> string) (fileName fileType : string) (fileSize : Z) :
  S3Enabled.checkS3Configuration env = true ->
  (forall c e, exists url, getSignedUrl aws c e = Ok url) ->
  (forall key e, exists url, createPresignedPost aws key e = Ok (url, key)) ->
  (forall c, exists uploadId data, send aws c = Ok (Some uploadId, data)) ->
  let key i := "uploads/" +:+ randomUUID i +:+ "." +:+ S3Enabled.fileExtension fileName in
  let run := S3Enabled.getDirectBrowserUploadConfig env aws randomUUID fileName fileType
               (JS.Num fileSize) in
  if 150 * MiB <? fileSize then
    exists url expiresIn,
      run = ([SignedPost (key 1%nat) expiresIn],
             Ok (JDirectConfig true (Some url) (Some (key 1%nat)) (key 0%nat)))
      /\ (randomUUID 0%nat <> randomUUID 1%nat -> key 0%nat <> key 1%nat)
  else if 50 * MiB <? fileSize then
    exists uploadId,
      run = (Sent (CreateMultipartUploadCommand (key 0%nat))
             :: map (fun n => Signed (UploadPartCommand (key 0%nat) uploadId (JS.Num n)) 3600)
                  (seqZ 1 (JS.ceil_div fileSize
                             (if 100 * MiB <? fileSize then 10 * MiB else 5 * MiB))),
             Ok (JDirectConfig false None None (key 0%nat)))
  else
    run = ([Signed (PutObjectCommand (key 0%nat)) 3600],
           Ok (JDirectConfig false None None (key 0%nat))).
Proof.
  intros Hconfigured Hsign Hpost Hsend key run. subst run.
  unfold S3Enabled.getDirectBrowserUploadConfig, S3Enabled.configured.
  rewrite Hconfigured. cbn [negb JS.gt].
  change (150 * 1024 * 1024) with (150 * MiB).
  change (50 * 1024 * 1024) with (50 * MiB).
  change (200 * 1024 * 1024) with (200 * MiB).
  assert (Hnormal : forall i, normalizeS3Key (key i) = key i) by reflexivity.
  fold (key 0%nat). rewrite Hnormal.
  destruct (Z.ltb_spec (150 * MiB) fileSize) as [Hlarge | Hlarge]; cbn [negb andb].
  - unfold S3Enabled.generatePresignedPost, S3Enabled.configured.
    rewrite Hconfigured. cbn [negb]. fold (key 1%nat). rewrite Hnormal.
    destruct (Hpost (key 1%nat) (if 200 * MiB <? fileSize then 24 * 3600 else 3600))
      as [url Hurl].
    rewrite Hurl. exists url, (if 200 * MiB <? fileSize then 24 * 3600 else 3600).
    split; [reflexivity |].
    intros Hdiffer Hkeys. apply Hdiffer. subst key. cbn in Hkeys.
    injection Hkeys as Hkeys.
    exact (string_app_cancel _ _ _ Hkeys).
  - destruct (Z.ltb_spec (50 * MiB) fileSize) as [Hmedium | Hsmall].
    + unfold S3Enabled.initiateMultipartUpload, S3Enabled.configured.
      rewrite Hconfigured. cbn [negb]. rewrite Hnormal.
      destruct (Hsend (CreateMultipartUploadCommand (key 0%nat)))
        as (uploadId & data & Hcreated).
      rewrite Hcreated. cbn [default from_option id]. unfold Datatypes.id.
      assert (Hexpiry : (200 * MiB <? fileSize) = false)
        by (apply Z.ltb_ge; unfold MiB in *; lia).
      rewrite Hexpiry.
      rewrite (partUrls_signed env aws (key 0%nat) uploadId 3600 _
                 Hconfigured Hsign).
      rewrite Hnormal. exists uploadId.
      change (100 * 1024 * 1024) with (100 * MiB).
      change (10 * 1024 * 1024) with (10 * MiB).
      change (5 * 1024 * 1024) with (5 * MiB).
      reflexivity.
    + assert (Hexpiry : (200 * MiB <? fileSize) = false)
        by (apply Z.ltb_ge; unfold MiB in *; lia).
      rewrite Hexpiry.
      unfold S3Enabled.generatePresignedUploadUrl, S3Enabled.configured, S3Enabled.sign.
      rewrite Hconfigured. cbn [negb default from_option id]. unfold Datatypes.id.
      assert (Hkey : (key 0%nat =? "")%string = false) by reflexivity.
      rewrite Hkey, Hnormal.
      destruct (Hsign (PutObjectCommand (key 0%nat)) 3600) as [url Hurl].
      rewrite Hurl. reflexivity.
Qed.

Lemma getDirectBrowserUploadConfig_by_size_witness :
  exists uploadId,
    S3Enabled.getDirectBrowserUploadConfig System.awsEnv System.healthyAWS
      (fun _ => "uuid") "clip.mp4" "video/mp4" (JS.Num (120 * MiB))
    = (Sent (CreateMultipartUploadCommand "uploads/uuid.mp4")
       :: map (fun n => Signed (UploadPartCommand "uploads/uuid.mp4" uploadId (JS.Num n)) 3600)
            (seqZ 1 12),
       Ok (JDirectConfig false None None "uploads/uuid.mp4")).
Proof.
  apply (getDirectBrowserUploadConfig_by_size System.awsEnv System.healthyAWS
           (fun _ => "uuid") "clip.mp4" "video/mp4" (120 * MiB)).
  - reflexivity.
  - intros c e. eexists. reflexivity.
  - intros key e. eexists. reflexivity.
  - intros c. eexists _, _. reflexivity.
Defined.

(** ** The titles of recovered videos *)

Lemma upper_facts (c : ascii) :
  JSString.is_word (JSString.upper c) = JSString.is_word c
  /\ JSString.is_lower (JSString.upper c) = false
  /\ (JSString.is_word c = false -> JSString.is_lower c = false)
  /\ (Ascii.eqb (JSString.upper c) "-" || Ascii.eqb (JSString.upper c) "_"
      = (Ascii.eqb c "-" || Ascii.eqb c "_"))
  /\ (JS.is_white_space c = true -> JSString.is_word c = false).
Proof.
  destruct c as [[] [] [] [] [] [] [] []]; vm_compute; repeat split; congruence.
Qed.

Lemma capitalize_words_capitalized (inWord : bool) (s : string) :
  capitalized inWord (JSString.capitalize_words inWord s) = true.
Proof.
  revert inWord. induction s as [|c s IH]; intros inWord; [reflexivity |].
  cbn [JSString.capitalize_words capitalized].
  destruct (upper_facts c) as (Hword & Hlower & Hnonword & _ & _).
  destruct (JSString.is_word c) eqn:Hc, inWord; cbn [andb negb orb];
    rewrite ?Hword, ?Hc, ?Hlower, ?(Hnonword eq_refl); cbn; apply IH.
Qed.

Lemma capitalize_words_spaced (inWord : bool) (s : string) :
  spaced s = true -> spaced (JSString.capitalize_words inWord s) = true.
Proof.
  revert inWord. induction s as [|c s IH]; intros inWord; [reflexivity |].
  cbn [JSString.capitalize_words spaced]. intros H.
  apply andb_true_iff in H as [Hc Hs]. apply andb_true_iff. split; [| apply IH, Hs].
  destruct (JSString.is_word c && negb inWord); [| exact Hc].
  destruct (upper_facts c) as (_ & _ & _ & -> & _). exact Hc.
Qed.

Lemma dashes_to_spaces_spaced (s : string) : spaced (JSString.dashes_to_spaces s) = true.
Proof.
  induction s as [|c s IH]; [reflexivity |].
  cbn [JSString.dashes_to_spaces spaced]. rewrite IH, andb_true_r.
  destruct (Ascii.eqb c "-" || Ascii.eqb c "_") eqn:Hc; [reflexivity |].
  rewrite Hc. reflexivity.
Qed.

Lemma skip_white_space_shape (s : string) :
  match JS.skip_white_space s with
  | EmptyString => True
  | String c _ => JS.is_white_space c = false
  end.
Proof.
  induction s as [|c s IH]; [exact I |].
  cbn. destruct (JS.is_white_space c) eqn:Hc; [exact IH | exact Hc].
Qed.

Lemma skip_white_space_keeps (s : string) :
  (capitalized false s = true -> capitalized false (JS.skip_white_space s) = true)
  /\ (spaced s = true -> spaced (JS.skip_white_space s) = true).
Proof.
  induction s as [|c s [IHc IHs]]; [split; reflexivity |].
  cbn [JS.skip_white_space]. destruct (JS.is_white_space c) eqn:Hc; [| split; auto].
  split.
  - cbn [capitalized]. intros H. apply andb_true_iff in H as [_ H].
    destruct (upper_facts c) as (_ & _ & _ & _ & Hws). rewrite (Hws Hc) in H.
    apply IHc, H.
  - cbn [spaced]. intros H. apply andb_true_iff in H as [_ H]. apply IHs, H.
Qed.

Lemma trim_end_keeps (s : string) :
  (forall inWord, capitalized inWord s = true ->
                  capitalized inWord (JSString.trim_end s) = true)
  /\ (spaced s = true -> spaced (JSString.trim_end s) = true).
Proof.
  induction s as [|c s [IHc IHs]]; [split; auto |].
  cbn [JSString.trim_end]. split.
  - intros inWord H. cbn [capitalized] in H. apply andb_true_iff in H as [Hc Hs].
    specialize (IHc _ Hs).
    destruct (JSString.trim_end s) as [|d rest].
    + destruct (JS.is_white_space c); [reflexivity |].
      cbn [capitalized]. rewrite Hc. reflexivity.
    + cbn [capitalized] in IHc |- *. rewrite Hc. exact IHc.
  - intros H. cbn [spaced] in H. apply andb_true_iff in H as [Hc Hs].
    specialize (IHs Hs).
    destruct (JSString.trim_end s) as [|d rest].
    + destruct (JS.is_white_space c); [reflexivity |].
      cbn [spaced]. rewrite Hc. reflexivity.
    + cbn [spaced] in IHs |- *. rewrite Hc. exact IHs.
Qed.

Lemma trim_end_idempotent (s : string) :
  JSString.trim_end (JSString.trim_end s) = JSString.trim_end s.
Proof.
  induction s as [|c s IH]; [reflexivity |].
  cbn [JSString.trim_end].
  destruct (JSString.trim_end s) as [|d rest] eqn:Hs.
  - destruct (JS.is_white_space c) eqn:Hc; [reflexivity |].
    cbn [JSString.trim_end]. rewrite Hc. reflexivity.
  - change (JSString.trim_end (String c (String d rest)))
      with (match JSString.trim_end (String d rest) with
            | EmptyString =>
                if JS.is_white_space c then EmptyString else String c EmptyString
            | String _ _ as rest' => String c rest'
            end).
    rewrite IH. reflexivity.
Qed.

Lemma trim_idempotent (s : string) : JSString.trim (JSString.trim s) = JSString.trim s.
Proof.
  unfold JSString.trim.
  pose proof (skip_white_space_shape s) as Hshape.
  destruct (JS.skip_white_space s) as [|c u]; [reflexivity |].
  assert (Hfirst : exists rest, JSString.trim_end (String c u) = String c rest).
  { cbn [JSString.trim_end]. destruct (JSString.trim_end u); [| eauto].
    rewrite Hshape. eauto. }
  destruct Hfirst as [rest Hrest].
  rewrite <- (trim_end_idempotent (String c u)) at 2.
  rewrite Hrest. cbn [JS.skip_white_space]. rewrite Hshape. reflexivity.
Qed.

(** A title that formatTitle makes has no dash and no underscore, no
    white space at its beginning or its end, and no small letter at the
    beginning of a word. *)
Theorem formatTitle_shape (input : string) :
  let title := StorageUtils.formatTitle input in
  spaced title = true
  /\ capitalized false title = true
  /\ JSString.trim title = title.
Proof.
  intros title. subst title. unfold StorageUtils.formatTitle.
  destruct (JS.includes "-" input && (30 <? Z.of_nat (String.length input)));
    [repeat split; reflexivity |].
  set (text := JSString.capitalize_words false (JSString.dashes_to_spaces input)).
  assert (Hspaced : spaced text = true)
    by apply capitalize_words_spaced, dashes_to_spaces_spaced.
  assert (Hcapitalized : capitalized false text = true)
    by apply capitalize_words_capitalized.
  unfold JSString.trim at 1 2.
  split; [apply trim_end_keeps, skip_white_space_keeps, Hspaced |].
  split; [apply trim_end_keeps, skip_white_space_keeps, Hcapitalized |].
  apply trim_idempotent.
Qed.

(** ** The files that multer stores *)

Lemma includes_char_cons (sep c : ascii) (s : string) :
  JS.includes (String sep EmptyString) (String c s)
  = Ascii.eqb sep c || JS.includes (String sep EmptyString) s.
Proof. cbn. rewrite andb_true_r. reflexivity. Qed.

Lemma after_last_dot_suffix (sep : ascii) (s e : string) :
  MulterConfig.after_last_dot s = Some e ->
  JS.includes (String sep EmptyString) s = false ->
  JS.includes (String sep EmptyString) e = false.
Proof.
  revert e. induction s as [|c s IH]; intros e; cbn [MulterConfig.after_last_dot];
    [discriminate |].
  rewrite includes_char_cons.
  destruct (MulterConfig.after_last_dot s) as [e'|].
  - intros [= <-] [_ H]%orb_false_iff. apply IH; [reflexivity | exact H].
  - destruct (Ascii.eqb c "."); [| discriminate].
    intros [= <-] [_ H]%orb_false_iff. exact H.
Qed.

Lemma after_last_dot_none (s : string) :
  MulterConfig.after_last_dot s = None -> JS.includes "." s = false.
Proof.
  induction s as [|c s IH]; cbn [MulterConfig.after_last_dot]; [reflexivity |].
  rewrite includes_char_cons.
  destruct (MulterConfig.after_last_dot s); [discriminate |].
  destruct (Ascii.eqb c ".") eqn:Hc; [discriminate |].
  intros _. rewrite Ascii.eqb_sym, Hc. apply IH. reflexivity.
Qed.

Lemma after_last_dot_dotless (s e : string) :
  MulterConfig.after_last_dot s = Some e -> JS.includes "." e = false.
Proof.
  revert e. induction s as [|c s IH]; intros e; cbn [MulterConfig.after_last_dot];
    [discriminate |].
  destruct (MulterConfig.after_last_dot s) as [e'|] eqn:Hs.
  - intros [= <-]. apply IH. reflexivity.
  - destruct (Ascii.eqb c "."); [| discriminate].
    intros [= <-]. apply after_last_dot_none, Hs.
Qed.

(** The name under which multer stores an upload is the identifier drawn
    for it followed by the extension of the original name, and that
    extension is empty or a dot followed by a text with neither a dot nor a
    slash: whatever the name of the uploaded file is, the stored file lies
    in the upload directory itself.  A file is let through when its content
    type begins with video/, whatever its name, and refused when it does not
    and its name has no extension; the extension is only tested for
    containing one of the known ones, so that photo.movie of type
    text/plain is let through. *)
Theorem multer_file_name (uuid originalname mimetype : string) :
  (exists ext,
     MulterConfig.filename uuid originalname = uuid +:+ ext
     /\ JS.includes "/" ext = false
     /\ (ext = "" \/ exists e, ext = "." +:+ e /\ JS.includes "." e = false))
  /\ (JS.startsWith "video/" mimetype = true ->
      MulterConfig.fileFilter originalname mimetype = true)
  /\ (JS.startsWith "video/" mimetype = false ->
      MulterConfig.extname originalname = "" ->
      MulterConfig.fileFilter originalname mimetype = false)
  /\ MulterConfig.fileFilter "photo.movie" "text/plain" = true.
Proof.
  split; [| split; [| split]].
  - exists (MulterConfig.extname originalname). split; [reflexivity |].
    unfold MulterConfig.extname.
    pose proof (basename_without_slash originalname) as Hbase.
    destruct (Routes.basename originalname) as [|c rest] eqn:Hb;
      [split; [reflexivity | left; reflexivity] |].
    rewrite includes_char_cons in Hbase. apply orb_false_iff in Hbase as [_ Hrest].
    destruct (MulterConfig.after_last_dot rest) as [e|] eqn:He;
      [| split; [reflexivity | left; reflexivity]].
    destruct (String.eqb (String c rest) "..");
      [split; [reflexivity | left; reflexivity] |].
    split.
    + change ("." +:+ e) with (String "." e). rewrite includes_char_cons.
      apply orb_false_iff. split; [reflexivity |].
      exact (after_last_dot_suffix "/" rest e He Hrest).
    + right. exists e. split; [reflexivity | exact (after_last_dot_dotless rest e He)].
  - intros Hmime. unfold MulterConfig.fileFilter. rewrite Hmime. reflexivity.
  - intros Hmime Hext. unfold MulterConfig.fileFilter. rewrite Hmime, Hext. reflexivity.
  - vm_compute. reflexivity.
Qed.

(** ** The routes of the lists *)

Lemma sliced_sorted_filtered (p : Schema.Video.t -> bool) (limit : JS.number)
    (l : list Schema.Video.t) (video : Schema.Video.t) :
  video ∈ JSArray.slice0 limit (JSArray.sort MemStorage.newestFirst (List.filter p l)) ->
  video ∈ l /\ p video = true.
Proof.
  change MemStorage.newestFirst with (fun a b => created b - created a).
  intros Hin.
  destruct (slice0_prefix limit
              (JSArray.sort (fun a b => created b - created a) (List.filter p l)))
    as [rest Hrest].
  assert (Hsorted : video ∈ JSArray.sort (fun a b => created b - created a)
                      (List.filter p l)).
  { rewrite Hrest. apply elem_of_app. left. exact Hin. }
  rewrite sort_perm in Hsorted.
  apply list_elem_of_In, filter_In in Hsorted as [Hstore Hp].
  split; [apply list_elem_of_In, Hstore | exact Hp].
Qed.

Lemma recent_length (k : Z) (st : MemStorage.t) :
  0 <= k ->
  length (MemStorage.getRecentVideos (JS.Num k) st)
  = Nat.min (Z.to_nat k) (length (MemStorage.videos (MemStorage.data st))).
Proof.
  intros Hk. unfold MemStorage.getRecentVideos. cbn.
  change MemStorage.newestFirst with (fun a b => created b - created a).
  replace (k <? 0) with false by (symmetry; apply Z.ltb_ge, Hk).
  rewrite length_take. f_equal. apply Permutation_length, sort_perm.
Qed.

(** The routes of the lists answer 200 with videos of the store, the
    newest first.  GET /api/videos/recent lists the five newest videos when
    the request names no limit, as many as the limit when the limit is a
    decimal numeral, none for 0, and none when parseInt reads no number
    from the limit; the lists of the featured, the contest and the AI
    videos hold only videos with that mark. *)
Theorem list_routes_limit (site : Api.Site) (limit : option string) :
  let st := Api.storage site in
  let stored := MemStorage.videos (MemStorage.data st) in
  (exists vs,
     Api.listVideos site = Api.Status 200 (Api.JsonVideos vs)
     /\ vs ≡ₚ stored /\ Descending created vs)
  /\ (exists vs,
        Api.listRecent site limit = Api.Status 200 (Api.JsonVideos vs)
        /\ vs `prefix_of` MemStorage.getVideos st
        /\ Descending created vs
        /\ (JS.truthy limit = false -> length vs = Nat.min 5 (length stored))
        /\ (forall k, 0 <= k < 2 ^ 53 -> limit = Some (JS.show (JS.Num k)) ->
              length vs = Nat.min (Z.to_nat k) (length stored))
        /\ (JS.truthy limit = true -> JS.parseIntAuto (default "" limit) = JS.NaN ->
            vs = []))
  /\ (exists vs,
        Api.listFeatured site limit = Api.Status 200 (Api.JsonVideos vs)
        /\ Descending created vs
        /\ Forall (fun video => video ∈ stored
                                /\ Schema.Video.isFeatured video = Some true) vs)
  /\ (exists vs,
        Api.listContest site limit = Api.Status 200 (Api.JsonVideos vs)
        /\ Descending created vs
        /\ Forall (fun video => video ∈ stored
                                /\ Schema.Video.isContest video = Some true) vs)
  /\ (exists vs,
        Api.listAI site limit = Api.Status 200 (Api.JsonVideos vs)
        /\ Descending created vs
        /\ Forall (fun video => video ∈ stored
                                /\ Schema.Video.isAI video = Some true) vs).
Proof.
  intros st stored.
  assert (Hflag : forall o : option bool, MemStorage.flag o = true -> o = Some true).
  { intros [[|]|]; [reflexivity | discriminate ..]. }
  split; [| split; [| split; [| split]]].
  - eexists. split; [reflexivity |].
    unfold MemStorage.getVideos.
    change MemStorage.newestFirst with (fun a b => created b - created a).
    split; [apply sort_perm | apply sort_descending].
  - eexists. split; [reflexivity |].
    unfold MemStorage.getRecentVideos, MemStorage.getVideos.
    change MemStorage.newestFirst with (fun a b => created b - created a).
    split; [apply slice0_prefix |].
    split; [apply slice0_descending, sort_descending |].
    fold (MemStorage.newestFirst).
    change (JSArray.slice0 (Api.limitOf limit)
              (JSArray.sort MemStorage.newestFirst
                 (MemStorage.videos (MemStorage.data st))))
      with (MemStorage.getRecentVideos (Api.limitOf limit) st).
    split; [| split].
    + intros Hno. unfold Api.limitOf. rewrite Hno. apply recent_length. lia.
    + intros k Hk ->. unfold Api.limitOf.
      assert (Htruthy : JS.truthy (Some (JS.show (JS.Num k))) = true).
      { cbn. apply negb_true_iff, String.eqb_neq, show_not_empty, Hk. }
      rewrite Htruthy. cbn [default from_option id].
      change (Datatypes.id (JS.show (JS.Num k))) with (JS.show (JS.Num k)).
      rewrite parseIntAuto_show by exact Hk. apply recent_length, Hk.
    + intros Hyes HNaN. unfold Api.limitOf. rewrite Hyes, HNaN. reflexivity.
  - eexists. split; [reflexivity |].
    unfold MemStorage.getFeaturedVideos.
    split.
    + change MemStorage.newestFirst with (fun a b => created b - created a).
      apply slice0_descending, sort_descending.
    + apply Forall_forall. intros video Hin.
      apply sliced_sorted_filtered in Hin as [Hstore Hp]. split; [exact Hstore |].
      apply Hflag, Hp.
  - eexists. split; [reflexivity |].
    unfold MemStorage.getContestVideos.
    split.
    + change MemStorage.newestFirst with (fun a b => created b - created a).
      apply slice0_descending, sort_descending.
    + apply Forall_forall. intros video Hin.
      apply sliced_sorted_filtered in Hin as [Hstore Hp]. split; [exact Hstore |].
      apply Hflag, Hp.
  - eexists. split; [reflexivity |].
    unfold MemStorage.getAIVideos.
    split.
    + change MemStorage.newestFirst with (fun a b => created b - created a).
      apply slice0_descending, sort_descending.
    + apply Forall_forall. intros video Hin.
      apply sliced_sorted_filtered in Hin as [Hstore Hp]. split; [exact Hstore |].
      apply Hflag, Hp.
Qed.
